(** * MoreLikeThis (Lucene++ contrib): term scoring, top-K selection and
      query assembly

    Shallow embedding of [src/contrib/queries/search/similar/MoreLikeThis.cpp]
    and of the declarations in [src/contrib/include/MoreLikeThis.h].

    - [double] is IEEE binary64: Rocq's primitive [float], with [<], [==],
      [*] and [/] the primitive operations.
    - [int32_t] is [Z], without wrap-around: signed overflow has no defined
      behaviour in C++.  A statement about the value of a sum carries the
      premise that the sum lies between [INT32_MIN] and [INT32_MAX], where
      the sum in [Z] is the sum of the source.
    - [String] is [string]; [HashSet<String>] is a list of strings;
      [HashMap<K,V>] is an association list in iteration order, because
      [createQueue] walks the table with iterators and its result depends
      on the order in which equal-score candidates are met.
    - exceptions are the [Throw] results of the [Result] type. *)

From Stdlib Require Import ZArith List String Ascii Bool Lia Floats.
From Stdlib Require Import Sorting.Sorted Sorting.Permutation.
From Stdlib Require Import DecimalString.
Import ListNotations.

Local Open Scope Z_scope.

(** * The program *)

(** ** Comparisons *)

(** The lexicographic product of two comparisons, of the keys [k1] and then
    of the keys [k2]. *)
Definition lex {A K1 K2 : Type} (k1 : A -> K1) (k2 : A -> K2)
  (cmp1 : K1 -> K1 -> comparison) (cmp2 : K2 -> K2 -> comparison) (x y : A)
  : comparison :=
  match cmp1 (k1 x) (k1 y) with
  | Eq => cmp2 (k2 x) (k2 y)
  | c => c
  end.

Definition flip_cmp {A : Type} (cmp : A -> A -> comparison) (x y : A) : comparison :=
  cmp y x.

(** The [int32_t] a [compareTo] returns: only its sign is used. *)
Definition int_of_comparison (c : comparison) : Z :=
  match c with Lt => -1 | Eq => 0 | Gt => 1 end.

(** ** [double] *)

Module Double.

(** Not a NaN.  Every comparison with a NaN is false in IEEE 754, so the
    order facts below hold for numbers only. *)
Definition valid (x : float) : Prop := is_nan x = false.

Definition cmp (x y : float) : comparison :=
  match SFcompare (Prim2SF x) (Prim2SF y) with
  | Some c => c
  | None => Eq
  end.

(** [int32_t] to [double], exact on the whole 32-bit range. *)
Definition of_int32 (z : Z) : float :=
  if z <? 0 then (- of_uint63 (Uint63.of_Z (- z)))%float
  else of_uint63 (Uint63.of_Z z).

End Double.

(** ** [Term] *)

Record Term : Type := newTerm { _field : string; _text : string }.

(** By the field, then by the text. *)
Definition Term_cmp : Term -> Term -> comparison :=
  lex _field _text String.compare String.compare.

(** Modelled from the spec: [Term::compareTo], defined in the core
    library's Term.cpp, is the "total order on term identity (field, then
    text)", the "field+text lexical order". *)
Definition Term_compareTo (this other : Term) : Z :=
  int_of_comparison (Term_cmp this other).

(** ** [MoreLikeThis::TermScore] *)

Record TermScore : Type := newTermScore { term : Term; score : float }.

(** [TermScore::compareTo].  [other] is [None] when the dynamic cast to
    [TermScore] fails. *)
Definition TermScore_compareTo (this : TermScore) (other : option TermScore) : Z :=
  match other with
  | None => -1
  | Some tsp =>
      if (score this =? score tsp)%float
      then Term_compareTo (term tsp) (term this)
      else if (score this <? score tsp)%float then -1
           else if (score tsp <? score this)%float then 1 else 0
  end.

(** [TermScoreQueue::lessThan]. *)
Definition lessThan (first second : TermScore) : bool :=
  TermScore_compareTo first (Some second) <? 0.

(** ** Exceptions and results *)

Inductive LuceneException : Type :=
| UnsupportedOperationException (message : string)
| TooManyClausesException
| NullDereference.

Inductive Result (A : Type) : Type :=
| Ok (a : A)
| Throw (e : LuceneException).

Arguments Ok {A} a.

Arguments Throw {A} e.

Definition bind {A B : Type} (r : Result A) (k : A -> Result B) : Result B :=
  match r with
  | Ok a => k a
  | Throw e => Throw e
  end.

Notation "x <- r ;; k" := (bind r (fun x => k))
  (at level 61, r at next level, right associativity).

(** A [for] loop over a collection whose body may throw. *)
Fixpoint forEach {A S : Type} (body : S -> A -> Result S) (l : list A) (s : S)
  : Result S :=
  match l with
  | [] => Ok s
  | a :: l' => s' <- body s a ;; forEach body l' s'
  end.

(** ** [HashMap<String, V>] and [HashSet<String>] *)

Definition HashMap (V : Type) : Type := list (string * V).

Definition HashSet : Type := list string.

Definition HashSet_contains (s : HashSet) (k : string) : bool :=
  existsb (String.eqb k) s.

Fixpoint HashMap_get {V : Type} (m : HashMap V) (k : string) : option V :=
  match m with
  | [] => None
  | (k', v) :: m' => if String.eqb k k' then Some v else HashMap_get m' k
  end.

Definition HashMap_contains {V : Type} (m : HashMap V) (k : string) : bool :=
  match HashMap_get m k with Some _ => true | None => false end.

(** [m[k] = v]: the entry of an existing key is overwritten where it is, a
    new key is met last by the iterators. *)
Fixpoint HashMap_put {V : Type} (m : HashMap V) (k : string) (v : V) : HashMap V :=
  match m with
  | [] => [(k, v)]
  | (k', v') :: m' =>
      if String.eqb k k' then (k', v) :: m' else (k', v') :: HashMap_put m' k v
  end.

Definition HashMap_size {V : Type} (m : HashMap V) : Z := Z.of_nat (List.length m).

(** The FrequencyTable of the spec: field name to (term text to count). *)
Definition FrequencyTable : Type := HashMap (HashMap Z).

(** ** The priority queue *)

Module PriorityQueue.

(** Modelled from the spec: the [PriorityQueue] template of the core
    library (PriorityQueue.h) is not part of these sources.  The spec
    describes it as "a fixed-capacity container of ScoredTerm ... ordered so
    the minimum-scoring retained entry is efficiently discoverable and
    replaceable", which "the caller drains in descending-score order
    (highest score first) by repeated remove-the-current-best operations".
    The entries are kept in the order of [lessThan], least first. *)
Record TermScoreQueue : Type := mkQueue { maxSize : Z; heap : list TermScore }.

Definition newTermScoreQueue (size : Z) : TermScoreQueue :=
  {| maxSize := size; heap := [] |}.

Definition size (q : TermScoreQueue) : Z := Z.of_nat (List.length (heap q)).

Fixpoint insert (x : TermScore) (l : list TermScore) : list TermScore :=
  match l with
  | [] => [x]
  | y :: l' => if lessThan y x then y :: insert x l' else x :: l
  end.

(** Modelled from the spec: [add] places an entry in the container. *)
Definition add (q : TermScoreQueue) (st : TermScore) : TermScoreQueue :=
  {| maxSize := maxSize q; heap := insert st (heap q) |}.

(** Modelled from the spec: [top] is "the current minimum-scoring retained
    entry"; an empty queue has none (the empty pointer). *)
Definition top (q : TermScoreQueue) : option TermScore := hd_error (heap q).

(** Modelled from the spec: [updateTop] "restore[s] the ordering invariant"
    after the top entry was overwritten in place; [st] is the content the
    top entry now has. *)
Definition updateTop (q : TermScoreQueue) (st : TermScore) : TermScoreQueue :=
  {| maxSize := maxSize q; heap := insert st (tl (heap q)) |}.

(** Modelled from the spec: [pop] is the "remove the current best"
    operation of the drain; on an empty queue it returns the empty pointer. *)
Definition pop (q : TermScoreQueue) : option TermScore * TermScoreQueue :=
  match rev (heap q) with
  | [] => (None, q)
  | best :: others => (Some best, {| maxSize := maxSize q; heap := rev others |})
  end.

(** The entries in the order in which repeated [pop]s return them. *)
Definition drained (q : TermScoreQueue) : list TermScore := rev (heap q).

(** [while ((st = q->pop())) ...], collecting what is popped; the loop ends
    at the first empty pointer, and [fuel] bounds its iterations. *)
Fixpoint popAll (fuel : nat) (q : TermScoreQueue) : list TermScore :=
  match fuel with
  | O => []
  | S fuel' =>
      match pop q with
      | (Some st, q') => st :: popAll fuel' q'
      | (None, _) => []
      end
  end.

End PriorityQueue.

Import PriorityQueue.

(** ** Collaborators *)

(** A [Reader] is the text it delivers. *)
Definition Reader : Type := string.

(** [Analyzer::tokenStream(fieldName, reader)], as the terms of the tokens
    the stream delivers one [incrementToken] at a time. *)
Definition Analyzer : Type := string -> Reader -> list string.

Record TermFreqVector : Type := {
  getTerms : list string;
  getTermFrequencies : list Z
}.

Record Document : Type := { getValues : string -> list string }.

Record IndexReader : Type := {
  numDocs : Z;
  docFreq : Term -> Z;
  getFieldNames : HashSet;          (* for FIELD_OPTION_INDEXED *)
  getTermFreqVector : Z -> string -> option TermFreqVector;
  document : Z -> Document
}.

Record Similarity : Type := { idf : Z -> Z -> float }.

(** ** The [MoreLikeThis] object *)

Record MoreLikeThis : Type := {
  stopWords : HashSet;
  analyzer : option Analyzer;
  minTermFreq : Z;
  minDocFreq : Z;
  maxDocFreq : Z;
  hasBoost : bool;
  fieldNames : HashSet;
  maxNumTokensParsed : Z;
  minWordLen : Z;
  maxWordLen : Z;
  maxQueryTerms : Z;
  similarity : Similarity;
  reader : IndexReader;
  boostFactor : float
}.

Definition INT32_MAX : Z := 2147483647.

Definition INT32_MIN : Z := -2147483648.

Definition DEFAULT_MAX_NUM_TOKENS_PARSED : Z := 5000.

Definition DEFAULT_MIN_TERM_FREQ : Z := 2.

Definition DEFAULT_MIN_DOC_FREQ : Z := 5.

Definition DEFAULT_MAX_DOC_FREQ : Z := INT32_MAX.

Definition DEFAULT_BOOST : bool := false.

Definition DEFAULT_MIN_WORD_LENGTH : Z := 0.

Definition DEFAULT_MAX_WORD_LENGTH : Z := 0.

Definition DEFAULT_MAX_QUERY_TERMS : Z := 25.

(** The constructor [MoreLikeThis(ir, sim)]; no analyzer is set. *)
Definition newMoreLikeThis (ir : IndexReader) (sim : Similarity) : MoreLikeThis :=
  {| stopWords := [];
     analyzer := None;
     minTermFreq := DEFAULT_MIN_TERM_FREQ;
     minDocFreq := DEFAULT_MIN_DOC_FREQ;
     maxDocFreq := DEFAULT_MAX_DOC_FREQ;
     hasBoost := DEFAULT_BOOST;
     fieldNames := [];
     maxNumTokensParsed := DEFAULT_MAX_NUM_TOKENS_PARSED;
     minWordLen := DEFAULT_MIN_WORD_LENGTH;
     maxWordLen := DEFAULT_MAX_WORD_LENGTH;
     maxQueryTerms := DEFAULT_MAX_QUERY_TERMS;
     similarity := sim;
     reader := ir;
     boostFactor := 1%float |}.

(** The setters of the header. *)

Definition setStopWords (mlt : MoreLikeThis) (sw : HashSet) : MoreLikeThis :=
  {| stopWords := sw;
     analyzer := analyzer mlt;
     minTermFreq := minTermFreq mlt;
     minDocFreq := minDocFreq mlt;
     maxDocFreq := maxDocFreq mlt;
     hasBoost := hasBoost mlt;
     fieldNames := fieldNames mlt;
     maxNumTokensParsed := maxNumTokensParsed mlt;
     minWordLen := minWordLen mlt;
     maxWordLen := maxWordLen mlt;
     maxQueryTerms := maxQueryTerms mlt;
     similarity := similarity mlt;
     reader := reader mlt;
     boostFactor := boostFactor mlt |}.

Definition setAnalyzer (mlt : MoreLikeThis) (azr : option Analyzer) : MoreLikeThis :=
  {| stopWords := stopWords mlt;
     analyzer := azr;
     minTermFreq := minTermFreq mlt;
     minDocFreq := minDocFreq mlt;
     maxDocFreq := maxDocFreq mlt;
     hasBoost := hasBoost mlt;
     fieldNames := fieldNames mlt;
     maxNumTokensParsed := maxNumTokensParsed mlt;
     minWordLen := minWordLen mlt;
     maxWordLen := maxWordLen mlt;
     maxQueryTerms := maxQueryTerms mlt;
     similarity := similarity mlt;
     reader := reader mlt;
     boostFactor := boostFactor mlt |}.

Definition setMinTermFreq (mlt : MoreLikeThis) (mtf : Z) : MoreLikeThis :=
  {| stopWords := stopWords mlt;
     analyzer := analyzer mlt;
     minTermFreq := mtf;
     minDocFreq := minDocFreq mlt;
     maxDocFreq := maxDocFreq mlt;
     hasBoost := hasBoost mlt;
     fieldNames := fieldNames mlt;
     maxNumTokensParsed := maxNumTokensParsed mlt;
     minWordLen := minWordLen mlt;
     maxWordLen := maxWordLen mlt;
     maxQueryTerms := maxQueryTerms mlt;
     similarity := similarity mlt;
     reader := reader mlt;
     boostFactor := boostFactor mlt |}.

Definition setMinDocFreq (mlt : MoreLikeThis) (mdf : Z) : MoreLikeThis :=
  {| stopWords := stopWords mlt;
     analyzer := analyzer mlt;
     minTermFreq := minTermFreq mlt;
     minDocFreq := mdf;
     maxDocFreq := maxDocFreq mlt;
     hasBoost := hasBoost mlt;
     fieldNames := fieldNames mlt;
     maxNumTokensParsed := maxNumTokensParsed mlt;
     minWordLen := minWordLen mlt;
     maxWordLen := maxWordLen mlt;
     maxQueryTerms := maxQueryTerms mlt;
     similarity := similarity mlt;
     reader := reader mlt;
     boostFactor := boostFactor mlt |}.

Definition setMaxDocFreq (mlt : MoreLikeThis) (mdf : Z) : MoreLikeThis :=
  {| stopWords := stopWords mlt;
     analyzer := analyzer mlt;
     minTermFreq := minTermFreq mlt;
     minDocFreq := minDocFreq mlt;
     maxDocFreq := mdf;
     hasBoost := hasBoost mlt;
     fieldNames := fieldNames mlt;
     maxNumTokensParsed := maxNumTokensParsed mlt;
     minWordLen := minWordLen mlt;
     maxWordLen := maxWordLen mlt;
     maxQueryTerms := maxQueryTerms mlt;
     similarity := similarity mlt;
     reader := reader mlt;
     boostFactor := boostFactor mlt |}.

Definition setBoost (mlt : MoreLikeThis) (b : bool) : MoreLikeThis :=
  {| stopWords := stopWords mlt;
     analyzer := analyzer mlt;
     minTermFreq := minTermFreq mlt;
     minDocFreq := minDocFreq mlt;
     maxDocFreq := maxDocFreq mlt;
     hasBoost := b;
     fieldNames := fieldNames mlt;
     maxNumTokensParsed := maxNumTokensParsed mlt;
     minWordLen := minWordLen mlt;
     maxWordLen := maxWordLen mlt;
     maxQueryTerms := maxQueryTerms mlt;
     similarity := similarity mlt;
     reader := reader mlt;
     boostFactor := boostFactor mlt |}.

Definition setFieldNames (mlt : MoreLikeThis) (names : HashSet) : MoreLikeThis :=
  {| stopWords := stopWords mlt;
     analyzer := analyzer mlt;
     minTermFreq := minTermFreq mlt;
     minDocFreq := minDocFreq mlt;
     maxDocFreq := maxDocFreq mlt;
     hasBoost := hasBoost mlt;
     fieldNames := names;
     maxNumTokensParsed := maxNumTokensParsed mlt;
     minWordLen := minWordLen mlt;
     maxWordLen := maxWordLen mlt;
     maxQueryTerms := maxQueryTerms mlt;
     similarity := similarity mlt;
     reader := reader mlt;
     boostFactor := boostFactor mlt |}.

Definition setMaxNumTokensParsed (mlt : MoreLikeThis) (i : Z) : MoreLikeThis :=
  {| stopWords := stopWords mlt;
     analyzer := analyzer mlt;
     minTermFreq := minTermFreq mlt;
     minDocFreq := minDocFreq mlt;
     maxDocFreq := maxDocFreq mlt;
     hasBoost := hasBoost mlt;
     fieldNames := fieldNames mlt;
     maxNumTokensParsed := i;
     minWordLen := minWordLen mlt;
     maxWordLen := maxWordLen mlt;
     maxQueryTerms := maxQueryTerms mlt;
     similarity := similarity mlt;
     reader := reader mlt;
     boostFactor := boostFactor mlt |}.

Definition setMinWordLen (mlt : MoreLikeThis) (mwl : Z) : MoreLikeThis :=
  {| stopWords := stopWords mlt;
     analyzer := analyzer mlt;
     minTermFreq := minTermFreq mlt;
     minDocFreq := minDocFreq mlt;
     maxDocFreq := maxDocFreq mlt;
     hasBoost := hasBoost mlt;
     fieldNames := fieldNames mlt;
     maxNumTokensParsed := maxNumTokensParsed mlt;
     minWordLen := mwl;
     maxWordLen := maxWordLen mlt;
     maxQueryTerms := maxQueryTerms mlt;
     similarity := similarity mlt;
     reader := reader mlt;
     boostFactor := boostFactor mlt |}.

Definition setMaxWordLen (mlt : MoreLikeThis) (mwl : Z) : MoreLikeThis :=
  {| stopWords := stopWords mlt;
     analyzer := analyzer mlt;
     minTermFreq := minTermFreq mlt;
     minDocFreq := minDocFreq mlt;
     maxDocFreq := maxDocFreq mlt;
     hasBoost := hasBoost mlt;
     fieldNames := fieldNames mlt;
     maxNumTokensParsed := maxNumTokensParsed mlt;
     minWordLen := minWordLen mlt;
     maxWordLen := mwl;
     maxQueryTerms := maxQueryTerms mlt;
     similarity := similarity mlt;
     reader := reader mlt;
     boostFactor := boostFactor mlt |}.

Definition setMaxQueryTerms (mlt : MoreLikeThis) (mqt : Z) : MoreLikeThis :=
  {| stopWords := stopWords mlt;
     analyzer := analyzer mlt;
     minTermFreq := minTermFreq mlt;
     minDocFreq := minDocFreq mlt;
     maxDocFreq := maxDocFreq mlt;
     hasBoost := hasBoost mlt;
     fieldNames := fieldNames mlt;
     maxNumTokensParsed := maxNumTokensParsed mlt;
     minWordLen := minWordLen mlt;
     maxWordLen := maxWordLen mlt;
     maxQueryTerms := mqt;
     similarity := similarity mlt;
     reader := reader mlt;
     boostFactor := boostFactor mlt |}.

Definition setBoostFactor (mlt : MoreLikeThis) (bf : float) : MoreLikeThis :=
  {| stopWords := stopWords mlt;
     analyzer := analyzer mlt;
     minTermFreq := minTermFreq mlt;
     minDocFreq := minDocFreq mlt;
     maxDocFreq := maxDocFreq mlt;
     hasBoost := hasBoost mlt;
     fieldNames := fieldNames mlt;
     maxNumTokensParsed := maxNumTokensParsed mlt;
     minWordLen := minWordLen mlt;
     maxWordLen := maxWordLen mlt;
     maxQueryTerms := maxQueryTerms mlt;
     similarity := similarity mlt;
     reader := reader mlt;
     boostFactor := bf |}.

(** [setMaxDocFreqPct]: [maxPercentage * reader->numDocs() / 100] in
    [int32_t] arithmetic, the division truncating; the product is taken to
    fit in 32 bits. *)
Definition setMaxDocFreqPct (mlt : MoreLikeThis) (maxPercentage : Z) : MoreLikeThis :=
  setMaxDocFreq mlt (Z.quot (maxPercentage * numDocs (reader mlt)) 100).

(** ** [createQueue] *)

Definition getTermsCount (perFieldTermFrequencies : FrequencyTable) : Z :=
  fold_left (fun totalTermsCount it => totalTermsCount + HashMap_size (snd it))
    perFieldTermFrequencies 0.

(** The first half of the body of the inner loop of [createQueue]: the
    [continue]s and the score.  [None] is a [continue]. *)
Definition scoreTerm (mlt : MoreLikeThis) (numDocs : Z) (fieldName word : string)
  (tf : Z) : option TermScore :=
  if (0 <? minTermFreq mlt) && (tf <? minTermFreq mlt) then None
  else
    let term := newTerm fieldName word in
    let docFreq := docFreq (reader mlt) term in
    if (0 <? minDocFreq mlt) && (docFreq <? minDocFreq mlt) then None
    else if maxDocFreq mlt <? docFreq then None
    else if docFreq =? 0 then None
    else
      let idf := idf (similarity mlt) docFreq numDocs in
      let score := (Double.of_int32 tf * idf)%float in
      Some {| term := term; score := score |}.

(** The second half: the queue takes the scored term or not.  With no
    space left, [top()] is dereferenced at once; on an empty queue that is
    the empty pointer. *)
Definition offer (limit : Z) (queue : TermScoreQueue) (cand : TermScore)
  : Result TermScoreQueue :=
  if size queue <? limit then Ok (add queue cand)
  else
    match top queue with
    | None => Throw NullDereference
    | Some st =>
        if (score st <? score cand)%float
        then Ok (updateTop queue cand)
        else Ok queue
    end.

Definition createQueue_word (mlt : MoreLikeThis) (numDocs limit : Z)
  (fieldName : string) (queue : TermScoreQueue) (it : string * Z)
  : Result TermScoreQueue :=
  let word := fst it in
  let tf := snd it in
  match scoreTerm mlt numDocs fieldName word tf with
  | None => Ok queue
  | Some cand => offer limit queue cand
  end.

Definition createQueue_field (mlt : MoreLikeThis) (numDocs limit : Z)
  (queue : TermScoreQueue) (it : string * HashMap Z) : Result TermScoreQueue :=
  let perWordTermFrequencies := snd it in
  let fieldName := fst it in
  forEach (createQueue_word mlt numDocs limit fieldName) perWordTermFrequencies queue.

Definition createQueue (mlt : MoreLikeThis) (perFieldTermFrequencies : FrequencyTable)
  : Result TermScoreQueue :=
  let numDocs := numDocs (reader mlt) in
  let limit := Z.min (maxQueryTerms mlt) (getTermsCount perFieldTermFrequencies) in
  let queue := newTermScoreQueue limit in
  forEach (createQueue_field mlt numDocs limit) perFieldTermFrequencies queue.

(** ** Accumulating term frequencies *)

(** [isNoiseWord]. *)
Definition isNoiseWord (mlt : MoreLikeThis) (term : string) : bool :=
  let len := Z.of_nat (String.length term) in
  if (0 <? minWordLen mlt) && (len <? minWordLen mlt) then true
  else if (0 <? maxWordLen mlt) && (maxWordLen mlt <? len) then true
  else HashSet_contains (stopWords mlt) term.

(** [if (!m.contains(term)) m[term] = 0;  m[term] += n].  The frequencies
    are [int32_t] and the sum is taken in [Z]: it is the sum of the source
    as long as it lies between [INT32_MIN] and [INT32_MAX], and what is
    stated below of the value of a frequency carries that as a premise. *)
Definition increment (termFreqMap : HashMap Z) (term : string) (n : Z) : HashMap Z :=
  let termFreqMap :=
    if negb (HashMap_contains termFreqMap term)
    then HashMap_put termFreqMap term 0 else termFreqMap in
  match HashMap_get termFreqMap term with
  | Some old => HashMap_put termFreqMap term (old + n)
  | None => HashMap_put termFreqMap term n
  end.

(** [if (!t.contains(fieldName)) t[fieldName] = newInstance()]. *)
Definition ensureField (table : FrequencyTable) (fieldName : string) : FrequencyTable :=
  if negb (HashMap_contains table fieldName)
  then HashMap_put table fieldName [] else table.

Definition fieldMap (table : FrequencyTable) (fieldName : string) : HashMap Z :=
  match HashMap_get table fieldName with
  | Some m => m
  | None => []
  end.

(** The loop over the entries of a term vector; [terms] and [freqs] are
    parallel arrays of [vector->size()] elements. *)
Fixpoint vectorLoop (mlt : MoreLikeThis) (entries : list (string * Z))
  (termFreqMap : HashMap Z) : HashMap Z :=
  match entries with
  | [] => termFreqMap
  | (term, freq) :: entries' =>
      if isNoiseWord mlt term then vectorLoop mlt entries' termFreqMap
      else vectorLoop mlt entries' (increment termFreqMap term freq)
  end.

(** [addTermFrequencies(field2termFreqMap, vector, fieldName)]. *)
Definition addTermFrequencies_vector (mlt : MoreLikeThis)
  (field2termFreqMap : FrequencyTable) (vector : option TermFreqVector)
  (fieldName : string) : FrequencyTable :=
  match vector with
  | Some vector =>
      let field2termFreqMap := ensureField field2termFreqMap fieldName in
      let termFreqMap := fieldMap field2termFreqMap fieldName in
      let terms := getTerms vector in
      let freqs := getTermFrequencies vector in
      HashMap_put field2termFreqMap fieldName
        (vectorLoop mlt (combine terms freqs) termFreqMap)
  | None => field2termFreqMap
  end.

(** The [while (ts->incrementToken())] loop; the list is what the stream
    still has to deliver. *)
Fixpoint tokenLoop (mlt : MoreLikeThis) (ts : list string) (tokenCount : Z)
  (termFreqMap : HashMap Z) : HashMap Z :=
  match ts with
  | [] => termFreqMap
  | term :: ts' =>
      let tokenCount := tokenCount + 1 in
      if maxNumTokensParsed mlt <? tokenCount then termFreqMap
      else if isNoiseWord mlt term then tokenLoop mlt ts' tokenCount termFreqMap
      else tokenLoop mlt ts' tokenCount (increment termFreqMap term 1)
  end.

(** [addTermFrequencies(r, perFieldTermFrequencies, fieldName)].  The table
    is an in-out parameter: the result is the outcome together with the
    table as the call leaves it. *)
Definition addTermFrequencies_reader (mlt : MoreLikeThis) (r : Reader)
  (perFieldTermFrequencies : FrequencyTable) (fieldName : string)
  : Result unit * FrequencyTable :=
  match analyzer mlt with
  | None =>
      (Throw (UnsupportedOperationException
                "To use MoreLikeThis without term vectors, you must provide an Analyzer"),
       perFieldTermFrequencies)
  | Some analyzer =>
      let perFieldTermFrequencies := ensureField perFieldTermFrequencies fieldName in
      let termFreqMap := fieldMap perFieldTermFrequencies fieldName in
      let ts := analyzer fieldName r in
      let tokenCount := 0 in
      (Ok tt,
       HashMap_put perFieldTermFrequencies fieldName
         (tokenLoop mlt ts tokenCount termFreqMap))
  end.

(** A loop whose body works on the table and may throw. *)
Fixpoint forEachAcc {A : Type}
  (body : A -> FrequencyTable -> Result unit * FrequencyTable)
  (l : list A) (table : FrequencyTable) : Result unit * FrequencyTable :=
  match l with
  | [] => (Ok tt, table)
  | a :: l' =>
      match body a table with
      | (Ok _, table') => forEachAcc body l' table'
      | (Throw e, table') => (Throw e, table')
      end
  end.

(** The body of the loop over the field names in [retrieveTerms(docNum)]. *)
Definition retrieveTerms_field (mlt : MoreLikeThis) (docNum : Z) (fieldName : string)
  (field2termFreqMap : FrequencyTable) : Result unit * FrequencyTable :=
  let vector := getTermFreqVector (reader mlt) docNum fieldName in
  match vector with
  | None =>
      let d := document (reader mlt) docNum in
      let values := getValues d fieldName in
      forEachAcc (fun it table => addTermFrequencies_reader mlt it table fieldName)
        values field2termFreqMap
  | Some _ =>
      (Ok tt, addTermFrequencies_vector mlt field2termFreqMap vector fieldName)
  end.

(** The table [retrieveTerms(docNum)] hands to [createQueue]. *)
Definition accumulate_docNum (mlt : MoreLikeThis) (docNum : Z)
  : Result unit * FrequencyTable :=
  forEachAcc (retrieveTerms_field mlt docNum) (fieldNames mlt) [].

(** The table [retrieveTerms(fieldName, readers)] hands to [createQueue]. *)
Definition accumulate_readers (mlt : MoreLikeThis) (fieldName : string)
  (readers : list Reader) : Result unit * FrequencyTable :=
  forEachAcc (fun it table => addTermFrequencies_reader mlt it table fieldName)
    readers [].

Definition thenCreateQueue (mlt : MoreLikeThis) (acc : Result unit * FrequencyTable)
  : Result TermScoreQueue :=
  match acc with
  | (Ok _, table) => createQueue mlt table
  | (Throw e, _) => Throw e
  end.

(** [retrieveTerms(docNum)]. *)
Definition retrieveTerms_docNum (mlt : MoreLikeThis) (docNum : Z)
  : Result TermScoreQueue :=
  thenCreateQueue mlt (accumulate_docNum mlt docNum).

(** [retrieveTerms(fieldName, readers)]. *)
Definition retrieveTerms_readers (mlt : MoreLikeThis) (fieldName : string)
  (readers : list Reader) : Result TermScoreQueue :=
  thenCreateQueue mlt (accumulate_readers mlt fieldName readers).

(** [retrieveTerms(r, fieldName)]. *)
Definition retrieveTerms_reader (mlt : MoreLikeThis) (r : Reader) (fieldName : string)
  : Result TermScoreQueue :=
  thenCreateQueue mlt (addTermFrequencies_reader mlt r [] fieldName).

(** ** [createQuery] *)

(** A [TermQuery]; [Query::boost] starts at 1.0. *)
Record TermQuery : Type := { queryTerm : Term; boost : float }.

Definition newTermQuery (t : Term) : TermQuery :=
  {| queryTerm := t; boost := 1%float |}.

(** [Query::setBoost]. *)
Definition Query_setBoost (tq : TermQuery) (b : float) : TermQuery :=
  {| queryTerm := queryTerm tq; boost := b |}.

Inductive Occur : Type := MUST | SHOULD | MUST_NOT.

Record BooleanClause : Type := { clauseQuery : TermQuery; occur : Occur }.

Record BooleanQuery : Type := { clauses : list BooleanClause }.

Definition newBooleanQuery : BooleanQuery := {| clauses := [] |}.

(** [query->add(tq, occur)] as the loop of [createQuery] sees it: the
    query with the clause, or an exception.  [BooleanQuery::add] belongs to
    the core library, so the loop is written for any such operation. *)
Definition AddClause : Type :=
  BooleanQuery -> TermQuery -> Occur -> Result BooleanQuery.

(** Modelled from the spec: "Adding may fail with a TooManyClauses
    condition if the disjunction has reached an externally imposed maximum
    clause count"; the query is then as it was. *)
Definition BooleanQuery_add (maxClauseCount : Z) (query : BooleanQuery)
  (tq : TermQuery) (o : Occur) : Result BooleanQuery :=
  if maxClauseCount <=? Z.of_nat (List.length (clauses query))
  then Throw TooManyClausesException
  else Ok {| clauses := clauses query ++ [{| clauseQuery := tq; occur := o |}] |}.

(** The body of the [while ((scoreTerm = q->pop()))] loop, over the entries
    in the order [pop] returns them. *)
Fixpoint createQuery_loop (add : AddClause) (mlt : MoreLikeThis)
  (entries : list TermScore) (query : BooleanQuery) (bestScore : float)
  : Result BooleanQuery :=
  match entries with
  | [] => Ok query
  | scoreTerm :: entries' =>
      let tq := newTermQuery (term scoreTerm) in
      let bestScore :=
        if hasBoost mlt
        then if (bestScore =? -1)%float then score scoreTerm else bestScore
        else bestScore in
      let tq :=
        if hasBoost mlt
        then
          let myScore := score scoreTerm in
          Query_setBoost tq (boostFactor mlt * myScore / bestScore)%float
        else tq in
      match add query tq SHOULD with
      | Ok query' => createQuery_loop add mlt entries' query' bestScore
      | Throw TooManyClausesException =>
          createQuery_loop add mlt entries' query bestScore
      | Throw e => Throw e
      end
  end.

Definition createQuery (maxClauseCount : Z) (mlt : MoreLikeThis) (q : TermScoreQueue)
  : Result BooleanQuery :=
  let query := newBooleanQuery in
  let bestScore := (-1)%float in
  createQuery_loop (BooleanQuery_add maxClauseCount) mlt (drained q) query bestScore.

(** ** [retrieveInterestingTerms] *)

(** [while ((scoreTerm = pq->pop()) && lim-- > 0)]. *)
Fixpoint retrieveInterestingTerms_loop (entries : list TermScore) (lim : Z)
  (res : list string) : list string :=
  match entries with
  | [] => res
  | scoreTerm :: entries' =>
      if 0 <? lim
      then retrieveInterestingTerms_loop entries' (lim - 1)
             (res ++ [_text (term scoreTerm)])
      else res
  end.

Definition retrieveInterestingTerms (mlt : MoreLikeThis) (pq : TermScoreQueue)
  : list string :=
  let lim := maxQueryTerms mlt in
  retrieveInterestingTerms_loop (drained pq) lim [].

(** ** The public operations

    Each returns its result together with the object as the call leaves
    it. *)

Definition HashSet_empty (s : HashSet) : bool :=
  match s with [] => true | _ => false end.

(** [like(docNum)]. *)
Definition like_docNum (maxClauseCount : Z) (mlt : MoreLikeThis) (docNum : Z)
  : Result BooleanQuery * MoreLikeThis :=
  let mlt :=
    if HashSet_empty (fieldNames mlt)
    then setFieldNames mlt (getFieldNames (reader mlt))
    else mlt in
  (q <- retrieveTerms_docNum mlt docNum ;; createQuery maxClauseCount mlt q, mlt).

(** [like(fieldName, readers)]. *)
Definition like_readers (maxClauseCount : Z) (mlt : MoreLikeThis)
  (fieldName : string) (readers : list Reader)
  : Result BooleanQuery * MoreLikeThis :=
  (q <- retrieveTerms_readers mlt fieldName readers ;;
   createQuery maxClauseCount mlt q, mlt).

(** [retrieveInterestingTerms(docNum)]. *)
Definition retrieveInterestingTerms_docNum (mlt : MoreLikeThis) (docNum : Z)
  : Result (list string) * MoreLikeThis :=
  (q <- retrieveTerms_docNum mlt docNum ;; Ok (retrieveInterestingTerms mlt q), mlt).

(** [retrieveInterestingTerms(fieldName, readers)]. *)
Definition retrieveInterestingTerms_readers (mlt : MoreLikeThis)
  (fieldName : string) (readers : list Reader)
  : Result (list string) * MoreLikeThis :=
  (q <- retrieveTerms_readers mlt fieldName readers ;;
   Ok (retrieveInterestingTerms mlt q), mlt).

(** [retrieveInterestingTerms(r, fieldName)]. *)
Definition retrieveInterestingTerms_reader (mlt : MoreLikeThis) (r : Reader)
  (fieldName : string) : Result (list string) * MoreLikeThis :=
  (q <- retrieveTerms_reader mlt r fieldName ;;
   Ok (retrieveInterestingTerms mlt q), mlt).

(** ** [describeParams] *)

Local Open Scope string_scope.

(** [ss << n] for an [int32_t]: the decimal digits, after a minus sign for
    a negative number. *)
Definition showInt (n : Z) : string := NilZero.string_of_int (Z.to_int n).

(** [ss << b] for a [bool]: 1 or 0. *)
Definition showBool (b : bool) : string := if b then "1" else "0".

Definition tab : string := String "009" "".

(** [std::endl]. *)
Definition endl : string := String "010" "".

(** The loop over the field names: [ss << delim << *it; delim = ", "]. *)
Fixpoint describeParams_loop (names : list string) (ss delim : string) : string :=
  match names with
  | [] => ss
  | it :: names' => describeParams_loop names' (ss ++ delim ++ it) ", "
  end.

(** [describeParams]. *)
Definition describeParams (mlt : MoreLikeThis) : string :=
  let ss := "" in
  let ss := ss ++ tab ++ "maxQueryTerms  : " ++ showInt (maxQueryTerms mlt) ++ endl in
  let ss := ss ++ tab ++ "minWordLen     : " ++ showInt (minWordLen mlt) ++ endl in
  let ss := ss ++ tab ++ "maxWordLen     : " ++ showInt (maxWordLen mlt) ++ endl in
  let ss := ss ++ tab ++ "fieldNames     : " in
  let delim := "" in
  let ss := describeParams_loop (fieldNames mlt) ss delim in
  let ss := ss ++ endl in
  let ss := ss ++ tab ++ "boost          : " ++ showBool (hasBoost mlt) ++ endl in
  let ss := ss ++ tab ++ "minTermFreq    : " ++ showInt (minTermFreq mlt) ++ endl in
  let ss := ss ++ tab ++ "minDocFreq     : " ++ showInt (minDocFreq mlt) ++ endl in
  ss.

Local Close Scope string_scope.

(** ** A small index, for the examples *)

Local Open Scope string_scope.

(** An analyzer that splits the text at blanks. *)
Fixpoint splitWords (text word : string) : list string :=
  match text with
  | EmptyString => if String.eqb word "" then [] else [word]
  | String c text' =>
      if Ascii.eqb c " "
      then if String.eqb word "" then splitWords text' ""
           else word :: splitWords text' ""
      else splitWords text' (word ++ String c "")
  end.

Definition whitespaceAnalyzer : Analyzer := fun _ r => splitWords r "".

(** A document whose field "body" has two stored values and no term
    vector. *)
Definition exDocument : Document :=
  {| getValues := fun fieldName =>
       if String.eqb fieldName "body" then ["x y z"; "u v w"] else [] |}.

(** A corpus of 100 documents in which every term occurs in 3. *)
Definition exReader : IndexReader :=
  {| numDocs := 100;
     docFreq := fun _ => 3;
     getFieldNames := ["body"];
     getTermFreqVector := fun _ _ => None;
     document := fun _ => exDocument |}.

Definition exSimilarity : Similarity := {| idf := fun _ _ => 2%float |}.

(** [minTermFreq = 2], [minDocFreq = 1], [maxDocFreq = 1000], the stop word
    "the", the analyzer above; the rest as the constructor leaves it. *)
Definition exMoreLikeThis : MoreLikeThis :=
  setAnalyzer
    (setStopWords
       (setMaxDocFreq
          (setMinDocFreq
             (setMinTermFreq (newMoreLikeThis exReader exSimilarity) 2) 1) 1000)
       ["the"])
    (Some whitespaceAnalyzer).

(** Three terms of scores 10, 6 and 14. *)
Definition exTable : FrequencyTable := [("body", [("a", 5); ("b", 3); ("c", 7)])].

(** Two terms of the same score, "b" met before "a". *)
Definition exTieTable : FrequencyTable := [("body", [("b", 3); ("a", 3)])].

(** The same two terms, "a" met before "b". *)
Definition exTieTable' : FrequencyTable := [("body", [("a", 3); ("b", 3)])].

(** The table of the scenario of the spec, after the noise filter. *)
Definition exAppleTable : FrequencyTable := [("body", [("apple", 5); ("xyz", 1)])].

(** The queue [createQueue] makes of [exTable] when two terms are asked
    for. *)
Definition exQueue : TermScoreQueue :=
  {| maxSize := 2;
     heap := [ {| term := newTerm "body" "a"; score := 10%float |};
               {| term := newTerm "body" "c"; score := 14%float |} ] |}.

(** One term of score 6. *)
Definition exSingleTable : FrequencyTable := [("body", [("a", 3)])].

(** The double nearest to 0.1. *)
Definition tenth : float := 0x1.999999999999ap-4%float.

(** Boosting on, with the boost factor 0.1. *)
Definition exBoosted : MoreLikeThis :=
  setBoost (setBoostFactor exMoreLikeThis tenth) true.

(** Boosting on, with the boost factor -1. *)
Definition exNegativeBoost : MoreLikeThis :=
  setBoost (setBoostFactor exMoreLikeThis (-1)%float) true.

(** Boosting on, with the boost factor 2^1023. *)
Definition exHugeBoost : MoreLikeThis :=
  setBoost (setBoostFactor exMoreLikeThis 0x1p1023%float) true.

Local Close Scope string_scope.

(** * Properties *)

(** Facts about the examples hold by running the program. *)
Ltac evaluate := vm_compute; reflexivity.

(** ** Comparisons that order a type *)

Section Comparison.

Context {A : Type} (ok : A -> Prop) (cmp : A -> A -> comparison).

Definition cmp_antisym : Prop :=
  forall x y, ok x -> ok y -> cmp y x = CompOpp (cmp x y).

Definition cmp_trans : Prop :=
  forall c x y z, ok x -> ok y -> ok z ->
    cmp x y = c -> cmp y z = c -> cmp x z = c.

Hypothesis Hanti : cmp_antisym.

Hypothesis Htrans : cmp_trans.

Lemma cmp_eq_l (x y z : A) :
  ok x -> ok y -> ok z -> cmp x y = Eq -> cmp x z = cmp y z.
Proof.
  intros ox oy oz Hxy.
  assert (Hyx : cmp y x = Eq) by (rewrite (Hanti x y ox oy), Hxy; reflexivity).
  destruct (cmp y z) eqn:Hyz.
  - exact (Htrans Eq x y z ox oy oz Hxy Hyz).
  - destruct (cmp x z) eqn:Hxz; try reflexivity.
    + assert (Hzx : cmp z x = Eq) by (rewrite (Hanti x z ox oz), Hxz; reflexivity).
      pose proof (Htrans Eq z x y oz ox oy Hzx Hxy) as Hzy.
      rewrite (Hanti y z oy oz), Hyz in Hzy. discriminate.
    + assert (Hzx : cmp z x = Lt) by (rewrite (Hanti x z ox oz), Hxz; reflexivity).
      pose proof (Htrans Lt y z x oy oz ox Hyz Hzx) as H. congruence.
  - destruct (cmp x z) eqn:Hxz; try reflexivity.
    + assert (Hzx : cmp z x = Eq) by (rewrite (Hanti x z ox oz), Hxz; reflexivity).
      pose proof (Htrans Eq z x y oz ox oy Hzx Hxy) as Hzy.
      rewrite (Hanti y z oy oz), Hyz in Hzy. discriminate.
    + assert (Hzx : cmp z x = Gt) by (rewrite (Hanti x z ox oz), Hxz; reflexivity).
      pose proof (Htrans Gt y z x oy oz ox Hyz Hzx) as H. congruence.
Qed.

Lemma cmp_eq_r (x y z : A) :
  ok x -> ok y -> ok z -> cmp y z = Eq -> cmp x y = cmp x z.
Proof.
  intros ox oy oz Hyz.
  pose proof (cmp_eq_l y z x oy oz ox Hyz) as H.
  rewrite (Hanti y x oy ox), (Hanti z x oz ox), H. reflexivity.
Qed.

Lemma cmp_refl (x : A) : ok x -> cmp x x = Eq.
Proof.
  intros ox. pose proof (Hanti x x ox ox) as H.
  destruct (cmp x x); simpl in H; congruence.
Qed.

Lemma cmp_not_Gt_trans (x y z : A) :
  ok x -> ok y -> ok z -> cmp x y <> Gt -> cmp y z <> Gt -> cmp x z <> Gt.
Proof.
  intros ox oy oz Hxy Hyz.
  destruct (cmp x y) eqn:E1; try congruence.
  - rewrite (cmp_eq_l x y z ox oy oz E1). exact Hyz.
  - destruct (cmp y z) eqn:E2; try congruence.
    + rewrite <- (cmp_eq_r x y z ox oy oz E2), E1. discriminate.
    + rewrite (Htrans Lt x y z ox oy oz E1 E2). discriminate.
Qed.

End Comparison.

(** The lexicographic product of two ordering comparisons orders too. *)

Section Lexicographic.

Context {A K1 K2 : Type} (ok : A -> Prop).

Context (k1 : A -> K1) (k2 : A -> K2).

Context (ok1 : K1 -> Prop) (ok2 : K2 -> Prop).

Context (cmp1 : K1 -> K1 -> comparison) (cmp2 : K2 -> K2 -> comparison).

Hypothesis Hok1 : forall x, ok x -> ok1 (k1 x).

Hypothesis Hok2 : forall x, ok x -> ok2 (k2 x).

Hypothesis Hanti1 : cmp_antisym ok1 cmp1.

Hypothesis Htrans1 : cmp_trans ok1 cmp1.

Hypothesis Hanti2 : cmp_antisym ok2 cmp2.

Hypothesis Htrans2 : cmp_trans ok2 cmp2.

Lemma lex_antisym : cmp_antisym ok (lex k1 k2 cmp1 cmp2).
Proof.
  intros x y ox oy. unfold lex.
  rewrite (Hanti1 (k1 x) (k1 y)) by auto.
  destruct (cmp1 (k1 x) (k1 y)); simpl; auto.
Qed.

Lemma lex_trans : cmp_trans ok (lex k1 k2 cmp1 cmp2).
Proof.
  intros c x y z ox oy oz. unfold lex.
  destruct (cmp1 (k1 x) (k1 y)) eqn:E1.
  - rewrite (cmp_eq_l ok1 cmp1 Hanti1 Htrans1 (k1 x) (k1 y) (k1 z)) by auto.
    destruct (cmp1 (k1 y) (k1 z)); try congruence.
    apply Htrans2; auto.
  - intros <-. destruct (cmp1 (k1 y) (k1 z)) eqn:E2.
    + rewrite <- (cmp_eq_r ok1 cmp1 Hanti1 Htrans1 (k1 x) (k1 y) (k1 z)) by auto.
      rewrite E1. reflexivity.
    + rewrite (Htrans1 Lt (k1 x) (k1 y) (k1 z)) by auto. reflexivity.
    + discriminate.
  - intros <-. destruct (cmp1 (k1 y) (k1 z)) eqn:E2.
    + rewrite <- (cmp_eq_r ok1 cmp1 Hanti1 Htrans1 (k1 x) (k1 y) (k1 z)) by auto.
      rewrite E1. reflexivity.
    + discriminate.
    + rewrite (Htrans1 Gt (k1 x) (k1 y) (k1 z)) by auto. reflexivity.
Qed.

End Lexicographic.

(** ** The order of the doubles *)

Module DoubleFacts.

Import Double.

Lemma SFcompare_antisym (x y : spec_float) :
  SFcompare y x = option_map CompOpp (SFcompare x y).
Proof.
  destruct x as [s1|s1| |s1 m1 e1], y as [s2|s2| |s2 m2 e2]; simpl;
    try reflexivity;
    try (destruct s1; reflexivity); try (destruct s2; reflexivity);
    try (destruct s1, s2; reflexivity).
  rewrite (Z.compare_antisym e1 e2).
  rewrite (Pos.compare_cont_spec m2 m1), (Pos.compare_cont_spec m1 m2).
  simpl. rewrite (Pos.compare_antisym m1 m2).
  destruct s1, s2; simpl; try reflexivity;
    destruct (e1 ?= e2); simpl; try reflexivity;
    destruct (m1 ?= m2)%positive; reflexivity.
Qed.

Lemma SFcompare_trans (x y z : spec_float) (c : comparison) :
  SFcompare x y = Some c -> SFcompare y z = Some c -> SFcompare x z = Some c.
Proof.
  destruct x as [s1|s1| |s1 m1 e1], y as [s2|s2| |s2 m2 e2],
    z as [s3|s3| |s3 m3 e3];
    simpl; try discriminate;
    try (destruct s1; try destruct s2; try destruct s3; simpl; intros; congruence);
    try (destruct s2; try destruct s3; simpl; intros; congruence);
    try (destruct s3; simpl; intros; congruence).
  rewrite !Pos.compare_cont_spec; simpl.
  destruct s1, s2, s3; simpl; try congruence;
    destruct (Z.compare_spec e1 e2), (Z.compare_spec e2 e3),
      (Z.compare_spec e1 e3);
    try lia; simpl; try congruence; subst;
    destruct (Pos.compare_spec m1 m2), (Pos.compare_spec m2 m3),
      (Pos.compare_spec m1 m3);
    simpl; try congruence; try lia.
Qed.

Lemma valid_SF (x : float) : valid x <-> Prim2SF x <> S754_nan.
Proof.
  unfold valid, is_nan. rewrite eqb_spec. unfold SFeqb.
  destruct (Prim2SF x) as [s|s| |s m e]; simpl.
  - split; [discriminate | reflexivity].
  - destruct s; simpl; split; (discriminate || reflexivity).
  - split; [discriminate | congruence].
  - rewrite Z.compare_refl, Pos.compare_cont_refl.
    destruct s; simpl; split; (discriminate || reflexivity).
Qed.

Lemma SFcompare_Some (x y : float) :
  valid x -> valid y ->
  SFcompare (Prim2SF x) (Prim2SF y) = Some (cmp x y).
Proof.
  rewrite !valid_SF. unfold cmp. intros Hx Hy.
  destruct (Prim2SF x) as [s1|s1| |s1 m1 e1], (Prim2SF y) as [s2|s2| |s2 m2 e2];
    simpl; try congruence.
Qed.

Lemma cmp_is_antisym : cmp_antisym valid cmp.
Proof.
  intros x y _ _. unfold cmp.
  rewrite (SFcompare_antisym (Prim2SF x) (Prim2SF y)).
  destruct (SFcompare (Prim2SF x) (Prim2SF y)); reflexivity.
Qed.

Lemma cmp_is_trans : cmp_trans valid cmp.
Proof.
  intros c x y z vx vy vz Hxy Hyz.
  pose proof (SFcompare_Some x y vx vy) as E1.
  pose proof (SFcompare_Some y z vy vz) as E2.
  pose proof (SFcompare_Some x z vx vz) as E3.
  rewrite Hxy in E1. rewrite Hyz in E2.
  pose proof (SFcompare_trans _ _ _ _ E1 E2) as E. congruence.
Qed.

(** The three tests of the source, read off the comparison. *)

Lemma ltb_cmp (x y : float) : valid x -> valid y ->
  (x <? y)%float = match cmp x y with Lt => true | _ => false end.
Proof.
  intros vx vy. rewrite ltb_spec. unfold SFltb.
  rewrite (SFcompare_Some x y vx vy). reflexivity.
Qed.

Lemma eqb_cmp (x y : float) : valid x -> valid y ->
  (x =? y)%float = match cmp x y with Eq => true | _ => false end.
Proof.
  intros vx vy. rewrite eqb_spec. unfold SFeqb.
  rewrite (SFcompare_Some x y vx vy). reflexivity.
Qed.

Lemma leb_cmp (x y : float) : valid x -> valid y ->
  (x <=? y)%float = match cmp x y with Gt => false | _ => true end.
Proof.
  intros vx vy. rewrite leb_spec. unfold SFleb.
  rewrite (SFcompare_Some x y vx vy). destruct (cmp x y); reflexivity.
Qed.

(** [<] is asymmetric on every pair of doubles, NaN included. *)
Lemma ltb_asym (x y : float) : (x <? y)%float = true -> (y <? x)%float = false.
Proof.
  rewrite !ltb_spec. unfold SFltb.
  rewrite (SFcompare_antisym (Prim2SF x) (Prim2SF y)).
  destruct (SFcompare (Prim2SF x) (Prim2SF y)) as [[]|]; simpl; congruence.
Qed.

Lemma eqb_sym (x y : float) : (x =? y)%float = (y =? x)%float.
Proof.
  rewrite !eqb_spec. unfold SFeqb.
  rewrite (SFcompare_antisym (Prim2SF x) (Prim2SF y)).
  destruct (SFcompare (Prim2SF x) (Prim2SF y)) as [[]|]; reflexivity.
Qed.

Lemma leb_trans (x y z : float) : valid x -> valid y -> valid z ->
  (x <=? y)%float = true -> (y <=? z)%float = true -> (x <=? z)%float = true.
Proof.
  intros vx vy vz. rewrite !leb_cmp by assumption. intros Hxy Hyz.
  pose proof (cmp_not_Gt_trans valid cmp cmp_is_antisym cmp_is_trans
                x y z vx vy vz) as H.
  destruct (cmp x y), (cmp y z), (cmp x z); try reflexivity; try discriminate;
    exfalso; apply H; congruence.
Qed.

Lemma ltb_leb (x y : float) : valid x -> valid y ->
  (x <? y)%float = true -> (x <=? y)%float = true.
Proof.
  intros vx vy. rewrite ltb_cmp, leb_cmp by assumption.
  destruct (cmp x y); congruence.
Qed.

Lemma not_ltb_leb (x y : float) : valid x -> valid y ->
  (x <? y)%float = false -> (y <=? x)%float = true.
Proof.
  intros vx vy. rewrite ltb_cmp, leb_cmp by assumption.
  rewrite (cmp_is_antisym x y vx vy). destruct (cmp x y); simpl; congruence.
Qed.

Lemma eqb_not_ltb (x y : float) : (x =? y)%float = true -> (x <? y)%float = false.
Proof.
  rewrite eqb_spec, ltb_spec. unfold SFeqb, SFltb.
  destruct (SFcompare (Prim2SF x) (Prim2SF y)) as [[]|]; congruence.
Qed.

Lemma leb_refl (x : float) : valid x -> (x <=? x)%float = true.
Proof.
  intros vx. rewrite leb_cmp by assumption.
  rewrite (cmp_refl valid cmp cmp_is_antisym) by assumption.
  reflexivity.
Qed.

End DoubleFacts.

(** ** The order of the strings and of the terms *)

Definition always {A : Type} (_ : A) : Prop := True.

Lemma ascii_compare_trans : cmp_trans always Ascii.compare.
Proof.
  intros c x y z _ _ _. unfold Ascii.compare.
  destruct c; rewrite ?N.compare_eq_iff, ?N.compare_lt_iff, ?N.compare_gt_iff; lia.
Qed.

Lemma string_compare_antisym : cmp_antisym always String.compare.
Proof. intros x y _ _. apply String.compare_antisym. Qed.

Lemma string_compare_trans : cmp_trans always String.compare.
Proof.
  intros c x. induction x as [|a x IH]; intros y z _ _ _; destruct y as [|b y], z as [|d z];
    simpl; try congruence.
  destruct (Ascii.compare a b) eqn:E1.
  - apply Ascii.compare_eq_iff in E1. subst b.
    destruct (Ascii.compare a d); try congruence.
    apply IH; exact I.
  - intros <-. destruct (Ascii.compare b d) eqn:E2; try discriminate.
    + apply Ascii.compare_eq_iff in E2. subst d. rewrite E1. reflexivity.
    + rewrite (ascii_compare_trans Lt a b d I I I E1 E2). reflexivity.
  - intros <-. destruct (Ascii.compare b d) eqn:E2; try discriminate.
    + apply Ascii.compare_eq_iff in E2. subst d. rewrite E1. reflexivity.
    + rewrite (ascii_compare_trans Gt a b d I I I E1 E2). reflexivity.
Qed.

Lemma Term_cmp_antisym : cmp_antisym always Term_cmp.
Proof.
  apply (lex_antisym always _field _text always always);
    auto using string_compare_antisym.
Qed.

Lemma Term_cmp_trans : cmp_trans always Term_cmp.
Proof.
  apply (lex_trans always _field _text always always);
    auto using string_compare_antisym, string_compare_trans.
Qed.

(** ** The order of the queue *)

(** An entry whose score is a number. *)
Definition numeric (ts : TermScore) : Prop := Double.valid (score ts).

Lemma flip_antisym {A : Type} (cmp : A -> A -> comparison) :
  cmp_antisym always cmp -> cmp_antisym always (flip_cmp cmp).
Proof. intros H x y _ _. unfold flip_cmp. apply H; exact I. Qed.

Lemma flip_trans {A : Type} (cmp : A -> A -> comparison) :
  cmp_trans always cmp -> cmp_trans always (flip_cmp cmp).
Proof.
  intros H c x y z _ _ _ Hxy Hyz. unfold flip_cmp in *.
  exact (H c z y x I I I Hyz Hxy).
Qed.

(** The order of the queue: by score, and among equal scores by the term,
    reversed. *)
Definition TermScore_cmp : TermScore -> TermScore -> comparison :=
  lex score term Double.cmp (flip_cmp Term_cmp).

Lemma TermScore_cmp_antisym : cmp_antisym numeric TermScore_cmp.
Proof.
  apply (lex_antisym numeric score term Double.valid always);
    auto using DoubleFacts.cmp_is_antisym, flip_antisym, Term_cmp_antisym.
  intros; exact I.
Qed.

Lemma TermScore_cmp_trans : cmp_trans numeric TermScore_cmp.
Proof.
  apply (lex_trans numeric score term Double.valid always);
    auto using DoubleFacts.cmp_is_antisym, DoubleFacts.cmp_is_trans, flip_antisym,
      flip_trans, Term_cmp_antisym, Term_cmp_trans.
  intros; exact I.
Qed.

Lemma compareTo_cmp (a b : TermScore) : numeric a -> numeric b ->
  TermScore_compareTo a (Some b) = int_of_comparison (TermScore_cmp a b).
Proof.
  intros va vb. unfold TermScore_compareTo, TermScore_cmp, lex.
  rewrite (DoubleFacts.eqb_cmp _ _ va vb), (DoubleFacts.ltb_cmp _ _ va vb),
    (DoubleFacts.ltb_cmp _ _ vb va).
  rewrite (DoubleFacts.cmp_is_antisym (score a) (score b) va vb).
  destruct (Double.cmp (score a) (score b)); reflexivity.
Qed.

Lemma lessThan_cmp (a b : TermScore) : numeric a -> numeric b ->
  lessThan a b = match TermScore_cmp a b with Lt => true | _ => false end.
Proof.
  intros va vb. unfold lessThan. rewrite (compareTo_cmp a b va vb).
  destruct (TermScore_cmp a b); reflexivity.
Qed.

(** [lessThan] is asymmetric on all entries, whatever their scores. *)
Lemma lessThan_asym (a b : TermScore) : lessThan a b = true -> lessThan b a = false.
Proof.
  unfold lessThan, TermScore_compareTo. rewrite (DoubleFacts.eqb_sym (score b) (score a)).
  destruct (score a =? score b)%float.
  - unfold Term_compareTo. rewrite (Term_cmp_antisym (term b) (term a) I I).
    destruct (Term_cmp (term b) (term a)); cbv; congruence.
  - destruct (score a <? score b)%float eqn:E1.
    + rewrite (DoubleFacts.ltb_asym _ _ E1). reflexivity.
    + destruct (score b <? score a)%float; cbn; intros H; discriminate H.
Qed.

(** [a] is not above [b] in the order of the queue. *)
Definition notAbove (a b : TermScore) : Prop := lessThan b a = false.

Lemma notAbove_trans (a b c : TermScore) :
  numeric a -> numeric b -> numeric c ->
  notAbove a b -> notAbove b c -> notAbove a c.
Proof.
  unfold notAbove. intros va vb vc.
  rewrite !lessThan_cmp by assumption.
  rewrite (TermScore_cmp_antisym a b), (TermScore_cmp_antisym b c),
    (TermScore_cmp_antisym a c) by assumption.
  pose proof (cmp_not_Gt_trans numeric TermScore_cmp TermScore_cmp_antisym
                TermScore_cmp_trans a b c va vb vc) as H.
  destruct (TermScore_cmp a b), (TermScore_cmp b c), (TermScore_cmp a c);
    simpl; try congruence; intros; exfalso; apply H; congruence.
Qed.

Lemma notAbove_score (a b : TermScore) : numeric a -> numeric b ->
  notAbove a b -> (score a <=? score b)%float = true.
Proof.
  unfold notAbove. intros va vb. rewrite lessThan_cmp by assumption.
  rewrite (DoubleFacts.leb_cmp _ _ va vb).
  rewrite (TermScore_cmp_antisym a b va vb). unfold TermScore_cmp, lex.
  destruct (Double.cmp (score a) (score b)); simpl; congruence.
Qed.

(** Among entries of equal score, the one that is not above has the term
    that is not smaller. *)
Lemma notAbove_tie (a b : TermScore) : numeric a -> numeric b ->
  notAbove a b -> (score a =? score b)%float = true ->
  Term_compareTo (term b) (term a) <= 0.
Proof.
  unfold notAbove. intros va vb. rewrite lessThan_cmp by assumption.
  rewrite (DoubleFacts.eqb_cmp _ _ va vb).
  rewrite (TermScore_cmp_antisym a b va vb). unfold TermScore_cmp, lex, flip_cmp.
  unfold Term_compareTo.
  destruct (Double.cmp (score a) (score b)); try discriminate.
  destruct (Term_cmp (term b) (term a)); simpl; try congruence; lia.
Qed.

(** ** Loops *)

Lemma forEach_app {A S : Type} (body : S -> A -> Result S) (l1 l2 : list A) (s : S) :
  forEach body (l1 ++ l2) s = (s' <- forEach body l1 s ;; forEach body l2 s').
Proof.
  revert s. induction l1 as [|a l1 IH]; intros s; simpl; [reflexivity|].
  destruct (body s a); simpl; auto.
Qed.

(** ** The queue keeps its entries in order *)

Lemma insert_Permutation (x : TermScore) (l : list TermScore) :
  Permutation (insert x l) (x :: l).
Proof.
  induction l as [|y l IH]; simpl; [reflexivity|].
  destruct (lessThan y x); [|reflexivity].
  rewrite IH. apply perm_swap.
Qed.

Lemma insert_In (x y : TermScore) (l : list TermScore) :
  In y (insert x l) <-> y = x \/ In y l.
Proof.
  split; intros H.
  - apply (Permutation_in _ (insert_Permutation x l)) in H.
    destruct H; auto.
  - apply (Permutation_in _ (Permutation_sym (insert_Permutation x l))).
    destruct H; [left|right]; auto.
Qed.

Lemma insert_length (x : TermScore) (l : list TermScore) :
  List.length (insert x l) = S (List.length l).
Proof. exact (Permutation_length (insert_Permutation x l)). Qed.

Definition ordered (l : list TermScore) : Prop := StronglySorted notAbove l.

Lemma insert_ordered (x : TermScore) (l : list TermScore) :
  numeric x -> Forall numeric l -> ordered l -> ordered (insert x l).
Proof.
  intros vx. induction l as [|y l IH]; intros vl Hl; simpl.
  - repeat constructor.
  - inversion vl as [|? ? vy vl']; subst.
    inversion Hl as [|? ? Hl' Hy]; subst.
    destruct (lessThan y x) eqn:E.
    + constructor; [apply IH; assumption|].
      apply Forall_forall. intros z Hz. apply insert_In in Hz.
      destruct Hz as [->|Hz].
      * exact (lessThan_asym _ _ E).
      * rewrite Forall_forall in Hy. auto.
    + constructor; [assumption|].
      constructor; [exact E|].
      rewrite Forall_forall in Hy, vl'. apply Forall_forall. intros z Hz.
      apply (notAbove_trans x y z); auto.
Qed.

Lemma ordered_tl (l : list TermScore) : ordered l -> ordered (tl l).
Proof.
  destruct l as [|y l]; simpl; [auto|]. intros H. inversion H; assumption.
Qed.

(** [top] is an entry of the queue, and no entry has a lower score. *)
Lemma top_In (q : TermScoreQueue) (st : TermScore) :
  top q = Some st -> In st (heap q).
Proof.
  unfold top. destruct (heap q); simpl; [discriminate|].
  intros [= ->]. left; reflexivity.
Qed.

Lemma top_least (q : TermScoreQueue) (st x : TermScore) :
  Forall numeric (heap q) -> ordered (heap q) ->
  top q = Some st -> In x (heap q) -> (score st <=? score x)%float = true.
Proof.
  unfold top. destruct (heap q) as [|y l]; simpl; [discriminate|].
  intros vl Hl [= ->] Hx.
  inversion vl as [|? ? vy vl']; subst.
  inversion Hl as [|? ? Hl' Hy]; subst.
  destruct Hx as [->|Hx].
  - rewrite DoubleFacts.leb_cmp by assumption.
    rewrite (cmp_refl Double.valid Double.cmp DoubleFacts.cmp_is_antisym) by assumption.
    reflexivity.
  - rewrite Forall_forall in Hy, vl'. apply notAbove_score; auto.
Qed.

(** [pop] returns the first of [drained] and leaves the rest. *)
Lemma pop_drained (q : TermScoreQueue) :
  match drained q with
  | [] => pop q = (None, q)
  | best :: others =>
      exists q', pop q = (Some best, q') /\ drained q' = others
                 /\ maxSize q' = maxSize q
  end.
Proof.
  unfold drained, pop. destruct (rev (heap q)) as [|best others]; [reflexivity|].
  eexists; split; [reflexivity|]. simpl. rewrite rev_involutive. auto.
Qed.

(** Popping until the queue is empty takes as many steps as the queue has
    entries and returns [drained]. *)
Lemma popAll_drained (fuel : nat) :
  forall q, (List.length (heap q) <= fuel)%nat -> popAll fuel q = drained q.
Proof.
  induction fuel as [|fuel IH]; intros q Hf.
  - unfold drained. destruct (heap q); simpl in *; [reflexivity|lia].
  - simpl. pose proof (pop_drained q) as Hp.
    destruct (drained q) as [|best others] eqn:Ed.
    + rewrite Hp. reflexivity.
    + destruct Hp as (q' & -> & Hd & _). rewrite IH; [rewrite Hd; reflexivity|].
      assert (Hl : List.length (drained q') = List.length others) by (rewrite Hd; reflexivity).
      assert (Hl' : List.length (drained q) = S (List.length others)) by (rewrite Ed; reflexivity).
      unfold drained in Hl, Hl'. rewrite length_rev in Hl, Hl'. lia.
Qed.

Lemma StronglySorted_snoc {A : Type} (R : A -> A -> Prop) (l : list A) (x : A) :
  StronglySorted R l -> Forall (fun y => R y x) l -> StronglySorted R (l ++ [x]).
Proof.
  induction l as [|y l IH]; simpl; intros Hl Hx.
  - repeat constructor.
  - inversion Hl as [|? ? Hl' Hy]; subst. inversion Hx as [|? ? Hyx Hx']; subst.
    constructor; [auto|].
    apply Forall_app; split; [assumption|]. repeat constructor. assumption.
Qed.

Lemma StronglySorted_rev {A : Type} (R : A -> A -> Prop) (l : list A) :
  StronglySorted R l -> StronglySorted (fun a b => R b a) (rev l).
Proof.
  induction l as [|y l IH]; simpl; intros Hl; [constructor|].
  inversion Hl as [|? ? Hl' Hy]; subst.
  apply StronglySorted_snoc; [auto|].
  apply Forall_rev. assumption.
Qed.

(** ** [createQueue] as a loop over the scored candidates *)

Definition candidates_field (mlt : MoreLikeThis) (numDocs : Z) (it : string * HashMap Z)
  : list TermScore :=
  flat_map (fun wt => match scoreTerm mlt numDocs (fst it) (fst wt) (snd wt) with
                      | Some cand => [cand]
                      | None => []
                      end) (snd it).

(** The scored terms that reach the queue, in the order of the iteration. *)
Definition candidates (mlt : MoreLikeThis) (table : FrequencyTable) : list TermScore :=
  flat_map (candidates_field mlt (numDocs (reader mlt))) table.

Definition limitOf (mlt : MoreLikeThis) (table : FrequencyTable) : Z :=
  Z.min (maxQueryTerms mlt) (getTermsCount table).

Lemma createQueue_field_candidates (mlt : MoreLikeThis) (n limit : Z)
  (it : string * HashMap Z) (q : TermScoreQueue) :
  createQueue_field mlt n limit q it
  = forEach (offer limit) (candidates_field mlt n it) q.
Proof.
  unfold createQueue_field, candidates_field. destruct it as [fieldName m]; simpl.
  revert q. induction m as [|[word tf] m IH]; intros q; simpl; [reflexivity|].
  unfold createQueue_word at 1; simpl.
  destruct (scoreTerm mlt n fieldName word tf) as [cand|]; simpl.
  - destruct (offer limit q cand); simpl; auto.
  - apply IH.
Qed.

Lemma createQueue_candidates (mlt : MoreLikeThis) (table : FrequencyTable) :
  createQueue mlt table
  = forEach (offer (limitOf mlt table)) (candidates mlt table)
      (newTermScoreQueue (limitOf mlt table)).
Proof.
  unfold createQueue, candidates, limitOf.
  generalize (newTermScoreQueue (Z.min (maxQueryTerms mlt) (getTermsCount table))).
  generalize (Z.min (maxQueryTerms mlt) (getTermsCount table)) as limit.
  intros limit. induction table as [|it table IH]; intros q; simpl; [reflexivity|].
  rewrite forEach_app, createQueue_field_candidates.
  destruct (forEach (offer limit) (candidates_field mlt (numDocs (reader mlt)) it) q);
    simpl; auto.
Qed.

(** The (field, term) pairs of a table, in the order of the iteration. *)
Definition termPairs (table : FrequencyTable) : list (string * string) :=
  flat_map (fun it => map (fun wt => (fst it, fst wt)) (snd it)) table.

Lemma getTermsCount_termPairs (table : FrequencyTable) :
  getTermsCount table = Z.of_nat (List.length (termPairs table)).
Proof.
  unfold getTermsCount.
  assert (H : forall acc,
             fold_left (fun total it => total + HashMap_size (snd it)) table acc
             = acc + Z.of_nat (List.length (termPairs table))).
  { unfold termPairs.
    induction table as [|it table IH]; intros acc; simpl; [lia|].
    rewrite IH, length_app, length_map. unfold HashMap_size.
    rewrite Nat2Z.inj_add, Z.add_assoc. reflexivity. }
  rewrite H. reflexivity.
Qed.

Lemma candidates_length (mlt : MoreLikeThis) (table : FrequencyTable) :
  (List.length (candidates mlt table) <= List.length (termPairs table))%nat.
Proof.
  unfold candidates, termPairs.
  induction table as [|[fieldName m] table IH]; simpl; [lia|].
  rewrite !length_app, length_map.
  assert (H : (List.length (candidates_field mlt (numDocs (reader mlt)) (fieldName, m))
               <= List.length m)%nat).
  { unfold candidates_field; simpl. induction m as [|[word tf] m IHm]; simpl; [lia|].
    rewrite length_app.
    destruct (scoreTerm mlt (numDocs (reader mlt)) fieldName word tf); simpl; lia. }
  lia.
Qed.

(** ** The size of the queue *)

Lemma offer_size (limit : Z) (q q' : TermScoreQueue) (cand : TermScore) :
  offer limit q cand = Ok q' ->
  size q <= Z.max 0 limit -> size q' <= Z.max 0 limit.
Proof.
  unfold offer. destruct (size q <? limit) eqn:E.
  - intros [= <-] _. apply Z.ltb_lt in E.
    unfold size, add in *; simpl. rewrite insert_length. lia.
  - destruct (top q) as [st|] eqn:Et; [|discriminate].
    destruct (score st <? score cand)%float; intros [= <-]; [|auto].
    unfold size, updateTop, top in *; simpl.
    destruct (heap q) as [|y l]; [discriminate|].
    simpl in *. rewrite insert_length. auto.
Qed.

Lemma forEach_offer_size (limit : Z) (cs : list TermScore) (q q' : TermScoreQueue) :
  forEach (offer limit) cs q = Ok q' ->
  size q <= Z.max 0 limit -> size q' <= Z.max 0 limit.
Proof.
  revert q. induction cs as [|c cs IH]; simpl; intros q.
  - intros [= <-]; auto.
  - destruct (offer limit q c) as [q1|] eqn:E; simpl; [|discriminate].
    intros H Hq. apply (IH q1 H). exact (offer_size _ _ _ _ E Hq).
Qed.

(** ** The queue keeps the highest scores *)

Definition keepsHighest (limit : Z) (q : TermScoreQueue) (seen dropped : list TermScore)
  : Prop :=
  Permutation seen (heap q ++ dropped)
  /\ ordered (heap q)
  /\ (forall x y, In x (heap q) -> In y dropped ->
        (score y <=? score x)%float = true)
  /\ (size q < limit -> dropped = []).

Lemma keepsHighest_numeric (limit : Z) (q : TermScoreQueue)
  (seen dropped : list TermScore) :
  keepsHighest limit q seen dropped -> Forall numeric seen ->
  Forall numeric (heap q) /\ Forall numeric dropped.
Proof.
  intros (Hp & _) Hs. rewrite Forall_forall in Hs.
  split; apply Forall_forall; intros x Hx; apply Hs;
    apply (Permutation_in _ (Permutation_sym Hp)); apply in_or_app; auto.
Qed.

Lemma offer_keepsHighest (limit : Z) (q q' : TermScoreQueue) (cand : TermScore)
  (seen dropped : list TermScore) :
  numeric cand -> Forall numeric seen ->
  keepsHighest limit q seen dropped ->
  offer limit q cand = Ok q' ->
  exists dropped', keepsHighest limit q' (seen ++ [cand]) dropped'.
Proof.
  intros vc vs Hk.
  destruct (keepsHighest_numeric _ _ _ _ Hk vs) as [vh vd].
  destruct Hk as (Hp & Ho & Hd & He).
  assert (Hp' : Permutation (seen ++ [cand]) (cand :: heap q ++ dropped)).
  { rewrite <- Hp. symmetry. apply Permutation_cons_append. }
  unfold offer. destruct (size q <? limit) eqn:E.
  - intros [= <-]. apply Z.ltb_lt in E. exists dropped.
    rewrite (He E) in *. unfold keepsHighest; simpl.
    repeat split.
    + rewrite Hp'. rewrite !app_nil_r. symmetry. apply insert_Permutation.
    + apply insert_ordered; assumption.
    + intros x y _ [].
  - destruct (top q) as [st|] eqn:Et; [|discriminate].
    apply Z.ltb_ge in E.
    assert (Hin : In st (heap q)) by exact (top_In _ _ Et).
    assert (vst : numeric st) by (rewrite Forall_forall in vh; auto).
    assert (Hleast : forall x, In x (heap q) -> (score st <=? score x)%float = true).
    { intros x. exact (top_least q st x vh Ho Et). }
    assert (Hst : heap q = st :: tl (heap q)).
    { unfold top in Et. destruct (heap q); simpl in *; congruence. }
    assert (Hotl : ordered (tl (heap q))) by (apply ordered_tl; assumption).
    unfold updateTop, size in *.
    remember (tl (heap q)) as l eqn:Hl. clear Hl.
    destruct (score st <? score cand)%float eqn:Es; intros [= <-].
    + exists (st :: dropped). unfold keepsHighest; simpl. rewrite Hst in *.
      inversion vh as [|? ? _ vl]; subst. repeat split.
      * rewrite Hp'. simpl. rewrite (insert_Permutation cand l). simpl.
        apply perm_skip. apply Permutation_middle.
      * apply insert_ordered; assumption.
      * intros x y Hx Hy. apply insert_In in Hx.
        assert (Hx' : x = cand \/ In x (st :: l)).
        { destruct Hx as [->|Hx]; [left; reflexivity|right; right; exact Hx]. }
        assert (Hsc : (score st <=? score x)%float = true).
        { destruct Hx' as [->|Hx']; [apply DoubleFacts.ltb_leb; assumption|auto]. }
        destruct Hy as [<-|Hy]; [exact Hsc|].
        assert (vy : numeric y) by (rewrite Forall_forall in vd; auto).
        assert (vx : numeric x).
        { destruct Hx' as [->|Hx']; [assumption|].
          rewrite Forall_forall in vh; auto. }
        apply (DoubleFacts.leb_trans (score y) (score st) (score x)); auto.
      * unfold size; simpl. rewrite insert_length. simpl in E.
        intros Hlt. exfalso. lia.
    + exists (cand :: dropped). unfold keepsHighest. repeat split.
      * rewrite Hp'. apply Permutation_middle.
      * assumption.
      * intros x y Hx [<-|Hy]; [|auto].
        assert (vx : numeric x) by (rewrite Forall_forall in vh; auto).
        apply (DoubleFacts.leb_trans (score cand) (score st) (score x)); auto.
        apply DoubleFacts.not_ltb_leb; assumption.
      * intros Hlt. unfold size in Hlt. lia.
Qed.

Lemma forEach_offer_keepsHighest (limit : Z) (cs : list TermScore) :
  forall (q q' : TermScoreQueue) (seen dropped : list TermScore),
  Forall numeric cs -> Forall numeric seen ->
  keepsHighest limit q seen dropped ->
  forEach (offer limit) cs q = Ok q' ->
  exists dropped', keepsHighest limit q' (seen ++ cs) dropped'.
Proof.
  induction cs as [|c cs IH]; simpl; intros q q' seen dropped vcs vs Hk.
  - intros [= <-]. exists dropped. rewrite app_nil_r. assumption.
  - inversion vcs as [|? ? vc vcs']; subst.
    destruct (offer limit q c) as [q1|] eqn:E; simpl; [|discriminate].
    intros H.
    destruct (offer_keepsHighest _ _ _ _ _ _ vc vs Hk E) as [d1 Hk1].
    assert (vs1 : Forall numeric (seen ++ [c])).
    { apply Forall_app; split; [assumption|]. repeat constructor. assumption. }
    destruct (IH q1 q' (seen ++ [c]) d1 vcs' vs1 Hk1 H) as [d2 Hk2].
    exists d2. rewrite <- app_assoc in Hk2. exact Hk2.
Qed.

Lemma createQueue_keepsHighest (mlt : MoreLikeThis) (table : FrequencyTable)
  (q : TermScoreQueue) :
  Forall numeric (candidates mlt table) ->
  createQueue mlt table = Ok q ->
  exists dropped, keepsHighest (limitOf mlt table) q (candidates mlt table) dropped.
Proof.
  intros vcs. rewrite createQueue_candidates. intros H.
  apply (forEach_offer_keepsHighest _ _ _ _ [] [] vcs (Forall_nil _)) in H; [exact H|].
  unfold keepsHighest; simpl. repeat split; auto; try constructor.
Qed.

(** ** The clauses [createQuery] builds *)

Definition clauseFor (mlt : MoreLikeThis) (scoreTerm : TermScore) (bestScore : float)
  : BooleanClause :=
  {| clauseQuery :=
       if hasBoost mlt
       then Query_setBoost (newTermQuery (term scoreTerm))
              (boostFactor mlt * score scoreTerm / bestScore)%float
       else newTermQuery (term scoreTerm);
     occur := SHOULD |}.

Definition nextBest (mlt : MoreLikeThis) (scoreTerm : TermScore) (bestScore : float)
  : float :=
  if hasBoost mlt
  then if (bestScore =? -1)%float then score scoreTerm else bestScore
  else bestScore.

(** The clauses the loop hands to [add], one for each entry. *)
Fixpoint builtClauses (mlt : MoreLikeThis) (entries : list TermScore) (bestScore : float)
  : list BooleanClause :=
  match entries with
  | [] => []
  | scoreTerm :: entries' =>
      let bestScore := nextBest mlt scoreTerm bestScore in
      clauseFor mlt scoreTerm bestScore :: builtClauses mlt entries' bestScore
  end.

Definition room (maxClauseCount : Z) (query : BooleanQuery) : nat :=
  Z.to_nat (maxClauseCount - Z.of_nat (List.length (clauses query))).

Lemma createQuery_loop_step (add : AddClause) (mlt : MoreLikeThis)
  (st : TermScore) (entries : list TermScore) (query : BooleanQuery)
  (bestScore : float) :
  createQuery_loop add mlt (st :: entries) query bestScore
  = let bestScore := nextBest mlt st bestScore in
    match add query (clauseQuery (clauseFor mlt st bestScore)) SHOULD with
    | Ok query' => createQuery_loop add mlt entries query' bestScore
    | Throw TooManyClausesException =>
        createQuery_loop add mlt entries query bestScore
    | Throw e => Throw e
    end.
Proof.
  simpl. unfold nextBest, clauseFor. destruct (hasBoost mlt); reflexivity.
Qed.

Lemma createQuery_loop_clauses (maxClauseCount : Z) (mlt : MoreLikeThis)
  (entries : list TermScore) :
  forall (query : BooleanQuery) (bestScore : float),
  createQuery_loop (BooleanQuery_add maxClauseCount) mlt entries query bestScore
  = Ok {| clauses := clauses query
                     ++ firstn (room maxClauseCount query)
                          (builtClauses mlt entries bestScore) |}.
Proof.
  induction entries as [|st entries IH]; intros query bestScore.
  - simpl. rewrite firstn_nil, app_nil_r. destruct query; reflexivity.
  - rewrite createQuery_loop_step. cbv zeta. unfold BooleanQuery_add.
    simpl builtClauses.
    set (best' := nextBest mlt st bestScore).
    destruct (maxClauseCount <=? Z.of_nat (List.length (clauses query))) eqn:E.
    + rewrite IH. apply Z.leb_le in E. unfold room.
      replace (Z.to_nat (maxClauseCount - Z.of_nat (List.length (clauses query))))
        with 0%nat by lia.
      reflexivity.
    + rewrite IH. apply Z.leb_gt in E. unfold room; simpl clauses.
      rewrite length_app; simpl List.length.
      replace (Z.to_nat (maxClauseCount - Z.of_nat (List.length (clauses query))))
        with (S (Z.to_nat (maxClauseCount
                           - Z.of_nat (List.length (clauses query) + 1))))
        by lia.
      simpl firstn. rewrite <- app_assoc. reflexivity.
Qed.

Lemma createQuery_clauses (maxClauseCount : Z) (mlt : MoreLikeThis) (q : TermScoreQueue) :
  createQuery maxClauseCount mlt q
  = Ok {| clauses := firstn (Z.to_nat maxClauseCount)
                       (builtClauses mlt (drained q) (-1)%float) |}.
Proof.
  unfold createQuery. rewrite createQuery_loop_clauses. unfold room; simpl.
  rewrite Z.sub_0_r. reflexivity.
Qed.

Lemma builtClauses_terms (mlt : MoreLikeThis) (entries : list TermScore) :
  forall bestScore,
  map (fun c => queryTerm (clauseQuery c)) (builtClauses mlt entries bestScore)
  = map term entries.
Proof.
  induction entries as [|st entries IH]; intros bestScore; simpl; [reflexivity|].
  rewrite IH. unfold clauseFor; simpl. destruct (hasBoost mlt); reflexivity.
Qed.

Lemma retrieveInterestingTerms_loop_firstn (entries : list TermScore) :
  forall (lim : Z) (res : list string),
  retrieveInterestingTerms_loop entries lim res
  = res ++ map (fun st => _text (term st)) (firstn (Z.to_nat lim) entries).
Proof.
  induction entries as [|st entries IH]; intros lim res; simpl.
  - rewrite firstn_nil, app_nil_r. reflexivity.
  - destruct (0 <? lim) eqn:E.
    + apply Z.ltb_lt in E. rewrite IH.
      replace (Z.to_nat lim) with (S (Z.to_nat (lim - 1))) by lia.
      simpl. rewrite <- app_assoc. reflexivity.
    + apply Z.ltb_ge in E. replace (Z.to_nat lim) with 0%nat by lia.
      simpl. rewrite app_nil_r. reflexivity.
Qed.

(** ** Draining *)

(** From an earlier to a later entry of a drain the score does not
    increase, and between entries of equal score the term does not
    decrease. *)
Definition drainOrder (a b : TermScore) : Prop :=
  (score b <=? score a)%float = true
  /\ ((score a =? score b)%float = true ->
      Term_compareTo (term a) (term b) <= 0).

Lemma StronglySorted_weaken {A : Type} (P : A -> Prop) (R R' : A -> A -> Prop)
  (l : list A) :
  (forall a b, P a -> P b -> R a b -> R' a b) ->
  Forall P l -> StronglySorted R l -> StronglySorted R' l.
Proof.
  intros HR. induction l as [|x l IH]; intros HP Hl; [constructor|].
  inversion HP as [|? ? Px Pl]; subst. inversion Hl as [|? ? Hl' Hx]; subst.
  constructor; [auto|].
  rewrite Forall_forall in *. intros y Hy. auto.
Qed.

Lemma drained_ordered (q : TermScoreQueue) :
  Forall numeric (heap q) -> ordered (heap q) ->
  StronglySorted drainOrder (drained q).
Proof.
  intros vh Ho. unfold drained.
  apply (StronglySorted_weaken numeric (fun a b => notAbove b a)).
  - intros a b va vb Hab. split.
    + apply notAbove_score; assumption.
    + intros He. apply (notAbove_tie b a); auto.
      rewrite DoubleFacts.eqb_sym. exact He.
  - apply Forall_rev. assumption.
  - apply StronglySorted_rev. exact Ho.
Qed.

Lemma drained_first_highest (q : TermScoreQueue) (best : TermScore)
  (others : list TermScore) :
  Forall numeric (heap q) -> ordered (heap q) ->
  drained q = best :: others ->
  forall e, In e (heap q) -> (score e <=? score best)%float = true.
Proof.
  intros vh Ho Hd e He.
  pose proof (drained_ordered q vh Ho) as Hs. rewrite Hd in Hs.
  inversion Hs as [|? ? _ Hb]; subst.
  apply in_rev in He. fold (drained q) in He. rewrite Hd in He.
  destruct He as [<-|He].
  - apply DoubleFacts.leb_refl. rewrite Forall_forall in vh. apply vh.
    apply in_rev. fold (drained q). rewrite Hd. left; reflexivity.
  - rewrite Forall_forall in Hb. apply (Hb e He).
Qed.

(** C1.  A queue [createQueue] produced is drained highest score first:
    along the entries in the order [pop] returns them the score never
    increases, entries of equal score come in the order of their terms
    (field, then text), the first entry popped has the highest score of
    the queue, and both consumers, [createQuery] and
    [retrieveInterestingTerms], take the entries in exactly this order. *)
Theorem drained_highest_score_first (mlt : MoreLikeThis) (table : FrequencyTable)
  (q : TermScoreQueue) :
  Forall numeric (candidates mlt table) ->
  createQueue mlt table = Ok q ->
  StronglySorted drainOrder (drained q)
  /\ popAll (List.length (heap q)) q = drained q
  /\ (forall best others, drained q = best :: others ->
        (exists q', pop q = (Some best, q') /\ drained q' = others)
        /\ forall e, In e (heap q) -> (score e <=? score best)%float = true)
  /\ (forall maxClauseCount, exists query,
        createQuery maxClauseCount mlt q = Ok query
        /\ map (fun c => queryTerm (clauseQuery c)) (clauses query)
           = firstn (Z.to_nat maxClauseCount) (map term (drained q)))
  /\ retrieveInterestingTerms mlt q
     = map (fun st => _text (term st))
         (firstn (Z.to_nat (maxQueryTerms mlt)) (drained q)).
Proof.
  intros vcs Hq.
  destruct (createQueue_keepsHighest mlt table q vcs Hq) as [dropped Hk].
  destruct (keepsHighest_numeric _ _ _ _ Hk vcs) as [vh _].
  destruct Hk as (_ & Ho & _).
  split; [exact (drained_ordered q vh Ho)|].
  split; [apply popAll_drained; lia|].
  split; [|split].
  - intros best others Hd. split.
    + pose proof (pop_drained q) as Hp. rewrite Hd in Hp.
      destruct Hp as (q' & Hp & Hd' & _). exists q'. auto.
    + exact (drained_first_highest q best others vh Ho Hd).
  - intros maxClauseCount. eexists. split; [apply createQuery_clauses|].
    simpl. rewrite <- firstn_map, builtClauses_terms. reflexivity.
  - unfold retrieveInterestingTerms.
    rewrite retrieveInterestingTerms_loop_firstn. reflexivity.
Qed.

Lemma drained_highest_score_first_witness :
  Forall numeric (candidates (setMaxQueryTerms exMoreLikeThis 2) exTable)
  /\ createQueue (setMaxQueryTerms exMoreLikeThis 2) exTable = Ok exQueue
  /\ StronglySorted drainOrder (drained exQueue).
Proof.
  assert (H1 : Forall numeric (candidates (setMaxQueryTerms exMoreLikeThis 2) exTable))
    by (repeat constructor).
  assert (H2 : createQueue (setMaxQueryTerms exMoreLikeThis 2) exTable = Ok exQueue)
    by evaluate.
  split; [exact H1|]. split; [exact H2|].
  exact (proj1 (drained_highest_score_first _ _ _ H1 H2)).
Defined.

(** ** Boosting *)

Definition boostedClause (mlt : MoreLikeThis) (bestScore : float) (st : TermScore)
  : BooleanClause :=
  {| clauseQuery := {| queryTerm := term st;
                       boost := (boostFactor mlt * score st / bestScore)%float |};
     occur := SHOULD |}.

Lemma builtClauses_boosted (mlt : MoreLikeThis) (entries : list TermScore)
  (bestScore : float) :
  hasBoost mlt = true -> (bestScore =? -1)%float = false ->
  builtClauses mlt entries bestScore = map (boostedClause mlt bestScore) entries.
Proof.
  intros Hb Hs. induction entries as [|st entries IH]; simpl; [reflexivity|].
  unfold nextBest. rewrite Hb, Hs, IH.
  unfold clauseFor, boostedClause. rewrite Hb. reflexivity.
Qed.

Lemma createQuery_boosted (maxClauseCount : Z) (mlt : MoreLikeThis)
  (q : TermScoreQueue) (best : TermScore) (others : list TermScore) :
  hasBoost mlt = true -> drained q = best :: others ->
  (score best =? -1)%float = false ->
  createQuery maxClauseCount mlt q
  = Ok {| clauses := firstn (Z.to_nat maxClauseCount)
                       (map (boostedClause mlt (score best)) (drained q)) |}.
Proof.
  intros Hb Hd Hs. rewrite createQuery_clauses, Hd. simpl builtClauses.
  assert (Hn : nextBest mlt best (-1)%float = score best).
  { unfold nextBest. rewrite Hb. reflexivity. }
  rewrite Hn. rewrite (builtClauses_boosted mlt others (score best) Hb Hs).
  unfold clauseFor. rewrite Hb. reflexivity.
Qed.

(** C2, as it fails.  With the boost factor 0.1 and a single term of score
    6 the only clause, the one of the highest-scored term, gets the weight
    0.1 * 6 / 6 in double arithmetic, which is 0.10000000000000002: not the
    boost factor, and above it.  Nothing keeps the boost factor positive:
    with the boost factor -1 the weight of that clause is -1.  And the
    product is taken before the quotient: with the boost factor 2^1023 it
    overflows and the weight is infinite. *)
Lemma best_clause_weight_is_not_boostFactor :
  exists q c c' c'',
    hasBoost exBoosted = true
    /\ createQueue exBoosted exSingleTable = Ok q
    /\ createQuery 1024 exBoosted q = Ok {| clauses := [c] |}
    /\ queryTerm (clauseQuery c) = newTerm "body" "a"
    /\ (boost (clauseQuery c) =? boostFactor exBoosted)%float = false
    /\ (boost (clauseQuery c) <=? boostFactor exBoosted)%float = false
    /\ hasBoost exNegativeBoost = true
    /\ createQueue exNegativeBoost exSingleTable = Ok q
    /\ createQuery 1024 exNegativeBoost q = Ok {| clauses := [c'] |}
    /\ (0 <? boost (clauseQuery c'))%float = false
    /\ hasBoost exHugeBoost = true
    /\ createQueue exHugeBoost exSingleTable = Ok q
    /\ createQuery 1024 exHugeBoost q = Ok {| clauses := [c''] |}
    /\ boost (clauseQuery c'') = infinity
    /\ (boost (clauseQuery c'') <=? boostFactor exHugeBoost)%float = false.
Proof.
  eexists. eexists. eexists. eexists. split; [reflexivity|].
  split; [evaluate|]. split; [evaluate|].
  split; [reflexivity|]. split; [evaluate|]. split; [evaluate|].
  split; [reflexivity|]. split; [evaluate|]. split; [evaluate|].
  split; [evaluate|].
  split; [reflexivity|]. split; [evaluate|]. split; [evaluate|].
  split; evaluate.
Qed.

(** C2, amended.  With boosting on, when the first term drained does not
    have the score -1, the clause of every drained term, as far as the
    clause limit lets the clauses in, has the weight
    [boostFactor * score / bestScore], computed in double arithmetic from
    left to right, where [bestScore] is the score of the first term
    drained; in a queue that [createQueue] built of scores that are
    numbers, drained highest first, no entry scores more than that. *)
Theorem clause_weights_relative_to_best (maxClauseCount : Z) (mlt : MoreLikeThis)
  (table : FrequencyTable) (q : TermScoreQueue) (best : TermScore)
  (others : list TermScore) :
  hasBoost mlt = true ->
  Forall numeric (candidates mlt table) ->
  createQueue mlt table = Ok q ->
  drained q = best :: others ->
  (score best =? -1)%float = false ->
  (forall e, In e (heap q) -> (score e <=? score best)%float = true)
  /\ createQuery maxClauseCount mlt q
     = Ok {| clauses := firstn (Z.to_nat maxClauseCount)
                          (map (boostedClause mlt (score best)) (drained q)) |}.
Proof.
  intros Hb vcs Hq Hd Hs. split.
  - destruct (createQueue_keepsHighest mlt table q vcs Hq) as [dropped Hk].
    destruct (keepsHighest_numeric _ _ _ _ Hk vcs) as [vh _].
    destruct Hk as (_ & Ho & _).
    exact (drained_first_highest q best others vh Ho Hd).
  - exact (createQuery_boosted maxClauseCount mlt q best others Hb Hd Hs).
Qed.

Lemma clause_weights_relative_to_best_witness :
  hasBoost (setMaxQueryTerms exBoosted 2) = true
  /\ Forall numeric (candidates (setMaxQueryTerms exBoosted 2) exTable)
  /\ createQueue (setMaxQueryTerms exBoosted 2) exTable = Ok exQueue
  /\ createQuery 1024 (setMaxQueryTerms exBoosted 2) exQueue
     = Ok {| clauses :=
               [ {| clauseQuery := {| queryTerm := newTerm "body" "c";
                                      boost := (tenth * 14 / 14)%float |};
                    occur := SHOULD |};
                 {| clauseQuery := {| queryTerm := newTerm "body" "a";
                                      boost := (tenth * 10 / 14)%float |};
                    occur := SHOULD |} ] |}.
Proof.
  assert (H1 : Forall numeric (candidates (setMaxQueryTerms exBoosted 2) exTable))
    by (repeat constructor).
  assert (H2 : createQueue (setMaxQueryTerms exBoosted 2) exTable = Ok exQueue)
    by evaluate.
  split; [reflexivity|]. split; [exact H1|]. split; [exact H2|].
  exact (proj2 (clause_weights_relative_to_best 1024 (setMaxQueryTerms exBoosted 2)
                  exTable exQueue
                  {| term := newTerm "body" "c"; score := 14%float |}
                  [ {| term := newTerm "body" "a"; score := 10%float |} ]
                  eq_refl H1 H2 eq_refl eq_refl)).
Defined.

(** ** What the queue retains *)

(** Every candidate seen and not retained is below every retained entry in
    the order of the queue: the score, then the term. *)
Definition holdsBest (retained seen : list TermScore) : Prop :=
  forall x y, In x retained -> In y seen -> ~ In y retained -> lessThan y x = true.

(** C3, as it fails.  With room for one term and two candidates of the same
    score, "b" met before "a", the queue retains "b": the later candidate
    "a" is above "b" in the order of the queue, but the comparison with the
    top entry looks at the scores alone.  Met in the other order, the same
    two candidates leave "a" in the queue: here the order of the iteration
    decides between equal scores.  With room for two terms and a third
    candidate of a higher score, the two candidates of score 6 are both
    taken and the third replaces "b", the top entry, in whichever order
    the two were met: here the order of the terms decides. *)
Lemma tie_is_not_broken_by_term :
  let b := {| term := newTerm "body" "b"; score := 6%float |} in
  let a := {| term := newTerm "body" "a"; score := 6%float |} in
  let c := {| term := newTerm "body" "c"; score := 14%float |} in
  let q := {| maxSize := 1; heap := [b] |} in
  candidates (setMaxQueryTerms exMoreLikeThis 1) exTieTable = [b; a]
  /\ createQueue (setMaxQueryTerms exMoreLikeThis 1) exTieTable = Ok q
  /\ lessThan b a = true
  /\ offer 1 q a = Ok q
  /\ ~ holdsBest (heap q) [b; a]
  /\ createQueue (setMaxQueryTerms exMoreLikeThis 1) exTieTable'
     = Ok {| maxSize := 1; heap := [a] |}
  /\ forEach (offer 2) [b; a; c] (newTermScoreQueue 2)
     = Ok {| maxSize := 2; heap := [a; c] |}
  /\ forEach (offer 2) [a; b; c] (newTermScoreQueue 2)
     = Ok {| maxSize := 2; heap := [a; c] |}
  /\ forEach (offer 2) [c; b; a] (newTermScoreQueue 2)
     = Ok {| maxSize := 2; heap := [b; c] |}.
Proof.
  intros b a c q.
  split; [evaluate|]. split; [evaluate|].
  split; [evaluate|]. split; [evaluate|].
  split; [|split; [evaluate|split; [evaluate|split; evaluate]]].
  intros H.
  assert (Hn : ~ In a (heap q)).
  { simpl. intros [E|[]]. discriminate E. }
  specialize (H b a (or_introl eq_refl) (or_intror (or_introl eq_refl)) Hn).
  vm_compute in H. discriminate H.
Qed.

Lemma lessThan_irrefl (a : TermScore) : numeric a -> lessThan a a = false.
Proof.
  intros va. rewrite lessThan_cmp by assumption.
  rewrite (cmp_refl numeric TermScore_cmp TermScore_cmp_antisym) by assumption.
  reflexivity.
Qed.

(** The top entry is the least in the order of the queue: no entry has a
    lower score, and no entry of its score has a greater term. *)
Lemma top_least_in_order (q : TermScoreQueue) (st x : TermScore) :
  Forall numeric (heap q) -> ordered (heap q) ->
  top q = Some st -> In x (heap q) ->
  (score st <=? score x)%float = true
  /\ ((score x =? score st)%float = true -> Term_cmp (term x) (term st) <> Gt).
Proof.
  intros vh Ho Et Hx.
  assert (Hn : notAbove st x /\ numeric st /\ numeric x).
  { unfold top in Et. destruct (heap q) as [|y l]; simpl in Et; [discriminate|].
    injection Et as ->.
    inversion vh as [|? ? vy vl]; subst. inversion Ho as [|? ? _ Hy]; subst.
    rewrite Forall_forall in Hy, vl.
    destruct Hx as [<-|Hx].
    - split; [exact (lessThan_irrefl st vy)|auto].
    - split; [exact (Hy x Hx)|auto]. }
  destruct Hn as (Hn & vs & vx). split.
  - exact (notAbove_score st x vs vx Hn).
  - intros He. rewrite DoubleFacts.eqb_sym in He.
    pose proof (notAbove_tie st x vs vx Hn He) as Ht.
    unfold Term_compareTo in Ht. intros Hgt. rewrite Hgt in Ht.
    vm_compute in Ht. apply Ht. reflexivity.
Qed.

(** C3, amended.  The queue retains candidates of the highest scores:
    every candidate is either retained or dropped, no dropped candidate
    has a higher score than a retained entry, and nothing is dropped while
    there is room.  The comparison with the top entry of a full queue looks
    at the scores alone, and strictly: a candidate that does not score
    more than the top entry, one of the same score in particular, is
    discarded whatever its term, and a candidate that scores more takes
    the place of the top entry.  The order of the terms enters in the
    choice of the top entry only: no entry has a lower score, and no entry
    of the same score has a greater term. *)
Theorem createQueue_keeps_highest_scores (mlt : MoreLikeThis) (table : FrequencyTable)
  (q : TermScoreQueue) :
  Forall numeric (candidates mlt table) ->
  createQueue mlt table = Ok q ->
  (exists dropped,
      Permutation (candidates mlt table) (heap q ++ dropped)
      /\ (forall x y, In x (heap q) -> In y dropped ->
            (score y <=? score x)%float = true)
      /\ (size q < limitOf mlt table -> dropped = []))
  /\ (forall limit queue st cand,
        (size queue <? limit) = false -> top queue = Some st ->
        (score st =? score cand)%float = true ->
        offer limit queue cand = Ok queue)
  /\ (forall limit queue st cand,
        (size queue <? limit) = false -> top queue = Some st ->
        (score st <? score cand)%float = false ->
        offer limit queue cand = Ok queue)
  /\ (forall limit queue st cand,
        (size queue <? limit) = false -> top queue = Some st ->
        (score st <? score cand)%float = true ->
        offer limit queue cand
        = Ok {| maxSize := maxSize queue; heap := insert cand (tl (heap queue)) |}
        /\ Permutation (cand :: heap queue)
             (insert cand (tl (heap queue)) ++ [st]))
  /\ (forall pre cand post queue st x,
        candidates mlt table = pre ++ cand :: post ->
        forEach (offer (limitOf mlt table)) pre
          (newTermScoreQueue (limitOf mlt table)) = Ok queue ->
        top queue = Some st -> In x (heap queue) ->
        (score st <=? score x)%float = true
        /\ ((score x =? score st)%float = true ->
            Term_cmp (term x) (term st) <> Gt)).
Proof.
  intros vcs Hq. split; [|split; [|split; [|split]]].
  - destruct (createQueue_keepsHighest mlt table q vcs Hq) as [dropped Hk].
    exists dropped. destruct Hk as (Hp & _ & Hd & He). auto.
  - intros limit queue st cand Hs Ht He. unfold offer.
    rewrite Hs, Ht, (DoubleFacts.eqb_not_ltb _ _ He). reflexivity.
  - intros limit queue st cand Hs Ht Hl. unfold offer.
    rewrite Hs, Ht, Hl. reflexivity.
  - intros limit queue st cand Hs Ht Hl. unfold offer.
    rewrite Hs, Ht, Hl. split; [reflexivity|].
    unfold top in Ht. destruct (heap queue) as [|y l]; simpl in Ht; [discriminate|].
    injection Ht as ->. simpl.
    rewrite (insert_Permutation cand l). simpl. apply perm_skip.
    apply Permutation_cons_append.
  - intros pre cand post queue st x Hc Hpre Ht Hx.
    assert (vpre : Forall numeric pre).
    { rewrite Hc in vcs. apply Forall_app in vcs. exact (proj1 vcs). }
    assert (Hk0 : keepsHighest (limitOf mlt table)
                    (newTermScoreQueue (limitOf mlt table)) [] []).
    { unfold keepsHighest; simpl. repeat split; auto; try constructor. }
    destruct (forEach_offer_keepsHighest _ pre _ queue [] [] vpre (Forall_nil _)
                Hk0 Hpre) as [d Hk].
    simpl in Hk. destruct (keepsHighest_numeric _ _ _ _ Hk vpre) as [vh _].
    destruct Hk as (_ & Ho & _).
    exact (top_least_in_order queue st x vh Ho Ht Hx).
Qed.

Lemma createQueue_keeps_highest_scores_witness :
  Forall numeric (candidates (setMaxQueryTerms exMoreLikeThis 2) exTable)
  /\ createQueue (setMaxQueryTerms exMoreLikeThis 2) exTable = Ok exQueue
  /\ exists dropped,
      Permutation (candidates (setMaxQueryTerms exMoreLikeThis 2) exTable)
        (heap exQueue ++ dropped)
      /\ (forall x y, In x (heap exQueue) -> In y dropped ->
            (score y <=? score x)%float = true)
      /\ (size exQueue < limitOf (setMaxQueryTerms exMoreLikeThis 2) exTable ->
          dropped = []).
Proof.
  assert (H1 : Forall numeric (candidates (setMaxQueryTerms exMoreLikeThis 2) exTable))
    by (repeat constructor).
  assert (H2 : createQueue (setMaxQueryTerms exMoreLikeThis 2) exTable = Ok exQueue)
    by evaluate.
  split; [exact H1|]. split; [exact H2|].
  exact (proj1 (createQueue_keeps_highest_scores _ _ _ H1 H2)).
Defined.

(** ** The bound on the size, and what is rejected *)

(** The path of [offer] that discards the candidate: no room, and the top
    entry does not score less. *)
Definition rejects (limit : Z) (queue : TermScoreQueue) (cand : TermScore) : Prop :=
  (size queue <? limit) = false
  /\ exists st, top queue = Some st /\ (score st <? score cand)%float = false.

Lemma rejects_offer (limit : Z) (queue : TermScoreQueue) (cand : TermScore) :
  rejects limit queue cand -> offer limit queue cand = Ok queue.
Proof.
  intros (Hs & st & Ht & Hl). unfold offer. rewrite Hs, Ht, Hl. reflexivity.
Qed.

(** C4.  The queue [createQueue] returns holds at most
    [min(maxQueryTerms, number of (field, term) pairs of the table)]
    entries; and whenever a candidate is rejected by a full queue, it is
    not the case that it scores strictly more than every entry retained at
    that moment. *)
Theorem createQueue_size_and_rejections (mlt : MoreLikeThis) (table : FrequencyTable)
  (q : TermScoreQueue) :
  0 <= maxQueryTerms mlt ->
  createQueue mlt table = Ok q ->
  size q <= Z.min (maxQueryTerms mlt) (Z.of_nat (List.length (termPairs table)))
  /\ (forall pre cand post queue,
        candidates mlt table = pre ++ cand :: post ->
        forEach (offer (limitOf mlt table)) pre
          (newTermScoreQueue (limitOf mlt table)) = Ok queue ->
        rejects (limitOf mlt table) queue cand ->
        offer (limitOf mlt table) queue cand = Ok queue
        /\ ~ (forall e, In e (heap queue) -> (score e <? score cand)%float = true)).
Proof.
  intros Hm Hq. split.
  - rewrite createQueue_candidates in Hq.
    apply forEach_offer_size in Hq; [|unfold size; simpl; lia].
    unfold limitOf in Hq. rewrite getTermsCount_termPairs in Hq. lia.
  - intros pre cand post queue _ _ Hr. split; [exact (rejects_offer _ _ _ Hr)|].
    destruct Hr as (_ & st & Ht & Hl). intros H.
    rewrite (H st (top_In _ _ Ht)) in Hl. discriminate Hl.
Qed.

Lemma createQueue_size_and_rejections_witness :
  0 <= maxQueryTerms (setMaxQueryTerms exMoreLikeThis 2)
  /\ createQueue (setMaxQueryTerms exMoreLikeThis 2) exTable = Ok exQueue
  /\ size exQueue
     <= Z.min (maxQueryTerms (setMaxQueryTerms exMoreLikeThis 2))
          (Z.of_nat (List.length (termPairs exTable))).
Proof.
  assert (H1 : 0 <= maxQueryTerms (setMaxQueryTerms exMoreLikeThis 2))
    by (simpl; lia).
  assert (H2 : createQueue (setMaxQueryTerms exMoreLikeThis 2) exTable = Ok exQueue)
    by evaluate.
  split; [exact H1|]. split; [exact H2|].
  exact (proj1 (createQueue_size_and_rejections _ _ _ H1 H2)).
Defined.

(** With a positive [maxQueryTerms] the call does return a queue. *)
Lemma offer_returns (limit : Z) (queue : TermScoreQueue) (cand : TermScore) :
  (0 < limit \/ 0 < size queue) -> exists queue', offer limit queue cand = Ok queue'.
Proof.
  intros H. unfold offer. destruct (size queue <? limit) eqn:E; [eauto|].
  apply Z.ltb_ge in E. unfold top, size in *.
  destruct (heap queue) as [|st l]; simpl in *; [lia|].
  destruct (score st <? score cand)%float; eauto.
Qed.

Lemma forEach_offer_returns (limit : Z) (cs : list TermScore) :
  forall queue, 0 < limit -> exists queue', forEach (offer limit) cs queue = Ok queue'.
Proof.
  induction cs as [|c cs IH]; intros queue Hl; simpl; [eauto|].
  destruct (offer_returns limit queue c (or_introl Hl)) as [q1 E].
  rewrite E; simpl. apply IH; assumption.
Qed.

Lemma createQueue_returns (mlt : MoreLikeThis) (table : FrequencyTable) :
  0 < maxQueryTerms mlt -> exists q, createQueue mlt table = Ok q.
Proof.
  intros Hm. rewrite createQueue_candidates.
  destruct (candidates mlt table) as [|c cs] eqn:Ec; [simpl; eauto|].
  apply forEach_offer_returns.
  pose proof (candidates_length mlt table) as Hlen. rewrite Ec in Hlen.
  unfold limitOf. rewrite getTermsCount_termPairs. simpl in Hlen. lia.
Qed.

(** ** The thresholds *)

(** The exclusions, as the conditions of the four [continue]s. *)
Definition excluded (mlt : MoreLikeThis) (fieldName word : string) (tf : Z) : bool :=
  let df := docFreq (reader mlt) (newTerm fieldName word) in
  ((0 <? minTermFreq mlt) && (tf <? minTermFreq mlt))
  || ((0 <? minDocFreq mlt) && (df <? minDocFreq mlt))
  || (maxDocFreq mlt <? df)
  || (df =? 0).

(** [score = tf * idf(docFreq, numDocs)]. *)
Definition scored (mlt : MoreLikeThis) (fieldName word : string) (tf : Z) : TermScore :=
  let t := newTerm fieldName word in
  {| term := t;
     score := (Double.of_int32 tf
               * idf (similarity mlt) (docFreq (reader mlt) t) (numDocs (reader mlt)))%float |}.

Lemma scoreTerm_excluded (mlt : MoreLikeThis) (fieldName word : string) (tf : Z) :
  scoreTerm mlt (numDocs (reader mlt)) fieldName word tf
  = if excluded mlt fieldName word tf then None
    else Some (scored mlt fieldName word tf).
Proof.
  unfold scoreTerm, excluded, scored.
  destruct ((0 <? minTermFreq mlt) && (tf <? minTermFreq mlt)); [reflexivity|].
  destruct ((0 <? minDocFreq mlt)
            && (docFreq (reader mlt) (newTerm fieldName word) <? minDocFreq mlt));
    [reflexivity|].
  destruct (maxDocFreq mlt <? docFreq (reader mlt) (newTerm fieldName word));
    [reflexivity|].
  destruct (docFreq (reader mlt) (newTerm fieldName word) =? 0); reflexivity.
Qed.

Lemma candidates_In (mlt : MoreLikeThis) (table : FrequencyTable) (e : TermScore) :
  In e (candidates mlt table) ->
  exists fieldName m word tf,
    In (fieldName, m) table /\ In (word, tf) m
    /\ excluded mlt fieldName word tf = false
    /\ e = scored mlt fieldName word tf.
Proof.
  unfold candidates. rewrite in_flat_map. intros ([fieldName m] & Hit & He).
  unfold candidates_field in He; simpl in He. rewrite in_flat_map in He.
  destruct He as ([word tf] & Hwt & He). simpl in He.
  rewrite scoreTerm_excluded in He.
  destruct (excluded mlt fieldName word tf) eqn:Ex; [destruct He|].
  destruct He as [<-|[]].
  exists fieldName, m, word, tf. auto.
Qed.

Lemma offer_In (limit : Z) (queue queue' : TermScoreQueue) (cand e : TermScore) :
  offer limit queue cand = Ok queue' -> In e (heap queue') ->
  e = cand \/ In e (heap queue).
Proof.
  unfold offer. destruct (size queue <? limit).
  - intros [= <-]. simpl. apply insert_In.
  - destruct (top queue) as [st|]; [|discriminate].
    destruct (score st <? score cand)%float; intros [= <-]; [|auto].
    simpl. rewrite insert_In. intros [->|H]; [auto|right].
    destruct (heap queue); simpl in *; auto.
Qed.

Lemma forEach_offer_In (limit : Z) (cs : list TermScore) :
  forall (queue queue' : TermScoreQueue) (e : TermScore),
  forEach (offer limit) cs queue = Ok queue' -> In e (heap queue') ->
  In e cs \/ In e (heap queue).
Proof.
  induction cs as [|c cs IH]; simpl; intros queue queue' e.
  - intros [= <-]; auto.
  - destruct (offer limit queue c) as [q1|] eqn:E; simpl; [|discriminate].
    intros H He. destruct (IH q1 queue' e H He) as [Hc|H1]; [auto|].
    destruct (offer_In _ _ _ _ _ E H1) as [->|Hq]; auto.
Qed.

(** The keys of a hash map are distinct, at both levels of the table. *)
Definition uniqueKeys (table : FrequencyTable) : Prop :=
  NoDup (map fst table) /\ Forall (fun it => NoDup (map fst (snd it))) table.

Lemma NoDup_keys_functional {V : Type} (m : list (string * V)) (k : string) (v v' : V) :
  NoDup (map fst m) -> In (k, v) m -> In (k, v') m -> v = v'.
Proof.
  induction m as [|[k0 v0] m IH]; simpl; intros Hn H1 H2; [destruct H1|].
  inversion Hn as [|? ? Hk Hn']; subst.
  destruct H1 as [H1|H1], H2 as [H2|H2].
  - congruence.
  - injection H1 as -> ->. exfalso. apply Hk.
    apply (in_map fst) in H2. exact H2.
  - injection H2 as -> ->. exfalso. apply Hk.
    apply (in_map fst) in H1. exact H1.
  - auto.
Qed.

Lemma excluded_iff (mlt : MoreLikeThis) (fieldName word : string) (tf : Z) :
  excluded mlt fieldName word tf = true
  <-> (0 < minTermFreq mlt /\ tf < minTermFreq mlt)
      \/ (0 < minDocFreq mlt
          /\ docFreq (reader mlt) (newTerm fieldName word) < minDocFreq mlt)
      \/ maxDocFreq mlt < docFreq (reader mlt) (newTerm fieldName word)
      \/ docFreq (reader mlt) (newTerm fieldName word) = 0.
Proof.
  unfold excluded. cbv zeta.
  rewrite !orb_true_iff, !andb_true_iff, !Z.ltb_lt, Z.eqb_eq. tauto.
Qed.

Lemma In_candidates (mlt : MoreLikeThis) (table : FrequencyTable)
  (fieldName : string) (m : HashMap Z) (word : string) (tf : Z) :
  In (fieldName, m) table -> In (word, tf) m ->
  excluded mlt fieldName word tf = false ->
  In (scored mlt fieldName word tf) (candidates mlt table).
Proof.
  intros Hm Hw Hx. unfold candidates. apply in_flat_map.
  exists (fieldName, m). split; [exact Hm|].
  unfold candidates_field; simpl. apply in_flat_map.
  exists (word, tf). split; [exact Hw|]. simpl.
  rewrite scoreTerm_excluded, Hx. left. reflexivity.
Qed.

(** While there is room for all of them, the candidates all enter the
    queue. *)
Lemma forEach_offer_room (limit : Z) (cs : list TermScore) :
  forall q q' : TermScoreQueue,
  size q + Z.of_nat (List.length cs) <= limit ->
  forEach (offer limit) cs q = Ok q' ->
  Permutation (heap q') (cs ++ heap q).
Proof.
  induction cs as [|c cs IH]; intros q q' Hs; simpl.
  - intros [= <-]. reflexivity.
  - unfold offer at 1.
    replace (size q <? limit) with true
      by (symmetry; apply Z.ltb_lt; simpl List.length in Hs; lia).
    simpl. intros H. apply IH in H.
    + rewrite H. simpl. rewrite (insert_Permutation c (heap q)).
      symmetry. apply Permutation_middle.
    + unfold size, add in *; simpl. rewrite insert_length.
      simpl List.length in Hs. lia.
Qed.

(** C5.  There are four tests: a term whose frequency in
    the source is below [minTermFreq] (when that is positive), or whose
    document frequency is below [minDocFreq] (when that is positive),
    above [maxDocFreq] or zero, is stepped over without any effect on the
    queue and without a failure, and its term is not in the queue
    [createQueue] returns.  Every other term of the table is scored
    [tf * idf(docFreq, numDocs)] and offered to the queue with that score;
    when the queue has room for all the terms of the table, it is in the
    queue returned.  And every entry of that queue is a term of the table
    that passed the tests, with that score. *)
Theorem createQueue_thresholds (mlt : MoreLikeThis) (table : FrequencyTable)
  (q : TermScoreQueue) :
  uniqueKeys table ->
  createQueue mlt table = Ok q ->
  (forall fieldName word tf,
      (excluded mlt fieldName word tf = true
       <-> (0 < minTermFreq mlt /\ tf < minTermFreq mlt)
           \/ (0 < minDocFreq mlt
               /\ docFreq (reader mlt) (newTerm fieldName word) < minDocFreq mlt)
           \/ maxDocFreq mlt < docFreq (reader mlt) (newTerm fieldName word)
           \/ docFreq (reader mlt) (newTerm fieldName word) = 0)
      /\ scoreTerm mlt (numDocs (reader mlt)) fieldName word tf
         = (if excluded mlt fieldName word tf then None
            else Some {| term := newTerm fieldName word;
                         score := (Double.of_int32 tf
                                   * idf (similarity mlt)
                                       (docFreq (reader mlt) (newTerm fieldName word))
                                       (numDocs (reader mlt)))%float |}))
  /\ (forall fieldName m word tf,
        In (fieldName, m) table -> In (word, tf) m ->
        excluded mlt fieldName word tf = true ->
        (forall limit queue,
            createQueue_word mlt (numDocs (reader mlt)) limit fieldName queue (word, tf)
            = Ok queue)
        /\ ~ In (newTerm fieldName word) (map term (heap q)))
  /\ (forall fieldName m word tf,
        In (fieldName, m) table -> In (word, tf) m ->
        excluded mlt fieldName word tf = false ->
        (forall limit queue,
            createQueue_word mlt (numDocs (reader mlt)) limit fieldName queue (word, tf)
            = offer limit queue (scored mlt fieldName word tf))
        /\ (getTermsCount table <= maxQueryTerms mlt ->
            In (scored mlt fieldName word tf) (heap q)))
  /\ (forall e, In e (heap q) ->
        exists fieldName m word tf,
          In (fieldName, m) table /\ In (word, tf) m
          /\ excluded mlt fieldName word tf = false
          /\ term e = newTerm fieldName word
          /\ score e
             = (Double.of_int32 tf
                * idf (similarity mlt) (docFreq (reader mlt) (newTerm fieldName word))
                    (numDocs (reader mlt)))%float).
Proof.
  intros [Hu1 Hu2] Hq.
  assert (Hentries : forall e, In e (heap q) ->
            exists fieldName m word tf,
              In (fieldName, m) table /\ In (word, tf) m
              /\ excluded mlt fieldName word tf = false
              /\ e = scored mlt fieldName word tf).
  { intros e He. rewrite createQueue_candidates in Hq.
    destruct (forEach_offer_In _ _ _ _ e Hq He) as [Hc|[]].
    exact (candidates_In mlt table e Hc). }
  split; [|split; [|split]].
  - intros fieldName word tf. split; [apply excluded_iff|].
    apply scoreTerm_excluded.
  - intros fieldName m word tf Hm Hw Hx. split.
    + intros limit queue. unfold createQueue_word; simpl.
      rewrite scoreTerm_excluded, Hx. reflexivity.
    + rewrite in_map_iff. intros (e & Ht & He).
      destruct (Hentries e He) as (f' & m' & w' & tf' & Hm' & Hw' & Hx' & ->).
      simpl in Ht. injection Ht as -> ->.
      assert (m' = m) by exact (NoDup_keys_functional table fieldName m' m Hu1 Hm' Hm).
      subst m'.
      rewrite Forall_forall in Hu2. pose proof (Hu2 _ Hm) as Hn. simpl in Hn.
      assert (tf' = tf) by exact (NoDup_keys_functional m word tf' tf Hn Hw' Hw).
      subst tf'. congruence.
  - intros fieldName m word tf Hm Hw Hx. split.
    + intros limit queue. unfold createQueue_word; simpl.
      rewrite scoreTerm_excluded, Hx. reflexivity.
    + intros Hroom. rewrite createQueue_candidates in Hq.
      apply forEach_offer_room in Hq.
      * apply (Permutation_in _ (Permutation_sym Hq)). apply in_or_app. left.
        exact (In_candidates mlt table fieldName m word tf Hm Hw Hx).
      * pose proof (candidates_length mlt table) as Hlen.
        unfold limitOf, size. rewrite getTermsCount_termPairs in *. simpl. lia.
  - intros e He.
    destruct (Hentries e He) as (f & m & w & tf & Hm & Hw & Hx & ->).
    exists f, m, w, tf. repeat split; auto.
Qed.

Lemma createQueue_thresholds_witness :
  uniqueKeys exAppleTable
  /\ createQueue exMoreLikeThis exAppleTable
     = Ok {| maxSize := 2;
             heap := [ {| term := newTerm "body" "apple"; score := 10%float |} ] |}
  /\ excluded exMoreLikeThis "body" "xyz" 1 = true
  /\ ~ In (newTerm "body" "xyz")
         (map term [ {| term := newTerm "body" "apple"; score := 10%float |} ])
  /\ excluded exMoreLikeThis "body" "apple" 5 = false
  /\ In (scored exMoreLikeThis "body" "apple" 5)
       [ {| term := newTerm "body" "apple"; score := 10%float |} ].
Proof.
  assert (H1 : uniqueKeys exAppleTable).
  { split; simpl.
    - repeat constructor. intros [].
    - repeat constructor; simpl; intros H; repeat destruct H as [H|H];
        try discriminate H; try contradiction. }
  assert (H2 : createQueue exMoreLikeThis exAppleTable
               = Ok {| maxSize := 2;
                       heap := [ {| term := newTerm "body" "apple";
                                    score := 10%float |} ] |})
    by evaluate.
  assert (H3 : getTermsCount exAppleTable <= maxQueryTerms exMoreLikeThis)
    by (vm_compute; discriminate).
  pose proof (createQueue_thresholds _ _ _ H1 H2) as (_ & Hskip & Hkeep & _).
  split; [exact H1|]. split; [exact H2|]. split; [reflexivity|]. split.
  - exact (proj2 (Hskip "body"%string [("apple"%string, 5); ("xyz"%string, 1)]
                    "xyz"%string 1
                    (or_introl eq_refl) (or_intror (or_introl eq_refl)) eq_refl)).
  - split; [reflexivity|].
    exact (proj2 (Hkeep "body"%string [("apple"%string, 5); ("xyz"%string, 1)]
                    "apple"%string 5
                    (or_introl eq_refl) (or_introl eq_refl) eq_refl) H3).
Defined.

(** ** The token budget *)

(** [tokenLoop] with two counters the source does not keep: the tokens
    whose frequency was incremented and the tokens stepped over as noise. *)
Fixpoint tokenLoop_counting (mlt : MoreLikeThis) (ts : list string) (tokenCount : Z)
  (termFreqMap : HashMap Z) (counted rejected : Z) : HashMap Z * Z * Z :=
  match ts with
  | [] => (termFreqMap, counted, rejected)
  | term :: ts' =>
      let tokenCount := tokenCount + 1 in
      if maxNumTokensParsed mlt <? tokenCount then (termFreqMap, counted, rejected)
      else if isNoiseWord mlt term
           then tokenLoop_counting mlt ts' tokenCount termFreqMap counted (rejected + 1)
           else tokenLoop_counting mlt ts' tokenCount (increment termFreqMap term 1)
                  (counted + 1) rejected
  end.

(** The sum of the frequencies a map holds. *)
Definition totalFreq (m : HashMap Z) : Z :=
  fold_right (fun kv acc => snd kv + acc) 0 m.

Definition freqOf (m : HashMap Z) (k : string) : Z :=
  match HashMap_get m k with Some n => n | None => 0 end.

Lemma totalFreq_put (m : HashMap Z) (k : string) (v : Z) :
  totalFreq (HashMap_put m k v) = totalFreq m - freqOf m k + v.
Proof.
  unfold freqOf. induction m as [|[k' v'] m IH]; simpl; [lia|].
  destruct (String.eqb k k'); simpl; lia.
Qed.

Lemma HashMap_get_put_same {V : Type} (m : HashMap V) (k : string) (v : V) :
  HashMap_get (HashMap_put m k v) k = Some v.
Proof.
  induction m as [|[k' v'] m IH]; simpl.
  - rewrite String.eqb_refl. reflexivity.
  - destruct (String.eqb k k') eqn:E; simpl; rewrite E; auto.
Qed.

Lemma totalFreq_increment (m : HashMap Z) (k : string) (n : Z) :
  totalFreq (increment m k n) = totalFreq m + n.
Proof.
  unfold increment, HashMap_contains.
  destruct (HashMap_get m k) as [old|] eqn:E; simpl.
  - rewrite E, totalFreq_put. unfold freqOf. rewrite E. lia.
  - rewrite HashMap_get_put_same, !totalFreq_put. unfold freqOf.
    rewrite HashMap_get_put_same, E. lia.
Qed.

Lemma tokenLoop_counting_fst (mlt : MoreLikeThis) (ts : list string) :
  forall tokenCount m counted rejected,
  fst (fst (tokenLoop_counting mlt ts tokenCount m counted rejected))
  = tokenLoop mlt ts tokenCount m.
Proof.
  induction ts as [|t ts IH]; intros tokenCount m counted rejected; simpl;
    [reflexivity|].
  destruct (maxNumTokensParsed mlt <? tokenCount + 1); [reflexivity|].
  destruct (isNoiseWord mlt t); apply IH.
Qed.

Lemma tokenLoop_counting_budget (mlt : MoreLikeThis) (ts : list string) :
  forall tokenCount m counted rejected m' counted' rejected',
  tokenCount <= maxNumTokensParsed mlt ->
  tokenLoop_counting mlt ts tokenCount m counted rejected = (m', counted', rejected') ->
  counted <= counted' /\ rejected <= rejected'
  /\ (counted' - counted) + (rejected' - rejected)
     = Z.min (Z.of_nat (List.length ts)) (maxNumTokensParsed mlt - tokenCount)
  /\ totalFreq m' = totalFreq m + (counted' - counted).
Proof.
  induction ts as [|t ts IH]; intros tokenCount m counted rejected m' counted' rejected' Hc;
    simpl.
  - intros [= <- <- <-]. lia.
  - destruct (maxNumTokensParsed mlt <? tokenCount + 1) eqn:E.
    + intros [= <- <- <-]. apply Z.ltb_lt in E. lia.
    + apply Z.ltb_ge in E. destruct (isNoiseWord mlt t); intros H;
        apply IH in H; try lia.
      rewrite totalFreq_increment in H. lia.
Qed.

(** C10.  With an analyzer set, one call of the token-mode accumulator
    looks at the tokens of its text source one by one and every one of
    them, noise or not, uses up one unit of the budget
    [maxNumTokensParsed]: the tokens whose frequency was counted and the
    tokens rejected as noise are together [min(number of tokens,
    maxNumTokensParsed)], hence never more than [maxNumTokensParsed], and
    the frequencies of the field grow by exactly the number counted. *)
Theorem noise_tokens_use_the_budget (mlt : MoreLikeThis) (azr : Analyzer) (r : Reader)
  (table : FrequencyTable) (fieldName : string) :
  0 <= maxNumTokensParsed mlt ->
  analyzer mlt = Some azr ->
  let before := fieldMap (ensureField table fieldName) fieldName in
  exists after counted rejected,
    tokenLoop_counting mlt (azr fieldName r) 0 before 0 0 = (after, counted, rejected)
    /\ addTermFrequencies_reader mlt r table fieldName
       = (Ok tt, HashMap_put (ensureField table fieldName) fieldName after)
    /\ 0 <= counted /\ 0 <= rejected
    /\ counted + rejected
       = Z.min (Z.of_nat (List.length (azr fieldName r))) (maxNumTokensParsed mlt)
    /\ counted + rejected <= maxNumTokensParsed mlt
    /\ totalFreq after = totalFreq before + counted.
Proof.
  intros Hm Ha before.
  destruct (tokenLoop_counting mlt (azr fieldName r) 0 before 0 0)
    as [[after counted] rejected] eqn:E.
  exists after, counted, rejected. split; [reflexivity|].
  pose proof (tokenLoop_counting_fst mlt (azr fieldName r) 0 before 0 0) as Hf.
  rewrite E in Hf; simpl in Hf.
  pose proof (tokenLoop_counting_budget mlt _ _ _ _ _ _ _ _ Hm E) as Hb.
  split.
  - unfold addTermFrequencies_reader. rewrite Ha. subst after. reflexivity.
  - lia.
Qed.

Lemma noise_tokens_use_the_budget_witness :
  0 <= maxNumTokensParsed (setMaxNumTokensParsed exMoreLikeThis 2)
  /\ analyzer (setMaxNumTokensParsed exMoreLikeThis 2) = Some whitespaceAnalyzer
  /\ exists after counted rejected,
       tokenLoop_counting (setMaxNumTokensParsed exMoreLikeThis 2)
         (whitespaceAnalyzer "body"%string "the x y"%string) 0
         (fieldMap (ensureField [] "body"%string) "body"%string) 0 0
       = (after, counted, rejected)
       /\ counted + rejected <= 2.
Proof.
  assert (H1 : 0 <= maxNumTokensParsed (setMaxNumTokensParsed exMoreLikeThis 2))
    by (simpl; lia).
  split; [exact H1|]. split; [reflexivity|].
  destruct (noise_tokens_use_the_budget (setMaxNumTokensParsed exMoreLikeThis 2)
              whitespaceAnalyzer "the x y"%string [] "body"%string H1 eq_refl)
    as (after & counted & rejected & E & _ & _ & _ & _ & Hle & _).
  exists after, counted, rejected. split; [exact E|exact Hle].
Defined.

(** C6, as it fails.  The budget is counted afresh in every call of the
    accumulator, that is for every stored value and for every text stream:
    with [maxNumTokensParsed = 2], two streams of three tokens each for the
    field "body", or the two stored values of that field in a document, put
    four tokens of the field into the table. *)
Lemma budget_is_per_stream_not_per_field :
  accumulate_readers (setMaxNumTokensParsed exMoreLikeThis 2) "body"%string
    ["x y z"; "u v w"]%string
  = (Ok tt, [("body", [("x", 1); ("y", 1); ("u", 1); ("v", 1)])]%string)
  /\ accumulate_docNum
       (setFieldNames (setMaxNumTokensParsed exMoreLikeThis 2) ["body"%string]) 7
     = (Ok tt, [("body", [("x", 1); ("y", 1); ("u", 1); ("v", 1)])]%string)
  /\ totalFreq [("x", 1); ("y", 1); ("u", 1); ("v", 1)]%string
     > maxNumTokensParsed (setMaxNumTokensParsed exMoreLikeThis 2).
Proof.
  split; [evaluate|]. split; [evaluate|].
  evaluate.
Qed.

Lemma fieldMap_put (table : FrequencyTable) (fieldName : string) (m : HashMap Z) :
  fieldMap (HashMap_put table fieldName m) fieldName = m.
Proof. unfold fieldMap. rewrite HashMap_get_put_same. reflexivity. Qed.

Lemma fieldMap_ensureField (table : FrequencyTable) (fieldName : string) :
  fieldMap (ensureField table fieldName) fieldName = fieldMap table fieldName.
Proof.
  unfold ensureField, HashMap_contains, fieldMap.
  destruct (HashMap_get table fieldName) eqn:E; simpl.
  - rewrite E. reflexivity.
  - rewrite HashMap_get_put_same. reflexivity.
Qed.

Lemma addTermFrequencies_reader_budget (mlt : MoreLikeThis) (azr : Analyzer)
  (r : Reader) (table : FrequencyTable) (fieldName : string) :
  0 <= maxNumTokensParsed mlt -> analyzer mlt = Some azr ->
  fst (addTermFrequencies_reader mlt r table fieldName) = Ok tt
  /\ totalFreq (fieldMap (snd (addTermFrequencies_reader mlt r table fieldName)) fieldName)
     <= totalFreq (fieldMap table fieldName) + maxNumTokensParsed mlt.
Proof.
  intros Hm Ha.
  destruct (tokenLoop_counting mlt (azr fieldName r) 0
              (fieldMap (ensureField table fieldName) fieldName) 0 0)
    as [[after counted] rejected] eqn:E.
  pose proof (tokenLoop_counting_fst mlt (azr fieldName r) 0
                (fieldMap (ensureField table fieldName) fieldName) 0 0) as Hf.
  rewrite E in Hf; simpl in Hf.
  pose proof (tokenLoop_counting_budget mlt _ _ _ _ _ _ _ _ Hm E) as Hb.
  unfold addTermFrequencies_reader. rewrite Ha. simpl.
  split; [reflexivity|].
  rewrite fieldMap_put, <- Hf. rewrite fieldMap_ensureField in Hb. lia.
Qed.

(** C6, amended.  The budget belongs to the text source: one call of the
    token-mode accumulator, for one stored value or one text stream, adds
    at most [maxNumTokensParsed] to the frequencies of its field, so that
    the text streams handed to [retrieveTerms(fieldName, readers)] put at
    most [maxNumTokensParsed] tokens each into the table. *)
Theorem token_budget_per_text_source (mlt : MoreLikeThis) (azr : Analyzer)
  (fieldName : string) :
  0 <= maxNumTokensParsed mlt ->
  analyzer mlt = Some azr ->
  (forall r table,
      totalFreq (fieldMap (snd (addTermFrequencies_reader mlt r table fieldName))
                   fieldName)
      <= totalFreq (fieldMap table fieldName) + maxNumTokensParsed mlt)
  /\ (forall readers,
        fst (accumulate_readers mlt fieldName readers) = Ok tt
        /\ totalFreq (fieldMap (snd (accumulate_readers mlt fieldName readers)) fieldName)
           <= Z.of_nat (List.length readers) * maxNumTokensParsed mlt).
Proof.
  intros Hm Ha. split.
  - intros r table. exact (proj2 (addTermFrequencies_reader_budget _ _ _ _ _ Hm Ha)).
  - intros readers. unfold accumulate_readers.
    assert (H : forall table,
               fst (forEachAcc
                      (fun it t => addTermFrequencies_reader mlt it t fieldName)
                      readers table) = Ok tt
               /\ totalFreq (fieldMap (snd (forEachAcc
                      (fun it t => addTermFrequencies_reader mlt it t fieldName)
                      readers table)) fieldName)
                  <= totalFreq (fieldMap table fieldName)
                     + Z.of_nat (List.length readers) * maxNumTokensParsed mlt).
    { induction readers as [|r readers IH]; intros table.
      - simpl. split; [reflexivity|lia].
      - cbn [forEachAcc].
        pose proof (addTermFrequencies_reader_budget mlt azr r table fieldName Hm Ha)
          as [Hok Hle].
        destruct (addTermFrequencies_reader mlt r table fieldName) as [res table'].
        simpl in Hok, Hle. rewrite Hok.
        destruct (IH table') as [IHok IHle]. split; [exact IHok|].
        cbn [List.length]. lia. }
    exact (H []).
Qed.

Lemma token_budget_per_text_source_witness :
  0 <= maxNumTokensParsed (setMaxNumTokensParsed exMoreLikeThis 2)
  /\ analyzer (setMaxNumTokensParsed exMoreLikeThis 2) = Some whitespaceAnalyzer
  /\ totalFreq (fieldMap (snd (accumulate_readers
                                 (setMaxNumTokensParsed exMoreLikeThis 2)
                                 "body"%string ["x y z"; "u v w"]%string))
                  "body"%string)
     <= 2 * maxNumTokensParsed (setMaxNumTokensParsed exMoreLikeThis 2).
Proof.
  assert (H1 : 0 <= maxNumTokensParsed (setMaxNumTokensParsed exMoreLikeThis 2))
    by (simpl; lia).
  split; [exact H1|]. split; [reflexivity|].
  exact (proj2 (proj2 (token_budget_per_text_source
                         (setMaxNumTokensParsed exMoreLikeThis 2) whitespaceAnalyzer
                         "body"%string H1 eq_refl)
                  ["x y z"; "u v w"]%string)).
Defined.

(** ** The analyzer that is required *)

Definition analyzerRequired : LuceneException :=
  UnsupportedOperationException
    "To use MoreLikeThis without term vectors, you must provide an Analyzer".

(** C7.  The token-mode accumulator throws exactly when no analyzer is
    set; it then throws before it touches the table, which is left as it
    was passed in, and what it throws is the UnsupportedOperationException
    asking for an analyzer, never anything else. *)
Theorem analyzer_required_iff_none (mlt : MoreLikeThis) (r : Reader)
  (table : FrequencyTable) (fieldName : string) :
  (analyzer mlt = None
   <-> exists e, fst (addTermFrequencies_reader mlt r table fieldName) = Throw e)
  /\ (analyzer mlt = None ->
      addTermFrequencies_reader mlt r table fieldName
      = (Throw analyzerRequired, table))
  /\ (forall e, fst (addTermFrequencies_reader mlt r table fieldName) = Throw e ->
      e = analyzerRequired)
  /\ (analyzer mlt <> None ->
      fst (addTermFrequencies_reader mlt r table fieldName) = Ok tt).
Proof.
  unfold addTermFrequencies_reader, analyzerRequired.
  destruct (analyzer mlt) as [azr|]; simpl.
  - repeat split; try discriminate.
    + intros [e H]. discriminate H.
  - repeat split; try congruence.
    + intros _. eexists; reflexivity.
Qed.

(** ** Too many clauses *)

(** An [add] that appends the clause unless it refuses it with
    TooManyClauses; whether it refuses may depend on the query as it is
    and on the clause. *)
Definition addUnless (refuses : BooleanQuery -> TermQuery -> bool) : AddClause :=
  fun query tq o =>
    if refuses query tq then Throw TooManyClausesException
    else Ok {| clauses := clauses query ++ [{| clauseQuery := tq; occur := o |}] |}.

(** The query after the clauses [cs] were handed to such an [add] one
    after the other, each of them whatever became of the ones before. *)
Fixpoint keptClauses (refuses : BooleanQuery -> TermQuery -> bool)
  (cs : list BooleanClause) (query : BooleanQuery) : BooleanQuery :=
  match cs with
  | [] => query
  | c :: cs' =>
      if refuses query (clauseQuery c) then keptClauses refuses cs' query
      else keptClauses refuses cs' {| clauses := clauses query ++ [c] |}
  end.

Lemma createQuery_loop_addUnless (refuses : BooleanQuery -> TermQuery -> bool)
  (mlt : MoreLikeThis) (entries : list TermScore) :
  forall (query : BooleanQuery) (bestScore : float),
  createQuery_loop (addUnless refuses) mlt entries query bestScore
  = Ok (keptClauses refuses (builtClauses mlt entries bestScore) query).
Proof.
  induction entries as [|st entries IH]; intros query bestScore; [reflexivity|].
  rewrite createQuery_loop_step. cbv zeta. cbn [builtClauses keptClauses].
  unfold addUnless at 1.
  destruct (refuses query (clauseQuery (clauseFor mlt st (nextBest mlt st bestScore))));
    rewrite IH; reflexivity.
Qed.

Lemma keptClauses_keeps (refuses : BooleanQuery -> TermQuery -> bool)
  (cs : list BooleanClause) :
  forall query, exists more,
    clauses (keptClauses refuses cs query) = clauses query ++ more.
Proof.
  induction cs as [|c cs IH]; intros query; simpl.
  - exists []. rewrite app_nil_r. reflexivity.
  - destruct (refuses query (clauseQuery c)); [apply IH|].
    destruct (IH {| clauses := clauses query ++ [c] |}) as [more H].
    exists (c :: more). rewrite H. simpl. rewrite <- app_assoc. reflexivity.
Qed.

Lemma keptClauses_app (refuses : BooleanQuery -> TermQuery -> bool)
  (cs1 cs2 : list BooleanClause) :
  forall query,
  keptClauses refuses (cs1 ++ cs2) query
  = keptClauses refuses cs2 (keptClauses refuses cs1 query).
Proof.
  induction cs1 as [|c cs1 IH]; intros query; simpl; [reflexivity|].
  destruct (refuses query (clauseQuery c)); apply IH.
Qed.

(** C8.  The loop of [createQuery] goes on after a refusal, whatever the
    [add] operation does otherwise: when [add] throws TooManyClauses for a
    clause, the loop continues with the remaining terms and with the query
    as it was, and any other exception of [add] leaves the loop.  So with
    an [add] that only ever appends the clause or refuses it with
    TooManyClauses, the call returns a query: every clause built for a
    drained term is handed to [add], in order; the clauses that were in
    the query stay; and a clause that is not refused when its turn comes
    is in the query returned, however many were refused before it.  With
    the clause limit of the spec the query holds the first clauses, as
    many as the limit allows; from an empty queue it has no clause. *)
Theorem createQuery_swallows_TooManyClauses (maxClauseCount : Z) (mlt : MoreLikeThis)
  (q : TermScoreQueue) :
  (forall (add : AddClause) st entries query bestScore,
      add query (clauseQuery (clauseFor mlt st (nextBest mlt st bestScore))) SHOULD
      = Throw TooManyClausesException ->
      createQuery_loop add mlt (st :: entries) query bestScore
      = createQuery_loop add mlt entries query (nextBest mlt st bestScore))
  /\ (forall (add : AddClause) st entries query bestScore e,
        add query (clauseQuery (clauseFor mlt st (nextBest mlt st bestScore))) SHOULD
        = Throw e ->
        e <> TooManyClausesException ->
        createQuery_loop add mlt (st :: entries) query bestScore = Throw e)
  /\ (forall refuses entries query bestScore,
        createQuery_loop (addUnless refuses) mlt entries query bestScore
        = Ok (keptClauses refuses (builtClauses mlt entries bestScore) query))
  /\ (forall refuses cs query,
        exists more, clauses (keptClauses refuses cs query) = clauses query ++ more)
  /\ (forall refuses pre c post query,
        refuses (keptClauses refuses pre query) (clauseQuery c) = false ->
        In c (clauses (keptClauses refuses (pre ++ c :: post) query)))
  /\ createQuery maxClauseCount mlt q
     = Ok {| clauses := firstn (Z.to_nat maxClauseCount)
                          (builtClauses mlt (drained q) (-1)%float) |}
  /\ (drained q = [] ->
      createQuery maxClauseCount mlt q = Ok newBooleanQuery
      /\ forall add : AddClause,
           createQuery_loop add mlt (drained q) newBooleanQuery (-1)%float
           = Ok newBooleanQuery).
Proof.
  split; [|split; [|split; [|split; [|split; [|split]]]]].
  - intros add st entries query bestScore H.
    rewrite createQuery_loop_step. cbv zeta. rewrite H. reflexivity.
  - intros add st entries query bestScore e H He.
    rewrite createQuery_loop_step. cbv zeta. rewrite H.
    destruct e; congruence.
  - intros refuses entries. apply createQuery_loop_addUnless.
  - intros refuses cs. apply keptClauses_keeps.
  - intros refuses pre c post query H.
    rewrite keptClauses_app. simpl. rewrite H.
    destruct (keptClauses_keeps refuses post
                {| clauses := clauses (keptClauses refuses pre query) ++ [c] |})
      as [more Hm].
    rewrite Hm. simpl. apply in_or_app. left. apply in_or_app. right.
    left. reflexivity.
  - apply createQuery_clauses.
  - intros Hd. split.
    + unfold createQuery. rewrite Hd. reflexivity.
    + intros add. rewrite Hd. reflexivity.
Qed.

(** The scenario of the spec: of three clauses the second is refused, and
    the first and the third are in the query. *)
Lemma createQuery_swallows_TooManyClauses_witness :
  let refuses := fun (_ : BooleanQuery) (tq : TermQuery) =>
                   String.eqb (_text (queryTerm tq)) "a" in
  createQuery_loop (addUnless refuses) exMoreLikeThis
    [ {| term := newTerm "body" "c"; score := 14%float |};
      {| term := newTerm "body" "a"; score := 10%float |};
      {| term := newTerm "body" "b"; score := 6%float |} ]
    newBooleanQuery (-1)%float
  = Ok {| clauses :=
            [ {| clauseQuery := newTermQuery (newTerm "body" "c"); occur := SHOULD |};
              {| clauseQuery := newTermQuery (newTerm "body" "b"); occur := SHOULD |} ] |}.
Proof.
  intros refuses.
  exact (eq_trans
           (proj1 (proj2 (proj2 (createQuery_swallows_TooManyClauses
                                   1024 exMoreLikeThis exQueue)))
              refuses _ newBooleanQuery (-1)%float)
           eq_refl).
Defined.

(** ** The configuration across a call *)

(** C9, as it fails.  [like(docNum)] on an object whose field names are
    not set assigns the indexed fields of the reader to the member
    [fieldNames]: after the call the object is not what it was. *)
Lemma like_docNum_assigns_fieldNames :
  fieldNames exMoreLikeThis = []
  /\ fieldNames (snd (like_docNum 1024 exMoreLikeThis 7)) = ["body"%string]
  /\ snd (like_docNum 1024 exMoreLikeThis 7) <> exMoreLikeThis.
Proof.
  split; [reflexivity|]. split; [reflexivity|].
  intros H. apply (f_equal fieldNames) in H. discriminate H.
Qed.

(** C9, amended.  A call changes nothing in the configuration but this:
    [like(docNum)], called while the field names are empty, stores the
    indexed fields of the reader in [fieldNames], where they stay.  It
    leaves every other parameter as it was, and so do the other public
    operations with all the parameters; and [like(docNum)] called with
    field names set leaves the object as it was. *)
Theorem only_like_docNum_assigns_fieldNames (maxClauseCount : Z) (mlt : MoreLikeThis)
  (docNum : Z) (fieldName : string) (readers : list Reader) (r : Reader) :
  snd (like_docNum maxClauseCount mlt docNum)
  = (if HashSet_empty (fieldNames mlt)
     then setFieldNames mlt (getFieldNames (reader mlt))
     else mlt)
  /\ (HashSet_empty (fieldNames mlt) = false ->
      snd (like_docNum maxClauseCount mlt docNum) = mlt)
  /\ setFieldNames (snd (like_docNum maxClauseCount mlt docNum)) (fieldNames mlt) = mlt
  /\ snd (like_readers maxClauseCount mlt fieldName readers) = mlt
  /\ snd (retrieveInterestingTerms_docNum mlt docNum) = mlt
  /\ snd (retrieveInterestingTerms_readers mlt fieldName readers) = mlt
  /\ snd (retrieveInterestingTerms_reader mlt r fieldName) = mlt.
Proof.
  unfold like_docNum; simpl. split; [reflexivity|]. split.
  - intros H. rewrite H. reflexivity.
  - split; [|repeat split].
    destruct (HashSet_empty (fieldNames mlt)); destruct mlt; reflexivity.
Qed.

(** * Further properties *)

(** ** Lookup after an update *)

Lemma HashMap_get_put_other {V : Type} (m : HashMap V) (k k' : string) (v : V) :
  String.eqb k' k = false ->
  HashMap_get (HashMap_put m k v) k' = HashMap_get m k'.
Proof.
  intros Hk. induction m as [|[k0 v0] m IH]; simpl.
  - rewrite Hk. reflexivity.
  - destruct (String.eqb k k0) eqn:E; simpl.
    + apply String.eqb_eq in E. subst k0. rewrite Hk. reflexivity.
    + rewrite IH. reflexivity.
Qed.

Lemma freqOf_increment_same (m : HashMap Z) (k : string) (n : Z) :
  freqOf (increment m k n) k = freqOf m k + n.
Proof.
  unfold increment, HashMap_contains, freqOf.
  destruct (HashMap_get m k) as [old|] eqn:E; simpl.
  - rewrite E, HashMap_get_put_same. reflexivity.
  - rewrite !HashMap_get_put_same. reflexivity.
Qed.

Lemma HashMap_get_increment_other (m : HashMap Z) (k k' : string) (n : Z) :
  String.eqb k' k = false ->
  HashMap_get (increment m k n) k' = HashMap_get m k'.
Proof.
  intros Hk. unfold increment, HashMap_contains.
  destruct (HashMap_get m k) as [old|] eqn:E; simpl.
  - rewrite E. apply HashMap_get_put_other. exact Hk.
  - rewrite HashMap_get_put_same, !HashMap_get_put_other by exact Hk. reflexivity.
Qed.

(** X1.  As long as the sum is an [int32_t] value, incrementing the
    frequency of a term adds to what the map held for it (nothing, when the
    term is new) and leaves an [int32_t] value; it makes the term a key of
    the map, and leaves the entry of every other term as it was. *)
Theorem increment_then_lookup (m : HashMap Z) (k k' : string) (n : Z) :
  INT32_MIN <= freqOf m k + n <= INT32_MAX ->
  freqOf (increment m k n) k = freqOf m k + n
  /\ INT32_MIN <= freqOf (increment m k n) k <= INT32_MAX
  /\ HashMap_contains (increment m k n) k = true
  /\ (HashMap_contains m k = false -> HashMap_get (increment m k n) k = Some n)
  /\ (String.eqb k' k = false ->
      HashMap_get (increment m k n) k' = HashMap_get m k').
Proof.
  intros Hfit. split; [apply freqOf_increment_same|]. split; [|split; [|split]].
  - rewrite freqOf_increment_same. exact Hfit.
  - unfold increment, HashMap_contains.
    destruct (HashMap_get m k) as [old|] eqn:E; simpl.
    + rewrite E, HashMap_get_put_same. reflexivity.
    + rewrite !HashMap_get_put_same. reflexivity.
  - unfold increment, HashMap_contains.
    destruct (HashMap_get m k); [discriminate|]. intros _. simpl.
    rewrite !HashMap_get_put_same. reflexivity.
  - apply HashMap_get_increment_other.
Qed.

Lemma increment_then_lookup_witness :
  INT32_MIN <= freqOf [("a"%string, 2)] "a" + 3 <= INT32_MAX
  /\ freqOf (increment [("a"%string, 2)] "a" 3) "a" = 5.
Proof.
  assert (H1 : INT32_MIN <= freqOf [("a"%string, 2)] "a" + 3 <= INT32_MAX)
    by (vm_compute; split; discriminate).
  split; [exact H1|].
  exact (proj1 (increment_then_lookup [("a"%string, 2)] "a" "b" 3 H1)).
Defined.

(** ** The frequencies a term vector adds *)

(** The sum of the frequencies the entries give for the term [k]. *)
Fixpoint occurrences (k : string) (entries : list (string * Z)) : Z :=
  match entries with
  | [] => 0
  | (term, freq) :: entries' =>
      (if String.eqb k term then freq else 0) + occurrences k entries'
  end.

Lemma freqOf_increment (m : HashMap Z) (k k' : string) (n : Z) :
  freqOf (increment m k n) k' = freqOf m k' + (if String.eqb k' k then n else 0).
Proof.
  destruct (String.eqb k' k) eqn:E.
  - apply String.eqb_eq in E. subst k'. apply freqOf_increment_same.
  - unfold freqOf. rewrite (HashMap_get_increment_other m k k' n E). lia.
Qed.

Lemma freqOf_vectorLoop (mlt : MoreLikeThis) (entries : list (string * Z)) :
  forall (m : HashMap Z) (k : string),
  freqOf (vectorLoop mlt entries m) k
  = freqOf m k + (if isNoiseWord mlt k then 0 else occurrences k entries).
Proof.
  induction entries as [|[term freq] entries IH]; intros m k; simpl.
  - destruct (isNoiseWord mlt k); lia.
  - destruct (isNoiseWord mlt term) eqn:Et.
    + rewrite IH. destruct (String.eqb k term) eqn:E.
      * apply String.eqb_eq in E. subst k. rewrite Et. lia.
      * destruct (isNoiseWord mlt k); lia.
    + rewrite IH, freqOf_increment. destruct (String.eqb k term) eqn:E.
      * apply String.eqb_eq in E. subst k. rewrite Et. lia.
      * destruct (isNoiseWord mlt k); lia.
Qed.

Lemma occurrences_nonneg (k : string) (entries : list (string * Z)) :
  Forall (fun e => 0 <= snd e) entries -> 0 <= occurrences k entries.
Proof.
  induction entries as [|[term freq] entries IH]; simpl; intros H; [lia|].
  inversion H as [|? ? Hf H']; subst. simpl in Hf. specialize (IH H').
  destruct (String.eqb k term); lia.
Qed.

Lemma fieldMap_put_other (table : FrequencyTable) (fieldName f' : string)
  (m : HashMap Z) :
  String.eqb f' fieldName = false ->
  fieldMap (HashMap_put table fieldName m) f' = fieldMap table f'.
Proof.
  intros H. unfold fieldMap. rewrite HashMap_get_put_other by exact H. reflexivity.
Qed.

Lemma fieldMap_ensureField_other (table : FrequencyTable) (fieldName f' : string) :
  String.eqb f' fieldName = false ->
  fieldMap (ensureField table fieldName) f' = fieldMap table f'.
Proof.
  intros H. unfold ensureField. destruct (negb (HashMap_contains table fieldName)).
  - apply fieldMap_put_other. exact H.
  - reflexivity.
Qed.

(** X2.  Vector mode adds, for every term of the vector that is not a
    noise word, the frequencies the vector gives for it (all of them, when
    the term occurs more than once) to what the table held for the term
    under the field, as long as these frequencies are not negative and
    their sum with what the table held is an [int32_t] value; it adds
    nothing for a noise word, changes nothing under any other field, and
    does nothing at all when there is no vector. *)
Theorem addTermFrequencies_vector_adds (mlt : MoreLikeThis) (table : FrequencyTable)
  (vector : TermFreqVector) (fieldName f' k : string) :
  0 <= freqOf (fieldMap table fieldName) k ->
  Forall (fun n => 0 <= n) (getTermFrequencies vector) ->
  freqOf (fieldMap table fieldName) k
  + occurrences k (combine (getTerms vector) (getTermFrequencies vector))
  <= INT32_MAX ->
  freqOf (fieldMap (addTermFrequencies_vector mlt table (Some vector) fieldName)
            fieldName) k
  = freqOf (fieldMap table fieldName) k
    + (if isNoiseWord mlt k then 0
       else occurrences k (combine (getTerms vector) (getTermFrequencies vector)))
  /\ 0 <= freqOf (fieldMap (addTermFrequencies_vector mlt table (Some vector)
                              fieldName) fieldName) k
          <= INT32_MAX
  /\ (String.eqb f' fieldName = false ->
      fieldMap (addTermFrequencies_vector mlt table (Some vector) fieldName) f'
      = fieldMap table f')
  /\ addTermFrequencies_vector mlt table None fieldName = table.
Proof.
  intros H0 Hpos Hfit.
  assert (Hsum : freqOf (fieldMap (addTermFrequencies_vector mlt table (Some vector)
                                     fieldName) fieldName) k
                 = freqOf (fieldMap table fieldName) k
                   + (if isNoiseWord mlt k then 0
                      else occurrences k
                             (combine (getTerms vector) (getTermFrequencies vector)))).
  { unfold addTermFrequencies_vector.
    rewrite fieldMap_put, freqOf_vectorLoop, fieldMap_ensureField. reflexivity. }
  split; [exact Hsum|]. split; [|split].
  - rewrite Hsum.
    pose proof (occurrences_nonneg k (combine (getTerms vector)
                                        (getTermFrequencies vector))) as Ho.
    assert (Hc : Forall (fun e : string * Z => 0 <= snd e)
                   (combine (getTerms vector) (getTermFrequencies vector))).
    { apply Forall_forall. intros [t n] Hin. simpl.
      rewrite Forall_forall in Hpos. apply Hpos.
      exact (in_combine_r _ _ _ _ Hin). }
    specialize (Ho Hc). destruct (isNoiseWord mlt k); lia.
  - intros H. unfold addTermFrequencies_vector.
    rewrite fieldMap_put_other, fieldMap_ensureField_other by exact H.
    reflexivity.
  - reflexivity.
Qed.

Lemma addTermFrequencies_vector_adds_witness :
  let vector := {| getTerms := ["a"; "the"; "a"]%string;
                   getTermFrequencies := [2; 5; 3] |} in
  0 <= freqOf (fieldMap [] "body") "a"
  /\ Forall (fun n => 0 <= n) (getTermFrequencies vector)
  /\ freqOf (fieldMap [] "body") "a"
     + occurrences "a" (combine (getTerms vector) (getTermFrequencies vector))
     <= INT32_MAX
  /\ freqOf (fieldMap (addTermFrequencies_vector exMoreLikeThis [] (Some vector)
                         "body") "body") "a"
     = 5.
Proof.
  intros vector.
  assert (H1 : 0 <= freqOf (fieldMap [] "body") "a") by (vm_compute; discriminate).
  assert (H2 : Forall (fun n => 0 <= n) (getTermFrequencies vector))
    by (repeat constructor; vm_compute; discriminate).
  assert (H3 : freqOf (fieldMap [] "body") "a"
               + occurrences "a" (combine (getTerms vector) (getTermFrequencies vector))
               <= INT32_MAX) by (vm_compute; discriminate).
  split; [exact H1|]. split; [exact H2|]. split; [exact H3|].
  exact (eq_trans
           (proj1 (addTermFrequencies_vector_adds exMoreLikeThis [] vector
                     "body"%string "title"%string "a"%string H1 H2 H3))
           ltac:(evaluate)).
Defined.

(** ** Token mode is vector mode on the tokens within the budget *)

Lemma tokenLoop_vectorLoop (mlt : MoreLikeThis) (ts : list string) :
  forall (tokenCount : Z) (m : HashMap Z),
  tokenLoop mlt ts tokenCount m
  = vectorLoop mlt
      (map (fun t => (t, 1))
         (firstn (Z.to_nat (maxNumTokensParsed mlt - tokenCount)) ts)) m.
Proof.
  induction ts as [|t ts IH]; intros tokenCount m; simpl.
  - rewrite firstn_nil. reflexivity.
  - destruct (maxNumTokensParsed mlt <? tokenCount + 1) eqn:E.
    + apply Z.ltb_lt in E.
      replace (Z.to_nat (maxNumTokensParsed mlt - tokenCount)) with 0%nat by lia.
      reflexivity.
    + apply Z.ltb_ge in E.
      replace (Z.to_nat (maxNumTokensParsed mlt - tokenCount))
        with (S (Z.to_nat (maxNumTokensParsed mlt - (tokenCount + 1)))) by lia.
      simpl. destruct (isNoiseWord mlt t); apply IH.
Qed.

(** The term vector of a token stream cut at [n] tokens: every token once. *)
Definition vectorOfTokens (n : Z) (ts : list string) : TermFreqVector :=
  {| getTerms := firstn (Z.to_nat n) ts;
     getTermFrequencies := map (fun _ => 1) (firstn (Z.to_nat n) ts) |}.

Lemma combine_ones (l : list string) :
  combine l (map (fun _ => 1) l) = map (fun t => (t, 1)) l.
Proof. induction l as [|t l IH]; simpl; [reflexivity|]. rewrite IH. reflexivity. Qed.

Lemma token_mode_is_vector_mode_aux (mlt : MoreLikeThis) (azr : Analyzer) (r : Reader)
  (table : FrequencyTable) (fieldName : string) :
  analyzer mlt = Some azr ->
  addTermFrequencies_reader mlt r table fieldName
  = (Ok tt,
     addTermFrequencies_vector mlt table
       (Some (vectorOfTokens (maxNumTokensParsed mlt) (azr fieldName r))) fieldName).
Proof.
  intros Ha. unfold addTermFrequencies_reader, addTermFrequencies_vector.
  rewrite Ha. simpl getTerms. simpl getTermFrequencies.
  rewrite combine_ones, tokenLoop_vectorLoop, Z.sub_0_r. reflexivity.
Qed.

(** X3.  With an analyzer set, token mode does to the table what vector
    mode does with the vector of the first [maxNumTokensParsed] tokens of
    the stream, each with the frequency 1: the tokens after these have no
    effect, and the noise filter is the same in both modes. *)
Theorem token_mode_is_vector_mode (mlt : MoreLikeThis) (azr : Analyzer) (r : Reader)
  (table : FrequencyTable) (fieldName : string) :
  analyzer mlt = Some azr ->
  addTermFrequencies_reader mlt r table fieldName
  = (Ok tt,
     addTermFrequencies_vector mlt table
       (Some (vectorOfTokens (maxNumTokensParsed mlt) (azr fieldName r))) fieldName).
Proof.
  intros Ha. unfold addTermFrequencies_reader, addTermFrequencies_vector.
  rewrite Ha. simpl getTerms. simpl getTermFrequencies.
  rewrite combine_ones, tokenLoop_vectorLoop, Z.sub_0_r. reflexivity.
Qed.

Lemma token_mode_is_vector_mode_witness :
  analyzer exMoreLikeThis = Some whitespaceAnalyzer
  /\ addTermFrequencies_reader (setMaxNumTokensParsed exMoreLikeThis 2)
       "x the y z"%string [] "body"%string
     = (Ok tt,
        addTermFrequencies_vector (setMaxNumTokensParsed exMoreLikeThis 2) []
          (Some (vectorOfTokens 2 ["x"; "the"; "y"; "z"]%string)) "body"%string).
Proof.
  split; [reflexivity|].
  exact (token_mode_is_vector_mode (setMaxNumTokensParsed exMoreLikeThis 2)
           whitespaceAnalyzer "x the y z"%string [] "body"%string eq_refl).
Defined.

(** ** What the accumulators keep true of the table *)

Lemma HashMap_put_Forall {V : Type} (P : string * V -> Prop) (m : HashMap V)
  (k : string) (v : V) :
  Forall P m -> P (k, v) -> Forall P (HashMap_put m k v).
Proof.
  intros Hm Hk. induction m as [|[k0 v0] m IH]; simpl.
  - repeat constructor. exact Hk.
  - inversion Hm as [|? ? H0 Hm']; subst.
    destruct (String.eqb k k0) eqn:E.
    + apply String.eqb_eq in E. subst k0. constructor; assumption.
    + constructor; auto.
Qed.

Lemma HashMap_get_In {V : Type} (m : HashMap V) (k : string) (v : V) :
  HashMap_get m k = Some v -> In (k, v) m.
Proof.
  induction m as [|[k0 v0] m IH]; simpl; [discriminate|].
  destruct (String.eqb k k0) eqn:E.
  - apply String.eqb_eq in E. intros [= ->]. left. congruence.
  - intros H. right. auto.
Qed.

Lemma HashMap_get_None {V : Type} (m : HashMap V) (k : string) :
  HashMap_get m k = None -> ~ In k (map fst m).
Proof.
  induction m as [|[k0 v0] m IH]; simpl; [tauto|].
  destruct (String.eqb k k0) eqn:E; [discriminate|].
  intros H [Hk|Hk]; [|exact (IH H Hk)].
  subst k0. rewrite String.eqb_refl in E. discriminate E.
Qed.

Lemma HashMap_put_keys {V : Type} (m : HashMap V) (k : string) (v : V) :
  map fst (HashMap_put m k v)
  = if HashMap_contains m k then map fst m else map fst m ++ [k].
Proof.
  unfold HashMap_contains. induction m as [|[k0 v0] m IH]; simpl; [reflexivity|].
  destruct (String.eqb k k0) eqn:E; simpl; [reflexivity|].
  rewrite IH. destruct (HashMap_get m k); reflexivity.
Qed.

Lemma HashMap_put_NoDup {V : Type} (m : HashMap V) (k : string) (v : V) :
  NoDup (map fst m) -> NoDup (map fst (HashMap_put m k v)).
Proof.
  intros Hn. rewrite HashMap_put_keys. unfold HashMap_contains.
  destruct (HashMap_get m k) eqn:E; [exact Hn|].
  pose proof (HashMap_get_None m k E) as Hk.
  apply NoDup_app; [exact Hn|repeat constructor; intros []|].
  intros x Hx [<-|[]]. exact (Hk Hx).
Qed.

Lemma HashMap_put_put {V : Type} (m : HashMap V) (k : string) (v v' : V) :
  HashMap_put (HashMap_put m k v) k v' = HashMap_put m k v'.
Proof.
  induction m as [|[k0 v0] m IH]; simpl.
  - rewrite String.eqb_refl. reflexivity.
  - destruct (String.eqb k k0) eqn:E; simpl; rewrite E; [reflexivity|].
    rewrite IH. reflexivity.
Qed.

Lemma increment_put (m : HashMap Z) (k : string) (n : Z) :
  increment m k n = HashMap_put m k (freqOf m k + n).
Proof.
  unfold increment, HashMap_contains, freqOf.
  destruct (HashMap_get m k) as [old|] eqn:E; simpl.
  - rewrite E. reflexivity.
  - rewrite HashMap_get_put_same, HashMap_put_put. reflexivity.
Qed.

Lemma forEachAcc_invariant {A : Type} (Inv : FrequencyTable -> Prop)
  (body : A -> FrequencyTable -> Result unit * FrequencyTable) (l : list A) :
  (forall a table, In a l -> Inv table -> Inv (snd (body a table))) ->
  forall table, Inv table -> Inv (snd (forEachAcc body l table)).
Proof.
  induction l as [|a l IH]; intros Hb table Ht; simpl; [exact Ht|].
  pose proof (Hb a table (or_introl eq_refl) Ht) as H1.
  destruct (body a table) as [[u|e] table']; simpl in *.
  - apply IH; [|exact H1]. intros a' t' Ha'. apply Hb. right. exact Ha'.
  - exact H1.
Qed.

(** The entries of the table satisfy [Q], under fields that satisfy [R]. *)
Definition tableForall (R : string -> Prop) (Q : string * Z -> Prop)
  (table : FrequencyTable) : Prop :=
  Forall (fun it => R (fst it) /\ Forall Q (snd it)) table.

Lemma tableForall_fieldMap (R : string -> Prop) (Q : string * Z -> Prop)
  (table : FrequencyTable) (fieldName : string) :
  tableForall R Q table -> Forall Q (fieldMap table fieldName).
Proof.
  intros Ht. unfold fieldMap.
  destruct (HashMap_get table fieldName) as [m|] eqn:E; [|constructor].
  apply HashMap_get_In in E. unfold tableForall in Ht.
  rewrite Forall_forall in Ht. exact (proj2 (Ht _ E)).
Qed.

Lemma tableForall_ensureField (R : string -> Prop) (Q : string * Z -> Prop)
  (table : FrequencyTable) (fieldName : string) :
  R fieldName -> tableForall R Q table ->
  tableForall R Q (ensureField table fieldName).
Proof.
  intros HR Ht. unfold ensureField.
  destruct (negb (HashMap_contains table fieldName)); [|exact Ht].
  apply HashMap_put_Forall; [exact Ht|]. split; [exact HR|constructor].
Qed.

Lemma tableForall_update (R : string -> Prop) (Q : string * Z -> Prop)
  (table : FrequencyTable) (fieldName : string) (f : HashMap Z -> HashMap Z) :
  R fieldName -> (forall m, Forall Q m -> Forall Q (f m)) ->
  tableForall R Q table ->
  tableForall R Q
    (HashMap_put (ensureField table fieldName) fieldName
       (f (fieldMap (ensureField table fieldName) fieldName))).
Proof.
  intros HR Hf Ht.
  pose proof (tableForall_ensureField R Q table fieldName HR Ht) as He.
  apply HashMap_put_Forall; [exact He|]. split; [exact HR|].
  apply Hf. exact (tableForall_fieldMap R Q _ fieldName He).
Qed.

Lemma vectorLoop_Forall (mlt : MoreLikeThis) (T : string -> Prop)
  (entries : list (string * Z)) :
  Forall (fun e => T (fst e)) entries ->
  forall m,
  Forall (fun wt => isNoiseWord mlt (fst wt) = false /\ T (fst wt)) m ->
  Forall (fun wt => isNoiseWord mlt (fst wt) = false /\ T (fst wt))
    (vectorLoop mlt entries m).
Proof.
  induction entries as [|[term freq] entries IH]; intros He m Hm; simpl;
    [exact Hm|].
  inversion He as [|? ? Ht He']; subst. simpl in Ht.
  destruct (isNoiseWord mlt term) eqn:En; [auto|].
  apply IH; [exact He'|]. rewrite increment_put.
  apply HashMap_put_Forall; [exact Hm|]. simpl. auto.
Qed.

Lemma vectorLoop_NoDup (mlt : MoreLikeThis) (entries : list (string * Z)) :
  forall m, NoDup (map fst m) -> NoDup (map fst (vectorLoop mlt entries m)).
Proof.
  induction entries as [|[term freq] entries IH]; intros m Hm; simpl; [exact Hm|].
  destruct (isNoiseWord mlt term); [auto|].
  apply IH. rewrite increment_put. apply HashMap_put_NoDup. exact Hm.
Qed.

(** The keys of the table are field names that satisfy [R], and the keys of
    its maps are terms that are no noise words and satisfy [T]. *)
Definition cleanTable (mlt : MoreLikeThis) (R T : string -> Prop)
  (table : FrequencyTable) : Prop :=
  tableForall R (fun wt => isNoiseWord mlt (fst wt) = false /\ T (fst wt)) table.

Lemma addTermFrequencies_vector_clean (mlt : MoreLikeThis) (R T : string -> Prop)
  (table : FrequencyTable) (vector : option TermFreqVector) (fieldName : string) :
  R fieldName ->
  (forall v, vector = Some v -> Forall T (getTerms v)) ->
  cleanTable mlt R T table ->
  cleanTable mlt R T (addTermFrequencies_vector mlt table vector fieldName).
Proof.
  intros HR HT Ht. unfold addTermFrequencies_vector.
  destruct vector as [v|]; [|exact Ht].
  apply (tableForall_update R _ table fieldName
           (vectorLoop mlt (combine (getTerms v) (getTermFrequencies v))));
    [exact HR| |exact Ht].
  apply vectorLoop_Forall.
  specialize (HT v eq_refl). rewrite Forall_forall in *.
  intros [t n] Hin. simpl. apply HT. exact (in_combine_l _ _ _ _ Hin).
Qed.

Lemma In_firstn {A : Type} (n : nat) (l : list A) (x : A) :
  In x (firstn n l) -> In x l.
Proof.
  revert l. induction n as [|n IH]; intros [|a l]; simpl; try tauto.
  intros [H|H]; auto.
Qed.

Lemma addTermFrequencies_reader_clean (mlt : MoreLikeThis) (R T : string -> Prop)
  (r : Reader) (table : FrequencyTable) (fieldName : string) :
  R fieldName ->
  (forall azr, analyzer mlt = Some azr -> Forall T (azr fieldName r)) ->
  cleanTable mlt R T table ->
  cleanTable mlt R T (snd (addTermFrequencies_reader mlt r table fieldName)).
Proof.
  intros HR HT Ht. destruct (analyzer mlt) as [azr|] eqn:Ea.
  - rewrite (token_mode_is_vector_mode_aux mlt azr r table fieldName Ea).
    cbn [snd].
    apply addTermFrequencies_vector_clean; [exact HR| |exact Ht].
    intros v [= <-]. cbn [getTerms vectorOfTokens]. specialize (HT azr eq_refl).
    rewrite Forall_forall in *. intros t Hin. apply HT.
    exact (In_firstn _ _ _ Hin).
  - unfold addTermFrequencies_reader. rewrite Ea. exact Ht.
Qed.

Lemma freqOf_nonneg (m : HashMap Z) (k : string) :
  Forall (fun wt => 1 <= snd wt) m -> 0 <= freqOf m k.
Proof.
  intros Hm. unfold freqOf. destruct (HashMap_get m k) as [n|] eqn:E; [|lia].
  apply HashMap_get_In in E. rewrite Forall_forall in Hm.
  specialize (Hm _ E). simpl in Hm. lia.
Qed.

Lemma vectorLoop_positive (mlt : MoreLikeThis) (entries : list (string * Z)) :
  Forall (fun e => 1 <= snd e) entries ->
  forall m, Forall (fun wt => 1 <= snd wt) m ->
  Forall (fun wt => 1 <= snd wt) (vectorLoop mlt entries m).
Proof.
  induction entries as [|[term freq] entries IH]; intros He m Hm; simpl;
    [exact Hm|].
  inversion He as [|? ? Hf He']; subst. simpl in Hf.
  destruct (isNoiseWord mlt term); [auto|].
  apply IH; [exact He'|]. rewrite increment_put.
  apply HashMap_put_Forall; [exact Hm|]. simpl.
  pose proof (freqOf_nonneg m term Hm). lia.
Qed.

Lemma addTermFrequencies_reader_positive (mlt : MoreLikeThis) (r : Reader)
  (table : FrequencyTable) (fieldName : string) :
  tableForall (fun _ => True) (fun wt => 1 <= snd wt) table ->
  tableForall (fun _ => True) (fun wt => 1 <= snd wt)
    (snd (addTermFrequencies_reader mlt r table fieldName)).
Proof.
  intros Ht. destruct (analyzer mlt) as [azr|] eqn:Ea.
  - rewrite (token_mode_is_vector_mode_aux mlt azr r table fieldName Ea).
    cbn [snd]. unfold addTermFrequencies_vector.
    apply (tableForall_update (fun _ => True) _ table fieldName
             (vectorLoop mlt (combine
                (getTerms (vectorOfTokens (maxNumTokensParsed mlt) (azr fieldName r)))
                (getTermFrequencies
                   (vectorOfTokens (maxNumTokensParsed mlt) (azr fieldName r))))));
      [exact I| |exact Ht].
    apply vectorLoop_positive. cbn [getTerms getTermFrequencies vectorOfTokens].
    rewrite combine_ones. apply Forall_forall. intros e He.
    apply in_map_iff in He. destruct He as (t & <- & _). simpl. lia.
  - unfold addTermFrequencies_reader. rewrite Ea. exact Ht.
Qed.

Lemma tableForall_In (R : string -> Prop) (Q : string * Z -> Prop)
  (table : FrequencyTable) (f : string) (m : HashMap Z) (w : string) (tf : Z) :
  tableForall R Q table -> In (f, m) table -> In (w, tf) m -> R f /\ Q (w, tf).
Proof.
  unfold tableForall. rewrite Forall_forall. intros Ht Hm Hw.
  destruct (Ht _ Hm) as [HR HQ]. rewrite Forall_forall in HQ.
  split; [exact HR|exact (HQ _ Hw)].
Qed.

Lemma accumulate_docNum_clean (mlt : MoreLikeThis) (docNum : Z) :
  cleanTable mlt (fun f => In f (fieldNames mlt)) (fun _ => True)
    (snd (accumulate_docNum mlt docNum)).
Proof.
  unfold accumulate_docNum. apply forEachAcc_invariant; [|constructor].
  intros fieldName table Hf Ht. unfold retrieveTerms_field.
  destruct (getTermFreqVector (reader mlt) docNum fieldName) as [v|].
  - cbn [snd]. apply addTermFrequencies_vector_clean; [exact Hf| |exact Ht].
    intros v' _. apply Forall_forall. intros; exact I.
  - apply forEachAcc_invariant; [|exact Ht].
    intros r t _ Ht'. apply addTermFrequencies_reader_clean; [exact Hf| |exact Ht'].
    intros azr _. apply Forall_forall. intros; exact I.
Qed.

(** X4.  In the table [retrieveTerms(docNum)] builds, whether it builds it
    to the end or an accumulator throws on the way, every field is one of
    the configured field names and no term is a noise word; both modes of
    accumulation filter alike. *)
Theorem accumulate_docNum_holds_no_noise (mlt : MoreLikeThis) (docNum : Z)
  (f : string) (m : HashMap Z) (w : string) (tf : Z) :
  In (f, m) (snd (accumulate_docNum mlt docNum)) -> In (w, tf) m ->
  In f (fieldNames mlt) /\ isNoiseWord mlt w = false.
Proof.
  intros Hm Hw.
  destruct (tableForall_In _ _ _ f m w tf (accumulate_docNum_clean mlt docNum) Hm Hw)
    as [HR [HQ _]].
  split; assumption.
Qed.

Lemma accumulate_docNum_holds_no_noise_witness :
  In ("body"%string, [("x", 1); ("y", 1); ("u", 1); ("v", 1)]%string)
    (snd (accumulate_docNum
            (setFieldNames (setMaxNumTokensParsed exMoreLikeThis 2) ["body"%string]) 7))
  /\ In ("y"%string, 1) [("x", 1); ("y", 1); ("u", 1); ("v", 1)]%string
  /\ isNoiseWord (setFieldNames (setMaxNumTokensParsed exMoreLikeThis 2)
                    ["body"%string]) "y"%string = false.
Proof.
  assert (H1 : In ("body"%string, [("x", 1); ("y", 1); ("u", 1); ("v", 1)]%string)
                 (snd (accumulate_docNum
                         (setFieldNames (setMaxNumTokensParsed exMoreLikeThis 2)
                            ["body"%string]) 7)))
    by (left; evaluate).
  assert (H2 : In ("y"%string, 1) [("x", 1); ("y", 1); ("u", 1); ("v", 1)]%string)
    by (right; left; reflexivity).
  split; [exact H1|]. split; [exact H2|].
  exact (proj2 (accumulate_docNum_holds_no_noise _ _ _ _ _ _ H1 H2)).
Defined.

Lemma accumulate_readers_clean (mlt : MoreLikeThis) (fieldName : string)
  (readers : list Reader) :
  cleanTable mlt (fun f => f = fieldName)
    (fun w => exists azr r,
                analyzer mlt = Some azr /\ In r readers /\ In w (azr fieldName r))
    (snd (accumulate_readers mlt fieldName readers)).
Proof.
  unfold accumulate_readers. apply forEachAcc_invariant; [|constructor].
  intros r table Hr Ht.
  apply addTermFrequencies_reader_clean; [reflexivity| |exact Ht].
  intros azr Ha. apply Forall_forall. intros t Hin. exists azr, r. auto.
Qed.

Lemma accumulate_readers_positive (mlt : MoreLikeThis) (fieldName : string)
  (readers : list Reader) :
  tableForall (fun _ => True) (fun wt => 1 <= snd wt)
    (snd (accumulate_readers mlt fieldName readers)).
Proof.
  unfold accumulate_readers. apply forEachAcc_invariant; [|constructor].
  intros r table _ Ht. apply addTermFrequencies_reader_positive. exact Ht.
Qed.

(** X5.  In the table [retrieveTerms(fieldName, readers)] builds the only
    field is [fieldName]; every term under it is a token that the analyzer
    delivered for one of the readers and that is no noise word, and its
    frequency is at least 1. *)
Theorem accumulate_readers_entries (mlt : MoreLikeThis) (fieldName : string)
  (readers : list Reader) (f : string) (m : HashMap Z) (w : string) (tf : Z) :
  In (f, m) (snd (accumulate_readers mlt fieldName readers)) -> In (w, tf) m ->
  f = fieldName
  /\ isNoiseWord mlt w = false
  /\ (exists azr r,
        analyzer mlt = Some azr /\ In r readers /\ In w (azr fieldName r))
  /\ 1 <= tf.
Proof.
  intros Hm Hw.
  destruct (tableForall_In _ _ _ f m w tf
              (accumulate_readers_clean mlt fieldName readers) Hm Hw)
    as [HR [HQ HT]].
  destruct (tableForall_In _ _ _ f m w tf
              (accumulate_readers_positive mlt fieldName readers) Hm Hw)
    as [_ Hpos].
  simpl in HQ, Hpos. auto.
Qed.

Lemma accumulate_readers_entries_witness :
  In ("body"%string, [("x", 1); ("y", 1); ("u", 1); ("v", 1)]%string)
    (snd (accumulate_readers (setMaxNumTokensParsed exMoreLikeThis 2) "body"%string
            ["x y z"; "u v w"]%string))
  /\ In ("u"%string, 1) [("x", 1); ("y", 1); ("u", 1); ("v", 1)]%string
  /\ isNoiseWord (setMaxNumTokensParsed exMoreLikeThis 2) "u"%string = false.
Proof.
  assert (H1 : In ("body"%string, [("x", 1); ("y", 1); ("u", 1); ("v", 1)]%string)
                 (snd (accumulate_readers (setMaxNumTokensParsed exMoreLikeThis 2)
                         "body"%string ["x y z"; "u v w"]%string)))
    by (left; evaluate).
  assert (H2 : In ("u"%string, 1) [("x", 1); ("y", 1); ("u", 1); ("v", 1)]%string)
    by (right; right; left; reflexivity).
  split; [exact H1|]. split; [exact H2|].
  exact (proj1 (proj2 (accumulate_readers_entries _ _ _ _ _ _ _ H1 H2))).
Defined.

(** ** The keys of the table stay distinct *)

Lemma uniqueKeys_update (table : FrequencyTable) (fieldName : string)
  (f : HashMap Z -> HashMap Z) :
  (forall m, NoDup (map fst m) -> NoDup (map fst (f m))) ->
  uniqueKeys table ->
  uniqueKeys
    (HashMap_put (ensureField table fieldName) fieldName
       (f (fieldMap (ensureField table fieldName) fieldName))).
Proof.
  intros Hf [Hk Hm].
  assert (He : uniqueKeys (ensureField table fieldName)).
  { unfold ensureField. destruct (negb (HashMap_contains table fieldName));
      [|split; assumption].
    split; [apply HashMap_put_NoDup; exact Hk|].
    apply HashMap_put_Forall; [exact Hm|]. simpl. constructor. }
  destruct He as [Hk' Hm']. split; [apply HashMap_put_NoDup; exact Hk'|].
  apply HashMap_put_Forall; [exact Hm'|]. simpl. apply Hf.
  unfold fieldMap.
  destruct (HashMap_get (ensureField table fieldName) fieldName) as [m|] eqn:E;
    [|constructor].
  apply HashMap_get_In in E. rewrite Forall_forall in Hm'. exact (Hm' _ E).
Qed.

Lemma addTermFrequencies_vector_uniqueKeys (mlt : MoreLikeThis)
  (table : FrequencyTable) (vector : option TermFreqVector) (fieldName : string) :
  uniqueKeys table ->
  uniqueKeys (addTermFrequencies_vector mlt table vector fieldName).
Proof.
  intros Hu. unfold addTermFrequencies_vector. destruct vector as [v|]; [|exact Hu].
  apply (uniqueKeys_update table fieldName
           (vectorLoop mlt (combine (getTerms v) (getTermFrequencies v))));
    [|exact Hu].
  intros m. apply vectorLoop_NoDup.
Qed.

Lemma addTermFrequencies_reader_uniqueKeys (mlt : MoreLikeThis) (r : Reader)
  (table : FrequencyTable) (fieldName : string) :
  uniqueKeys table ->
  uniqueKeys (snd (addTermFrequencies_reader mlt r table fieldName)).
Proof.
  intros Hu. destruct (analyzer mlt) as [azr|] eqn:Ea.
  - rewrite (token_mode_is_vector_mode_aux mlt azr r table fieldName Ea).
    cbn [snd]. apply addTermFrequencies_vector_uniqueKeys. exact Hu.
  - unfold addTermFrequencies_reader. rewrite Ea. exact Hu.
Qed.

Lemma uniqueKeys_nil : uniqueKeys [].
Proof. split; constructor. Qed.

Lemma accumulate_docNum_uniqueKeys (mlt : MoreLikeThis) (docNum : Z) :
  uniqueKeys (snd (accumulate_docNum mlt docNum)).
Proof.
  unfold accumulate_docNum. apply forEachAcc_invariant; [|exact uniqueKeys_nil].
  intros f table _ Ht. unfold retrieveTerms_field.
  destruct (getTermFreqVector (reader mlt) docNum f) as [v|].
  - cbn [snd]. apply addTermFrequencies_vector_uniqueKeys. exact Ht.
  - apply forEachAcc_invariant; [|exact Ht].
    intros r' t _ Ht'. apply addTermFrequencies_reader_uniqueKeys. exact Ht'.
Qed.

Lemma accumulate_readers_uniqueKeys (mlt : MoreLikeThis) (fieldName : string)
  (readers : list Reader) :
  uniqueKeys (snd (accumulate_readers mlt fieldName readers)).
Proof.
  unfold accumulate_readers. apply forEachAcc_invariant; [|exact uniqueKeys_nil].
  intros r' t _ Ht'. apply addTermFrequencies_reader_uniqueKeys. exact Ht'.
Qed.

(** X6.  The tables the accumulators build have distinct field names and,
    under each field, distinct terms: a term met again adds to its entry
    and never opens a second one.  These are the tables [createQueue] is
    given. *)
Theorem accumulated_tables_have_unique_keys (mlt : MoreLikeThis) (docNum : Z)
  (fieldName : string) (readers : list Reader) (r : Reader) :
  uniqueKeys (snd (accumulate_docNum mlt docNum))
  /\ uniqueKeys (snd (accumulate_readers mlt fieldName readers))
  /\ uniqueKeys (snd (addTermFrequencies_reader mlt r [] fieldName)).
Proof.
  split; [|split].
  - apply accumulate_docNum_uniqueKeys.
  - apply accumulate_readers_uniqueKeys.
  - apply addTermFrequencies_reader_uniqueKeys. exact uniqueKeys_nil.
Qed.

(** ** When an analyzer is needed *)

Lemma forEachAcc_readers_Some (mlt : MoreLikeThis) (azr : Analyzer)
  (fieldName : string) (rs : list Reader) :
  analyzer mlt = Some azr ->
  forall table,
  fst (forEachAcc (fun it t => addTermFrequencies_reader mlt it t fieldName) rs table)
  = Ok tt.
Proof.
  intros Ha. induction rs as [|r rs IH]; intros table; simpl; [reflexivity|].
  rewrite (token_mode_is_vector_mode_aux mlt azr r table fieldName Ha). apply IH.
Qed.

Lemma forEachAcc_readers_None (mlt : MoreLikeThis) (fieldName : string)
  (r : Reader) (rs : list Reader) (table : FrequencyTable) :
  analyzer mlt = None ->
  forEachAcc (fun it t => addTermFrequencies_reader mlt it t fieldName) (r :: rs) table
  = (Throw analyzerRequired, table).
Proof.
  intros Ha. simpl. unfold addTermFrequencies_reader. rewrite Ha. reflexivity.
Qed.

(** X7.  [retrieveTerms(fieldName, readers)] fails for want of an analyzer
    exactly when none is set and there is at least one reader: without
    readers nothing is tokenized and nothing is thrown.  When it fails, it
    fails at the first reader, with the table still empty. *)
Theorem accumulate_readers_throws_iff (mlt : MoreLikeThis) (fieldName : string)
  (readers : list Reader) :
  ((exists e, fst (accumulate_readers mlt fieldName readers) = Throw e)
   <-> analyzer mlt = None /\ readers <> [])
  /\ (forall e, fst (accumulate_readers mlt fieldName readers) = Throw e ->
      accumulate_readers mlt fieldName readers = (Throw analyzerRequired, [])).
Proof.
  unfold accumulate_readers. destruct (analyzer mlt) as [azr|] eqn:Ea.
  - pose proof (forEachAcc_readers_Some mlt azr fieldName readers Ea []) as H.
    split; [split|].
    + intros [e He]. congruence.
    + intros [Hn _]. discriminate Hn.
    + intros e He. congruence.
  - destruct readers as [|r rs].
    + simpl. split; [split|].
      * intros [e He]. discriminate He.
      * intros [_ Hn]. congruence.
      * intros e He. discriminate He.
    + rewrite (forEachAcc_readers_None mlt fieldName r rs [] Ea).
      split; [split|].
      * intros _. split; [reflexivity|discriminate].
      * intros _. eexists. reflexivity.
      * intros e _. reflexivity.
Qed.

(** The field has no term vector in the document, and a stored value: its
    text has to be tokenized. *)
Definition needsAnalyzer (mlt : MoreLikeThis) (docNum : Z) (fieldName : string) : bool :=
  match getTermFreqVector (reader mlt) docNum fieldName with
  | Some _ => false
  | None =>
      match getValues (document (reader mlt) docNum) fieldName with
      | [] => false
      | _ :: _ => true
      end
  end.

Lemma retrieveTerms_field_outcome (mlt : MoreLikeThis) (docNum : Z)
  (fieldName : string) (table : FrequencyTable) :
  fst (retrieveTerms_field mlt docNum fieldName table)
  = match analyzer mlt with
    | Some _ => Ok tt
    | None => if needsAnalyzer mlt docNum fieldName then Throw analyzerRequired
              else Ok tt
    end.
Proof.
  unfold retrieveTerms_field, needsAnalyzer. cbv zeta.
  destruct (getTermFreqVector (reader mlt) docNum fieldName) as [v|].
  - destruct (analyzer mlt); reflexivity.
  - destruct (analyzer mlt) as [azr|] eqn:Ea.
    + apply (forEachAcc_readers_Some mlt azr fieldName _ Ea).
    + destruct (getValues (document (reader mlt) docNum) fieldName) as [|r rs];
        [reflexivity|].
      exact (f_equal fst (forEachAcc_readers_None mlt fieldName r rs table Ea)).
Qed.

Lemma forEachAcc_outcome {A : Type}
  (body : A -> FrequencyTable -> Result unit * FrequencyTable)
  (fails : A -> bool) (e : LuceneException) (l : list A) :
  (forall a table, fst (body a table) = if fails a then Throw e else Ok tt) ->
  forall table,
  fst (forEachAcc body l table) = if existsb fails l then Throw e else Ok tt.
Proof.
  intros Hb. induction l as [|a l IH]; intros table; simpl; [reflexivity|].
  pose proof (Hb a table) as Ha.
  destruct (body a table) as [[u|e'] table']; simpl in Ha;
    destruct (fails a); simpl; solve [congruence | apply IH].
Qed.

(** X8.  [retrieveTerms(docNum)] needs the analyzer only for a configured
    field that has no term vector in the document and has a stored value:
    it throws exactly when no analyzer is set and there is such a field,
    and what it throws is the request for an analyzer.  Fields with term
    vectors, and fields without stored values, never ask for one. *)
Theorem accumulate_docNum_throws_iff (mlt : MoreLikeThis) (docNum : Z) :
  ((exists e, fst (accumulate_docNum mlt docNum) = Throw e)
   <-> analyzer mlt = None
       /\ existsb (needsAnalyzer mlt docNum) (fieldNames mlt) = true)
  /\ (forall e, fst (accumulate_docNum mlt docNum) = Throw e ->
      e = analyzerRequired).
Proof.
  unfold accumulate_docNum.
  pose proof (forEachAcc_outcome (retrieveTerms_field mlt docNum)
                (fun f => match analyzer mlt with
                          | Some _ => false
                          | None => needsAnalyzer mlt docNum f
                          end)
                analyzerRequired (fieldNames mlt)) as H.
  assert (Hb : forall a table,
             fst (retrieveTerms_field mlt docNum a table)
             = if match analyzer mlt with
                  | Some _ => false
                  | None => needsAnalyzer mlt docNum a
                  end
               then Throw analyzerRequired else Ok tt).
  { intros a table. rewrite retrieveTerms_field_outcome.
    destruct (analyzer mlt); reflexivity. }
  specialize (H Hb []). rewrite H. clear H Hb.
  destruct (analyzer mlt) as [azr|].
  - assert (He : existsb (fun _ : string => false) (fieldNames mlt) = false).
    { induction (fieldNames mlt); simpl; auto. }
    rewrite He. split; [split|].
    + intros [e H]. discriminate H.
    + intros [H _]. discriminate H.
    + intros e H. discriminate H.
  - destruct (existsb (needsAnalyzer mlt docNum) (fieldNames mlt)).
    + split; [split|].
      * intros _. split; reflexivity.
      * intros _. eexists; reflexivity.
      * intros e [= <-]. reflexivity.
    + split; [split|].
      * intros [e H]. discriminate H.
      * intros [_ H]. discriminate H.
      * intros e H. discriminate H.
Qed.

(** ** The document-frequency limit as a percentage *)

(** X9.  After [setMaxDocFreqPct(pct)], for a percentage and a corpus size
    that are not negative (and whose product fits in 32 bits), a term is
    over the limit exactly when it occurs in more than [pct] percent of
    the documents: [100 * docFreq > pct * numDocs].  Such a term is never
    scored.  The call changes no other parameter. *)
Theorem setMaxDocFreqPct_is_a_percentage (mlt : MoreLikeThis) (pct : Z)
  (fieldName word : string) (tf : Z) :
  0 <= pct -> 0 <= numDocs (reader mlt) ->
  pct * numDocs (reader mlt) <= INT32_MAX ->
  let mlt' := setMaxDocFreqPct mlt pct in
  let df := docFreq (reader mlt) (newTerm fieldName word) in
  ((maxDocFreq mlt' <? df) = true <-> pct * numDocs (reader mlt) < 100 * df)
  /\ (pct * numDocs (reader mlt) < 100 * df ->
      scoreTerm mlt' (numDocs (reader mlt')) fieldName word tf = None)
  /\ setMaxDocFreq mlt' (maxDocFreq mlt) = mlt.
Proof.
  intros Hp Hn _ mlt' df.
  assert (Hq : maxDocFreq mlt' = pct * numDocs (reader mlt) / 100).
  { unfold mlt', setMaxDocFreqPct; simpl. apply Z.quot_div_nonneg; lia. }
  assert (Hiff : (maxDocFreq mlt' <? df) = true
                 <-> pct * numDocs (reader mlt) < 100 * df).
  { rewrite Z.ltb_lt, Hq.
    pose proof (Z.div_mod (pct * numDocs (reader mlt)) 100 ltac:(lia)) as Hd.
    pose proof (Z.mod_pos_bound (pct * numDocs (reader mlt)) 100 ltac:(lia)) as Hm.
    lia. }
  split; [exact Hiff|]. split.
  - intros Hlt. apply Hiff in Hlt. unfold scoreTerm.
    destruct ((0 <? minTermFreq mlt') && (tf <? minTermFreq mlt')); [reflexivity|].
    simpl reader. fold df.
    destruct ((0 <? minDocFreq mlt') && (df <? minDocFreq mlt')); [reflexivity|].
    rewrite Hlt. reflexivity.
  - unfold mlt', setMaxDocFreqPct, setMaxDocFreq; simpl. destruct mlt; reflexivity.
Qed.

Lemma setMaxDocFreqPct_is_a_percentage_witness :
  0 <= 50 /\ 0 <= numDocs (reader exMoreLikeThis)
  /\ 50 * numDocs (reader exMoreLikeThis) <= INT32_MAX
  /\ maxDocFreq (setMaxDocFreqPct exMoreLikeThis 50) = 50
  /\ ((maxDocFreq (setMaxDocFreqPct exMoreLikeThis 50)
       <? docFreq (reader exMoreLikeThis) (newTerm "body" "a")) = true
      <-> 50 * numDocs (reader exMoreLikeThis)
          < 100 * docFreq (reader exMoreLikeThis) (newTerm "body" "a")).
Proof.
  assert (H1 : 0 <= 50) by lia.
  assert (H2 : 0 <= numDocs (reader exMoreLikeThis)) by (simpl; lia).
  assert (H3 : 50 * numDocs (reader exMoreLikeThis) <= INT32_MAX)
    by (vm_compute; discriminate).
  split; [exact H1|]. split; [exact H2|]. split; [exact H3|].
  split; [reflexivity|].
  exact (proj1 (setMaxDocFreqPct_is_a_percentage exMoreLikeThis 50
                  "body"%string "a"%string 0 H1 H2 H3)).
Defined.

(** ** A freshly constructed object *)

Lemma HashSet_contains_In (s : HashSet) (k : string) :
  HashSet_contains s k = true <-> In k s.
Proof.
  unfold HashSet_contains. rewrite existsb_exists. split.
  - intros (x & Hx & E). apply String.eqb_eq in E. subst x. exact Hx.
  - intros H. exists k. split; [exact H|apply String.eqb_refl].
Qed.

(** X10.  An object as the constructor leaves it takes no word for a
    noise word, has no analyzer and no boosting, and scores exactly the
    terms that occur at least twice in the source and in at least five
    documents (the document frequency being a 32-bit number, the upper
    limit excludes nothing). *)
Theorem constructor_defaults (ir : IndexReader) (sim : Similarity)
  (fieldName word : string) (tf : Z) :
  docFreq ir (newTerm fieldName word) <= INT32_MAX ->
  (forall t, isNoiseWord (newMoreLikeThis ir sim) t = false)
  /\ analyzer (newMoreLikeThis ir sim) = None
  /\ hasBoost (newMoreLikeThis ir sim) = false
  /\ (scoreTerm (newMoreLikeThis ir sim) (numDocs ir) fieldName word tf = None
      <-> tf < 2 \/ docFreq ir (newTerm fieldName word) < 5).
Proof.
  intros Hdf. split; [|split; [|split]]; try reflexivity.
  unfold scoreTerm; simpl.
  unfold DEFAULT_MIN_TERM_FREQ, DEFAULT_MIN_DOC_FREQ, DEFAULT_MAX_DOC_FREQ.
  change (0 <? 2) with true. change (0 <? 5) with true. simpl andb.
  destruct (tf <? 2) eqn:E1.
  { apply Z.ltb_lt in E1. split; auto. }
  apply Z.ltb_ge in E1.
  destruct (docFreq ir (newTerm fieldName word) <? 5) eqn:E2.
  { apply Z.ltb_lt in E2. split; auto. }
  apply Z.ltb_ge in E2.
  destruct (INT32_MAX <? docFreq ir (newTerm fieldName word)) eqn:E3.
  { apply Z.ltb_lt in E3. lia. }
  destruct (docFreq ir (newTerm fieldName word) =? 0) eqn:E4.
  { apply Z.eqb_eq in E4. lia. }
  split; [discriminate|lia].
Qed.

Lemma constructor_defaults_witness :
  docFreq exReader (newTerm "body" "a") <= INT32_MAX
  /\ (scoreTerm (newMoreLikeThis exReader exSimilarity) (numDocs exReader)
        "body" "a" 7 = None
      <-> 7 < 2 \/ docFreq exReader (newTerm "body" "a") < 5).
Proof.
  assert (H1 : docFreq exReader (newTerm "body" "a") <= INT32_MAX)
    by (vm_compute; discriminate).
  split; [exact H1|].
  exact (proj2 (proj2 (proj2 (constructor_defaults exReader exSimilarity
                                "body"%string "a"%string 7 H1)))).
Defined.

(** ** The limits of the noise filter *)

(** X11.  A word-length limit that is zero or negative is switched off:
    with both limits so, only the stop words are noise.  A stop word is
    noise whatever the limits.  And with a maximum length that is positive
    and below the minimum length every word is noise. *)
Theorem isNoiseWord_limits (mlt : MoreLikeThis) (term : string) :
  (minWordLen mlt <= 0 -> maxWordLen mlt <= 0 ->
   (isNoiseWord mlt term = true <-> In term (stopWords mlt)))
  /\ (In term (stopWords mlt) -> isNoiseWord mlt term = true)
  /\ (0 < maxWordLen mlt < minWordLen mlt -> isNoiseWord mlt term = true).
Proof.
  unfold isNoiseWord. split; [|split].
  - intros Hmin Hmax.
    replace (0 <? minWordLen mlt) with false by (symmetry; apply Z.ltb_ge; lia).
    replace (0 <? maxWordLen mlt) with false by (symmetry; apply Z.ltb_ge; lia).
    simpl. apply HashSet_contains_In.
  - intros Hin. apply HashSet_contains_In in Hin. rewrite Hin.
    destruct ((0 <? minWordLen mlt)
              && (Z.of_nat (String.length term) <? minWordLen mlt)); [reflexivity|].
    destruct ((0 <? maxWordLen mlt)
              && (maxWordLen mlt <? Z.of_nat (String.length term))); reflexivity.
  - intros [Hmax Hlt].
    replace (0 <? minWordLen mlt) with true by (symmetry; apply Z.ltb_lt; lia).
    replace (0 <? maxWordLen mlt) with true by (symmetry; apply Z.ltb_lt; lia).
    simpl.
    destruct (Z.of_nat (String.length term) <? minWordLen mlt) eqn:E1;
      [reflexivity|].
    apply Z.ltb_ge in E1.
    replace (maxWordLen mlt <? Z.of_nat (String.length term)) with true
      by (symmetry; apply Z.ltb_lt; lia).
    reflexivity.
Qed.

(** ** [compareTo] *)

Lemma is_nan_SF (x : float) : is_nan x = true -> Prim2SF x = S754_nan.
Proof.
  unfold is_nan. rewrite eqb_spec. unfold SFeqb.
  destruct (Prim2SF x) as [s|s| |s m e]; simpl; try reflexivity.
  - discriminate.
  - destruct s; discriminate.
  - rewrite Z.compare_refl, Pos.compare_cont_refl. destruct s; discriminate.
Qed.

Lemma SFcompare_nan_r (x : spec_float) : SFcompare x S754_nan = None.
Proof. destruct x; reflexivity. Qed.

Lemma nan_compares_false (x y : float) :
  is_nan x = true ->
  (x =? y)%float = false /\ (y =? x)%float = false
  /\ (x <? y)%float = false /\ (y <? x)%float = false.
Proof.
  intros Hx. apply is_nan_SF in Hx.
  rewrite !eqb_spec, !ltb_spec. unfold SFeqb, SFltb.
  rewrite Hx, SFcompare_nan_r. simpl. auto.
Qed.

(** X12.  When the score of either entry is a NaN, [compareTo] returns 0
    and [lessThan] is false in both directions: the comparison neither
    places the entry below nor above any other, whatever the terms. *)
Theorem compareTo_with_NaN (a b : TermScore) :
  is_nan (score a) = true \/ is_nan (score b) = true ->
  TermScore_compareTo a (Some b) = 0
  /\ TermScore_compareTo b (Some a) = 0
  /\ lessThan a b = false /\ lessThan b a = false.
Proof.
  assert (H : forall x y : TermScore, is_nan (score x) = true ->
              TermScore_compareTo x (Some y) = 0
              /\ TermScore_compareTo y (Some x) = 0).
  { intros x y Hx.
    destruct (nan_compares_false (score x) (score y) Hx) as (E1 & E2 & E3 & E4).
    unfold TermScore_compareTo. rewrite E1, E2, E3, E4. auto. }
  intros [Ha|Hb].
  - destruct (H a b Ha) as [H1 H2]. unfold lessThan. rewrite H1, H2. auto.
  - destruct (H b a Hb) as [H1 H2]. unfold lessThan. rewrite H1, H2. auto.
Qed.

Lemma compareTo_with_NaN_witness :
  (is_nan (score {| term := newTerm "body" "a"; score := nan |}) = true
   \/ is_nan (score {| term := newTerm "body" "c"; score := 14%float |}) = true)
  /\ TermScore_compareTo {| term := newTerm "body" "a"; score := nan |}
       (Some {| term := newTerm "body" "c"; score := 14%float |}) = 0.
Proof.
  assert (H1 : is_nan (score {| term := newTerm "body" "a"; score := nan |}) = true
               \/ is_nan (score {| term := newTerm "body" "c"; score := 14%float |})
                  = true)
    by (left; reflexivity).
  split; [exact H1|].
  exact (proj1 (compareTo_with_NaN _ _ H1)).
Defined.

Lemma Term_cmp_eq (a b : Term) : Term_cmp a b = Eq -> a = b.
Proof.
  unfold Term_cmp, lex. destruct a as [f1 t1], b as [f2 t2]; simpl.
  destruct (String.compare f1 f2) eqn:E; try discriminate.
  intros E'. apply String.compare_eq_iff in E, E'. congruence.
Qed.

(** X13.  On entries whose scores are numbers, [lessThan] is a strict
    order that leaves no two different entries unordered: it is
    irreflexive and transitive, never holds in both directions, and when
    it holds in neither the two entries have equal scores and the same
    term. *)
Theorem lessThan_strict_total_order (a b c : TermScore) :
  numeric a -> numeric b -> numeric c ->
  lessThan a a = false
  /\ (lessThan a b = true -> lessThan b a = false)
  /\ (lessThan a b = true -> lessThan b c = true -> lessThan a c = true)
  /\ (lessThan a b = false -> lessThan b a = false ->
      (score a =? score b)%float = true /\ term a = term b).
Proof.
  intros va vb vc. rewrite !lessThan_cmp by assumption.
  split; [|split; [|split]].
  - rewrite (cmp_refl numeric TermScore_cmp TermScore_cmp_antisym) by assumption.
    reflexivity.
  - rewrite (TermScore_cmp_antisym a b va vb).
    destruct (TermScore_cmp a b); simpl; congruence.
  - destruct (TermScore_cmp a b) eqn:E1; try discriminate.
    destruct (TermScore_cmp b c) eqn:E2; try discriminate.
    rewrite (TermScore_cmp_trans Lt a b c va vb vc E1 E2). reflexivity.
  - rewrite (TermScore_cmp_antisym a b va vb).
    destruct (TermScore_cmp a b) eqn:E; simpl; try discriminate.
    intros _ _. unfold TermScore_cmp, lex, flip_cmp in E.
    rewrite (DoubleFacts.eqb_cmp _ _ va vb).
    destruct (Double.cmp (score a) (score b)); try discriminate.
    split; [reflexivity|]. symmetry. apply Term_cmp_eq. exact E.
Qed.

Lemma lessThan_strict_total_order_witness :
  numeric {| term := newTerm "body" "a"; score := 10%float |}
  /\ numeric {| term := newTerm "body" "c"; score := 14%float |}
  /\ lessThan {| term := newTerm "body" "a"; score := 10%float |}
       {| term := newTerm "body" "a"; score := 10%float |} = false.
Proof.
  assert (H1 : numeric {| term := newTerm "body" "a"; score := 10%float |})
    by reflexivity.
  assert (H2 : numeric {| term := newTerm "body" "c"; score := 14%float |})
    by reflexivity.
  split; [exact H1|]. split; [exact H2|].
  exact (proj1 (lessThan_strict_total_order _ _ _ H1 H2 H2)).
Defined.

(** ** The interesting terms *)

Lemma createQueue_size (mlt : MoreLikeThis) (table : FrequencyTable)
  (q : TermScoreQueue) :
  createQueue mlt table = Ok q -> size q <= Z.max 0 (maxQueryTerms mlt).
Proof.
  rewrite createQueue_candidates. intros Hq.
  apply forEach_offer_size in Hq; [|unfold size; simpl; lia].
  unfold limitOf in Hq. lia.
Qed.

Lemma drained_length (q : TermScoreQueue) :
  List.length (drained q) = List.length (heap q).
Proof. unfold drained. apply length_rev. Qed.

(** X14.  The limit in [retrieveInterestingTerms] never cuts a queue that
    [createQueue] built: the words returned are the words of all the
    entries of the queue, in the order of the drain.  And they are the
    words of the clauses [createQuery] builds from the same queue, when the
    clause limit leaves room for them all. *)
Theorem interesting_terms_are_the_whole_queue (maxClauseCount : Z)
  (mlt : MoreLikeThis) (table : FrequencyTable) (q : TermScoreQueue) :
  createQueue mlt table = Ok q ->
  retrieveInterestingTerms mlt q = map (fun st => _text (term st)) (drained q)
  /\ List.length (retrieveInterestingTerms mlt q) = List.length (heap q)
  /\ (size q <= maxClauseCount ->
      exists query,
        createQuery maxClauseCount mlt q = Ok query
        /\ map (fun c => _text (queryTerm (clauseQuery c))) (clauses query)
           = retrieveInterestingTerms mlt q).
Proof.
  intros Hq. apply createQueue_size in Hq.
  assert (H : retrieveInterestingTerms mlt q
              = map (fun st => _text (term st)) (drained q)).
  { unfold retrieveInterestingTerms. rewrite retrieveInterestingTerms_loop_firstn.
    simpl. rewrite firstn_all2; [reflexivity|].
    rewrite drained_length. unfold size in Hq. lia. }
  split; [exact H|]. split.
  - rewrite H, length_map. apply drained_length.
  - intros Hc. eexists. split; [apply createQuery_clauses|]. simpl clauses.
    rewrite firstn_all2.
    + rewrite H, <- (map_map (fun c => queryTerm (clauseQuery c)) _text).
      rewrite builtClauses_terms, map_map. reflexivity.
    + assert (Hl : forall entries best,
                 List.length (builtClauses mlt entries best) = List.length entries).
      { induction entries as [|st entries IH]; intros best; simpl; auto. }
      rewrite Hl, drained_length. unfold size in Hc. lia.
Qed.

Lemma interesting_terms_are_the_whole_queue_witness :
  createQueue (setMaxQueryTerms exMoreLikeThis 2) exTable = Ok exQueue
  /\ retrieveInterestingTerms (setMaxQueryTerms exMoreLikeThis 2) exQueue
     = map (fun st => _text (term st)) (drained exQueue).
Proof.
  assert (H1 : createQueue (setMaxQueryTerms exMoreLikeThis 2) exTable = Ok exQueue)
    by evaluate.
  split; [exact H1|].
  exact (proj1 (interesting_terms_are_the_whole_queue 1024 _ _ _ H1)).
Defined.

(** ** The field names of [like(docNum)] *)

(** X15.  [retrieveInterestingTerms(docNum)] does not look the field names
    up as [like(docNum)] does: on an object whose field names are empty it
    reads no field and returns no word, without a failure, whatever the
    document holds. *)
Theorem retrieveInterestingTerms_docNum_without_fields (mlt : MoreLikeThis)
  (docNum : Z) :
  fieldNames mlt = [] ->
  retrieveInterestingTerms_docNum mlt docNum = (Ok [], mlt)
  /\ retrieveTerms_docNum mlt docNum
     = Ok (newTermScoreQueue (Z.min (maxQueryTerms mlt) 0)).
Proof.
  intros H.
  assert (Hq : retrieveTerms_docNum mlt docNum
               = Ok (newTermScoreQueue (Z.min (maxQueryTerms mlt) 0))).
  { unfold retrieveTerms_docNum, accumulate_docNum. rewrite H. reflexivity. }
  split; [|exact Hq].
  unfold retrieveInterestingTerms_docNum. rewrite Hq. reflexivity.
Qed.

Lemma retrieveInterestingTerms_docNum_without_fields_witness :
  fieldNames exMoreLikeThis = []
  /\ retrieveInterestingTerms_docNum exMoreLikeThis 7 = (Ok [], exMoreLikeThis).
Proof.
  assert (H1 : fieldNames exMoreLikeThis = []) by reflexivity.
  split; [exact H1|].
  exact (proj1 (retrieveInterestingTerms_docNum_without_fields exMoreLikeThis 7 H1)).
Defined.

(** X16.  The field names are looked up once: [like(docNum)] on the object
    as an earlier [like(docNum)] left it returns what it returns on the
    object before that call, and leaves the object as it found it. *)
Theorem like_docNum_resolves_fields_once (maxClauseCount maxClauseCount' : Z)
  (mlt : MoreLikeThis) (docNum docNum' : Z) :
  like_docNum maxClauseCount' (snd (like_docNum maxClauseCount mlt docNum)) docNum'
  = (fst (like_docNum maxClauseCount' mlt docNum'),
     snd (like_docNum maxClauseCount mlt docNum)).
Proof.
  unfold like_docNum; simpl.
  destruct (HashSet_empty (fieldNames mlt)) eqn:E.
  - simpl fieldNames. simpl reader.
    destruct (HashSet_empty (getFieldNames (reader mlt))) eqn:E'.
    + assert (Hs : setFieldNames (setFieldNames mlt (getFieldNames (reader mlt)))
                     (getFieldNames (reader mlt))
                   = setFieldNames mlt (getFieldNames (reader mlt)))
        by reflexivity.
      rewrite Hs. reflexivity.
    + reflexivity.
  - rewrite E. reflexivity.
Qed.

(** ** The shape of the query *)

Lemma builtClauses_length (mlt : MoreLikeThis) (entries : list TermScore) :
  forall bestScore,
  List.length (builtClauses mlt entries bestScore) = List.length entries.
Proof. induction entries as [|st entries IH]; intros bestScore; simpl; auto. Qed.

Lemma builtClauses_occur (mlt : MoreLikeThis) (entries : list TermScore) :
  forall bestScore,
  Forall (fun c => occur c = SHOULD) (builtClauses mlt entries bestScore).
Proof.
  induction entries as [|st entries IH]; intros bestScore; simpl; constructor; auto.
Qed.

Lemma builtClauses_unboosted (mlt : MoreLikeThis) (entries : list TermScore) :
  hasBoost mlt = false ->
  forall bestScore,
  builtClauses mlt entries bestScore
  = map (fun st => {| clauseQuery := newTermQuery (term st); occur := SHOULD |})
      entries.
Proof.
  intros Hb. induction entries as [|st entries IH]; intros bestScore; simpl;
    [reflexivity|].
  rewrite IH. unfold clauseFor. rewrite Hb. reflexivity.
Qed.

Lemma Forall_firstn {A : Type} (P : A -> Prop) (n : nat) (l : list A) :
  Forall P l -> Forall P (firstn n l).
Proof.
  rewrite !Forall_forall. intros H x Hx. apply H. exact (In_firstn n l x Hx).
Qed.

(** X17.  [createQuery] returns a query with one optional ([SHOULD]) clause
    for each of the first entries drained, as many as the queue holds and
    the clause limit allows, on the terms of these entries in the order of
    the drain; without boosting every clause keeps the weight 1 of a new
    term query. *)
Theorem createQuery_shape (maxClauseCount : Z) (mlt : MoreLikeThis)
  (q : TermScoreQueue) :
  exists query,
    createQuery maxClauseCount mlt q = Ok query
    /\ Z.of_nat (List.length (clauses query)) = Z.min (size q) (Z.max 0 maxClauseCount)
    /\ Forall (fun c => occur c = SHOULD) (clauses query)
    /\ map (fun c => queryTerm (clauseQuery c)) (clauses query)
       = firstn (Z.to_nat maxClauseCount) (map term (drained q))
    /\ (hasBoost mlt = false ->
        Forall (fun c => boost (clauseQuery c) = 1%float) (clauses query)).
Proof.
  eexists. split; [apply createQuery_clauses|]. simpl clauses.
  split; [|split; [|split]].
  - rewrite length_firstn, builtClauses_length, drained_length. unfold size. lia.
  - apply Forall_firstn, builtClauses_occur.
  - rewrite <- firstn_map, builtClauses_terms. reflexivity.
  - intros Hb. apply Forall_firstn. rewrite (builtClauses_unboosted mlt _ Hb).
    apply Forall_forall. intros c Hc. apply in_map_iff in Hc.
    destruct Hc as (st & <- & _). reflexivity.
Qed.

(** ** The sentinel of the best score *)

(** The clause of an entry weighted against its own score. *)
Definition selfBoostedClause (mlt : MoreLikeThis) (st : TermScore) : BooleanClause :=
  boostedClause mlt (score st) st.

Lemma builtClauses_sentinel (mlt : MoreLikeThis) (pre rest : list TermScore) :
  hasBoost mlt = true ->
  Forall (fun st => (score st =? -1)%float = true) pre ->
  builtClauses mlt (pre ++ rest) (-1)%float
  = map (selfBoostedClause mlt) pre ++ builtClauses mlt rest (-1)%float.
Proof.
  intros Hb. induction pre as [|st pre IH]; intros Hpre; simpl; [reflexivity|].
  inversion Hpre as [|? ? Hst Hpre']; subst.
  assert (Hn : nextBest mlt st (-1)%float = score st).
  { unfold nextBest. rewrite Hb. reflexivity. }
  rewrite Hn.
  assert (Hrest : builtClauses mlt (pre ++ rest) (score st)
                  = builtClauses mlt (pre ++ rest) (-1)%float).
  { destruct (pre ++ rest) as [|st' l]; simpl; [reflexivity|].
    unfold nextBest. rewrite Hb, Hst. reflexivity. }
  rewrite Hrest, (IH Hpre').
  unfold clauseFor, selfBoostedClause, boostedClause. rewrite Hb. reflexivity.
Qed.

(** X18.  With boosting on, the best score is taken from the first entry
    drained whose score is not -1, the value the variable starts with: the
    entries drained before it, all of score -1, are each weighted against
    their own score, and that entry and all the later ones against its
    score. *)
Theorem best_score_skips_the_sentinel (maxClauseCount : Z) (mlt : MoreLikeThis)
  (q : TermScoreQueue) (pre : list TermScore) (best : TermScore)
  (others : list TermScore) :
  hasBoost mlt = true ->
  drained q = pre ++ best :: others ->
  Forall (fun st => (score st =? -1)%float = true) pre ->
  (score best =? -1)%float = false ->
  createQuery maxClauseCount mlt q
  = Ok {| clauses :=
            firstn (Z.to_nat maxClauseCount)
              (map (selfBoostedClause mlt) pre
               ++ map (boostedClause mlt (score best)) (best :: others)) |}.
Proof.
  intros Hb Hd Hpre Hs. rewrite createQuery_clauses, Hd.
  rewrite (builtClauses_sentinel mlt pre (best :: others) Hb Hpre).
  simpl builtClauses.
  assert (Hn : nextBest mlt best (-1)%float = score best).
  { unfold nextBest. rewrite Hb. reflexivity. }
  rewrite Hn, (builtClauses_boosted mlt others (score best) Hb Hs).
  unfold clauseFor, boostedClause. rewrite Hb. reflexivity.
Qed.

(** The similarity of the next example gives every term the idf -1. *)
Definition exNegativeSimilarity : Similarity := {| idf := fun _ _ => (-1)%float |}.

(** Boosting on with the boost factor 1, no term below a threshold. *)
Definition exSentinel : MoreLikeThis :=
  setBoost
    (setMinDocFreq
       (setMinTermFreq (newMoreLikeThis exReader exNegativeSimilarity) 1) 1)
    true.

(** Two terms, of scores -1 and -2. *)
Definition exSentinelTable : FrequencyTable :=
  [("body"%string, [("a"%string, 1); ("b"%string, 2)])].

(** The queue [createQueue] makes of [exSentinelTable]. *)
Definition exSentinelQueue : TermScoreQueue :=
  {| maxSize := 2;
     heap := [ {| term := newTerm "body" "b"; score := (-2)%float |};
               {| term := newTerm "body" "a"; score := (-1)%float |} ] |}.

Lemma best_score_skips_the_sentinel_witness :
  createQueue exSentinel exSentinelTable = Ok exSentinelQueue
  /\ hasBoost exSentinel = true
  /\ drained exSentinelQueue
     = [ {| term := newTerm "body" "a"; score := (-1)%float |} ]
       ++ {| term := newTerm "body" "b"; score := (-2)%float |} :: []
  /\ createQuery 1024 exSentinel exSentinelQueue
     = Ok {| clauses :=
               [ {| clauseQuery := {| queryTerm := newTerm "body" "a";
                                      boost := 1%float |};
                    occur := SHOULD |};
                 {| clauseQuery := {| queryTerm := newTerm "body" "b";
                                      boost := 1%float |};
                    occur := SHOULD |} ] |}.
Proof.
  assert (H1 : hasBoost exSentinel = true) by reflexivity.
  assert (H2 : drained exSentinelQueue
               = [ {| term := newTerm "body" "a"; score := (-1)%float |} ]
                 ++ {| term := newTerm "body" "b"; score := (-2)%float |} :: [])
    by reflexivity.
  assert (H3 : Forall (fun st => (score st =? -1)%float = true)
                 [ {| term := newTerm "body" "a"; score := (-1)%float |} ])
    by (repeat constructor).
  assert (H4 : (score {| term := newTerm "body" "b"; score := (-2)%float |}
                =? -1)%float = false) by reflexivity.
  split; [evaluate|]. split; [exact H1|]. split; [exact H2|].
  exact (eq_trans (best_score_skips_the_sentinel 1024 _ _ _ _ _ H1 H2 H3 H4)
           ltac:(evaluate)).
Defined.

(** ** When [createQueue] returns *)

Lemma forEach_offer_no_room (limit : Z) (c : TermScore) (cs : list TermScore) :
  limit <= 0 ->
  forEach (offer limit) (c :: cs) (newTermScoreQueue limit) = Throw NullDereference.
Proof.
  intros Hl. simpl. unfold offer, size, top; simpl.
  replace (0 <? limit) with false by (symmetry; apply Z.ltb_ge; lia).
  reflexivity.
Qed.

(** X19.  With a positive [maxQueryTerms], [createQueue] returns a queue
    for every table.  With [maxQueryTerms] zero or negative it returns the
    empty queue when no term of the table passes the thresholds; as soon
    as one does, there is no room for it and the top of the empty queue is
    dereferenced. *)
Theorem createQueue_returns_with_room (mlt : MoreLikeThis) (table : FrequencyTable) :
  (0 < maxQueryTerms mlt -> exists q, createQueue mlt table = Ok q)
  /\ (maxQueryTerms mlt <= 0 -> candidates mlt table = [] ->
      createQueue mlt table = Ok (newTermScoreQueue (limitOf mlt table)))
  /\ (maxQueryTerms mlt <= 0 -> candidates mlt table <> [] ->
      createQueue mlt table = Throw NullDereference).
Proof.
  split; [exact (createQueue_returns mlt table)|].
  rewrite createQueue_candidates. split.
  - intros _ Hc. rewrite Hc. reflexivity.
  - intros Hm Hc. destruct (candidates mlt table) as [|c cs]; [congruence|].
    apply forEach_offer_no_room. unfold limitOf. lia.
Qed.

(** ** From the table to the query *)

(** What the queue holds after a loop of offers is part of what it held
    before and what was offered. *)
Lemma offer_sub (limit : Z) (q q' : TermScoreQueue) (cand : TermScore) :
  offer limit q cand = Ok q' ->
  exists dropped, Permutation (cand :: heap q) (heap q' ++ dropped).
Proof.
  unfold offer. destruct (size q <? limit).
  - intros [= <-]. exists []. rewrite app_nil_r. simpl.
    symmetry. apply insert_Permutation.
  - destruct (top q) as [st|] eqn:Et; [|discriminate].
    unfold top in Et. destruct (heap q) as [|st' l] eqn:Eh; [discriminate|].
    simpl in Et. injection Et as ->.
    destruct (score st <? score cand)%float; intros [= <-].
    + exists [st]. simpl. rewrite Eh. simpl.
      rewrite (insert_Permutation cand l). simpl. apply perm_skip.
      apply Permutation_cons_append.
    + exists [cand]. rewrite Eh. apply Permutation_cons_append.
Qed.

Lemma forEach_offer_sub (limit : Z) (cs : list TermScore) :
  forall q q' : TermScoreQueue,
  forEach (offer limit) cs q = Ok q' ->
  exists dropped, Permutation (cs ++ heap q) (heap q' ++ dropped).
Proof.
  induction cs as [|c cs IH]; simpl; intros q q'.
  - intros [= <-]. exists []. rewrite app_nil_r. reflexivity.
  - destruct (offer limit q c) as [q1|] eqn:E; simpl; [|discriminate].
    intros H. destruct (offer_sub _ _ _ _ E) as [d1 H1].
    destruct (IH q1 q' H) as [d2 H2]. exists (d2 ++ d1).
    rewrite app_assoc, <- H2, <- app_assoc, <- H1.
    apply Permutation_middle.
Qed.

Lemma candidates_field_In (mlt : MoreLikeThis) (n : Z) (f : string) (m : HashMap Z)
  (e : TermScore) :
  In e (candidates_field mlt n (f, m)) ->
  _field (term e) = f /\ In (_text (term e)) (map fst m).
Proof.
  unfold candidates_field; simpl. rewrite in_flat_map.
  intros ([w tf] & Hw & He). simpl in He. unfold scoreTerm in He.
  assert (Ht : term e = newTerm f w).
  { destruct ((0 <? minTermFreq mlt) && (tf <? minTermFreq mlt)); [destruct He|].
    destruct ((0 <? minDocFreq mlt)
              && (docFreq (reader mlt) (newTerm f w) <? minDocFreq mlt));
      [destruct He|].
    destruct (maxDocFreq mlt <? docFreq (reader mlt) (newTerm f w)); [destruct He|].
    destruct (docFreq (reader mlt) (newTerm f w) =? 0); [destruct He|].
    destruct He as [<-|[]]. reflexivity. }
  rewrite Ht. simpl. split; [reflexivity|].
  apply in_map_iff. exists (w, tf). auto.
Qed.

Lemma candidates_field_NoDup (mlt : MoreLikeThis) (n : Z) (f : string)
  (m : HashMap Z) :
  NoDup (map fst m) -> NoDup (map term (candidates_field mlt n (f, m))).
Proof.
  induction m as [|[w tf] m IH]; intros Hn; [constructor|].
  inversion Hn as [|? ? Hw Hn']; subst.
  change (candidates_field mlt n (f, (w, tf) :: m))
    with ((match scoreTerm mlt n f w tf with Some cand => [cand] | None => [] end)
          ++ candidates_field mlt n (f, m)).
  rewrite map_app. apply NoDup_app; [| exact (IH Hn') |].
  - destruct (scoreTerm mlt n f w tf); simpl; repeat constructor. intros [].
  - intros t Ht Hin.
    assert (Htw : _text t = w).
    { pose proof (candidates_field_In mlt n f [(w, tf)]) as Hc.
      unfold candidates_field in Hc; simpl in Hc. rewrite app_nil_r in Hc.
      apply in_map_iff in Ht. destruct Ht as (e & <- & He).
      destruct (Hc e He) as [_ [Hx|[]]]. symmetry. exact Hx. }
    apply in_map_iff in Hin. destruct Hin as (e & <- & He).
    apply candidates_field_In in He. destruct He as [_ He].
    rewrite Htw in He. exact (Hw He).
Qed.

Lemma candidates_NoDup (mlt : MoreLikeThis) (table : FrequencyTable) :
  uniqueKeys table -> NoDup (map term (candidates mlt table)).
Proof.
  unfold candidates. intros [Hk Hm].
  induction table as [|[f m] table IH]; [constructor|].
  inversion Hk as [|? ? Hf Hk']; subst. inversion Hm as [|? ? Hm1 Hm']; subst.
  simpl. rewrite map_app. apply NoDup_app.
  - apply candidates_field_NoDup. exact Hm1.
  - exact (IH Hk' Hm').
  - intros t Ht Hin. apply in_map_iff in Ht. destruct Ht as (e & <- & He).
    apply candidates_field_In in He. destruct He as [He _].
    apply in_map_iff in Hin. destruct Hin as (e' & Ht' & He').
    apply in_flat_map in He'. destruct He' as ([f' m'] & Hit & He').
    apply candidates_field_In in He'. destruct He' as [He' _].
    apply Hf. simpl. apply in_map_iff. exists (f', m'). split; [|exact Hit].
    simpl. rewrite <- He', Ht'. exact He.
Qed.

Lemma createQueue_terms_NoDup (mlt : MoreLikeThis) (table : FrequencyTable)
  (q : TermScoreQueue) :
  uniqueKeys table -> createQueue mlt table = Ok q -> NoDup (map term (heap q)).
Proof.
  intros Hu. rewrite createQueue_candidates. intros Hq.
  destruct (forEach_offer_sub _ _ _ _ Hq) as [dropped Hp].
  simpl in Hp. rewrite app_nil_r in Hp.
  apply (Permutation_map term) in Hp. rewrite map_app in Hp.
  apply (NoDup_app_remove_r _ (map term dropped)).
  exact (Permutation_NoDup Hp (candidates_NoDup mlt table Hu)).
Qed.

Lemma NoDup_firstn {A : Type} (n : nat) (l : list A) :
  NoDup l -> NoDup (firstn n l).
Proof.
  intros H. rewrite <- (firstn_skipn n l) in H. exact (NoDup_app_remove_r _ _ H).
Qed.

(** The clauses of the query made of the queue that was made of a table. *)
Lemma clauses_of_table (maxClauseCount : Z) (mlt : MoreLikeThis)
  (table : FrequencyTable) (q : TermScoreQueue) :
  uniqueKeys table ->
  createQueue mlt table = Ok q ->
  exists query,
    createQuery maxClauseCount mlt q = Ok query
    /\ Z.of_nat (List.length (clauses query))
       <= Z.min (Z.max 0 (maxQueryTerms mlt)) (Z.max 0 maxClauseCount)
    /\ NoDup (map (fun c => queryTerm (clauseQuery c)) (clauses query))
    /\ (forall c, In c (clauses query) ->
          occur c = SHOULD
          /\ exists fieldName m word tf,
               In (fieldName, m) table /\ In (word, tf) m
               /\ excluded mlt fieldName word tf = false
               /\ queryTerm (clauseQuery c) = newTerm fieldName word).
Proof.
  intros Hu Hq. eexists. split; [apply createQuery_clauses|]. simpl clauses.
  split; [|split].
  - rewrite length_firstn, builtClauses_length, drained_length.
    pose proof (createQueue_size mlt table q Hq) as Hs. unfold size in Hs. lia.
  - rewrite <- firstn_map, builtClauses_terms. apply NoDup_firstn.
    unfold drained. rewrite map_rev. apply NoDup_rev.
    exact (createQueue_terms_NoDup mlt table q Hu Hq).
  - intros c Hc. apply In_firstn in Hc. split.
    + pose proof (builtClauses_occur mlt (drained q) (-1)%float) as Ho.
      rewrite Forall_forall in Ho. exact (Ho c Hc).
    + apply (in_map (fun c => queryTerm (clauseQuery c))) in Hc.
      rewrite builtClauses_terms in Hc. apply in_map_iff in Hc.
      destruct Hc as (e & Ht & He). unfold drained in He. apply in_rev in He.
      rewrite createQueue_candidates in Hq.
      destruct (forEach_offer_In _ _ _ _ e Hq He) as [Hcand|[]].
      destruct (candidates_In mlt table e Hcand)
        as (f & m & w & tf & Hm & Hw & Hx & ->).
      exists f, m, w, tf. simpl in Ht. auto.
Qed.

(** ** Counting the words of several readers *)

(** How often the word [k] occurs among the tokens [ts]. *)
Fixpoint countOf (k : string) (ts : list string) : Z :=
  match ts with
  | [] => 0
  | t :: ts' => (if String.eqb k t then 1 else 0) + countOf k ts'
  end.

(** The tokens of a reader that are looked at. *)
Definition tokensRead (mlt : MoreLikeThis) (azr : Analyzer) (fieldName : string)
  (r : Reader) : list string :=
  firstn (Z.to_nat (maxNumTokensParsed mlt)) (azr fieldName r).

Lemma countOf_app (k : string) (l1 l2 : list string) :
  countOf k (l1 ++ l2) = countOf k l1 + countOf k l2.
Proof. induction l1 as [|t l1 IH]; simpl; [reflexivity|]. rewrite IH. lia. Qed.

Lemma countOf_bounds (k : string) (l : list string) :
  0 <= countOf k l <= Z.of_nat (List.length l).
Proof.
  induction l as [|t l IH]; simpl List.length; simpl countOf; [lia|].
  destruct (String.eqb k t); lia.
Qed.

Lemma occurrences_ones (k : string) (l : list string) :
  occurrences k (map (fun t => (t, 1)) l) = countOf k l.
Proof. induction l as [|t l IH]; simpl; [reflexivity|]. rewrite IH. reflexivity. Qed.

Lemma forEachAcc_readers_frequencies (mlt : MoreLikeThis) (azr : Analyzer)
  (fieldName k : string) (rs : list Reader) :
  analyzer mlt = Some azr ->
  forall table,
  freqOf (fieldMap
            (snd (forEachAcc (fun it t => addTermFrequencies_reader mlt it t fieldName)
                    rs table)) fieldName) k
  = freqOf (fieldMap table fieldName) k
    + (if isNoiseWord mlt k then 0
       else countOf k (flat_map (tokensRead mlt azr fieldName) rs)).
Proof.
  intros Ha. induction rs as [|r rs IH]; intros table; simpl.
  - destruct (isNoiseWord mlt k); lia.
  - rewrite (token_mode_is_vector_mode_aux mlt azr r table fieldName Ha).
    rewrite IH. unfold addTermFrequencies_vector.
    rewrite fieldMap_put, freqOf_vectorLoop, fieldMap_ensureField.
    cbn [getTerms getTermFrequencies vectorOfTokens].
    rewrite combine_ones, occurrences_ones, countOf_app. unfold tokensRead.
    destruct (isNoiseWord mlt k); lia.
Qed.

(** ** The queries of [like] *)

Lemma HashMap_In_get {V : Type} (m : HashMap V) (k : string) (v : V) :
  NoDup (map fst m) -> In (k, v) m -> HashMap_get m k = Some v.
Proof.
  induction m as [|[k0 v0] m IH]; simpl; intros Hn Hin; [destruct Hin|].
  inversion Hn as [|? ? Hk Hn']; subst.
  destruct Hin as [E|Hin].
  - injection E as -> ->. rewrite String.eqb_refl. reflexivity.
  - destruct (String.eqb k k0) eqn:E.
    + apply String.eqb_eq in E. subst k0. exfalso. apply Hk.
      apply (in_map fst) in Hin. exact Hin.
    + exact (IH Hn' Hin).
Qed.

(** An entry of the table is the frequency the table holds for the term. *)
Lemma uniqueKeys_freqOf (table : FrequencyTable) (f : string) (m : HashMap Z)
  (w : string) (tf : Z) :
  uniqueKeys table -> In (f, m) table -> In (w, tf) m ->
  freqOf (fieldMap table f) w = tf.
Proof.
  intros [Hk Hm] Hf Hw. unfold fieldMap, freqOf.
  rewrite (HashMap_In_get table f m Hk Hf).
  rewrite Forall_forall in Hm. specialize (Hm _ Hf). simpl in Hm.
  rewrite (HashMap_In_get m w tf Hm Hw). reflexivity.
Qed.

(** X20.  With an analyzer set and a positive [maxQueryTerms],
    [like(fieldName, readers)] returns a query and leaves the object as it
    was.  The query has at most [maxQueryTerms] clauses, and no more than
    the clause limit; no term occurs in two clauses; every clause is
    optional, on the field [fieldName] and on a word that the analyzer
    delivered for one of the readers, that is no noise word and that
    passed the four frequency tests of [createQueue] with its frequency:
    the number of its occurrences among the tokens read of the readers, of
    which there are no more than an [int32_t] counts. *)
Theorem like_readers_query (maxClauseCount : Z) (mlt : MoreLikeThis) (azr : Analyzer)
  (fieldName : string) (readers : list Reader) :
  analyzer mlt = Some azr -> 0 < maxQueryTerms mlt ->
  Z.of_nat (List.length (flat_map (tokensRead mlt azr fieldName) readers))
  <= INT32_MAX ->
  exists query,
    like_readers maxClauseCount mlt fieldName readers = (Ok query, mlt)
    /\ Z.of_nat (List.length (clauses query))
       <= Z.min (maxQueryTerms mlt) (Z.max 0 maxClauseCount)
    /\ NoDup (map (fun c => queryTerm (clauseQuery c)) (clauses query))
    /\ (forall c, In c (clauses query) ->
          let t := queryTerm (clauseQuery c) in
          let tf := countOf (_text t) (flat_map (tokensRead mlt azr fieldName) readers) in
          occur c = SHOULD
          /\ _field t = fieldName
          /\ isNoiseWord mlt (_text t) = false
          /\ (exists r, In r readers /\ In (_text t) (azr fieldName r))
          /\ 1 <= tf <= INT32_MAX
          /\ excluded mlt fieldName (_text t) tf = false).
Proof.
  intros Ha Hm Hfit.
  unfold like_readers, retrieveTerms_readers, thenCreateQueue.
  pose proof (forEachAcc_readers_Some mlt azr fieldName readers Ha []) as Hok.
  fold (accumulate_readers mlt fieldName readers) in Hok.
  pose proof (accumulate_readers_uniqueKeys mlt fieldName readers) as Hu.
  pose proof (accumulate_readers_clean mlt fieldName readers) as Hcl.
  pose proof (accumulate_readers_positive mlt fieldName readers) as Hpos.
  assert (Hfreq : forall k,
             freqOf (fieldMap (snd (accumulate_readers mlt fieldName readers))
                       fieldName) k
             = (if isNoiseWord mlt k then 0
                else countOf k (flat_map (tokensRead mlt azr fieldName) readers))).
  { intros k. unfold accumulate_readers.
    rewrite (forEachAcc_readers_frequencies mlt azr fieldName k readers Ha []).
    reflexivity. }
  destruct (accumulate_readers mlt fieldName readers) as [[u|e] table];
    simpl in Hok, Hu, Hcl, Hpos, Hfreq; [|discriminate].
  destruct (createQueue_returns mlt table Hm) as [q Hq]. rewrite Hq. simpl.
  destruct (clauses_of_table maxClauseCount mlt table q Hu Hq)
    as (query & Hc & Hlen & Hnd & Hcs).
  exists query. rewrite Hc. split; [reflexivity|]. split; [lia|].
  split; [exact Hnd|].
  intros c Hin. destruct (Hcs c Hin) as (Ho & f & m & w & tf & Hfm & Hw & Hx & Ht).
  destruct (tableForall_In _ _ _ f m w tf Hpos Hfm Hw) as [_ Htf].
  destruct (tableForall_In _ _ _ f m w tf Hcl Hfm Hw)
    as [Ef [Hn (azr' & r & Ha' & Hr & Hwr)]].
  subst f. simpl in Hn, Htf. cbv zeta. rewrite Ht. simpl.
  assert (azr' = azr) by congruence. subst azr'.
  assert (Etf : countOf w (flat_map (tokensRead mlt azr fieldName) readers) = tf).
  { rewrite <- (uniqueKeys_freqOf table fieldName m w tf Hu Hfm Hw).
    rewrite Hfreq, Hn. reflexivity. }
  rewrite Etf.
  pose proof (countOf_bounds w (flat_map (tokensRead mlt azr fieldName) readers)) as Hb.
  rewrite Etf in Hb.
  repeat split; auto; try lia.
  exists r. auto.
Qed.

Lemma like_readers_query_witness :
  analyzer (setMinTermFreq exMoreLikeThis 1) = Some whitespaceAnalyzer
  /\ 0 < maxQueryTerms (setMinTermFreq exMoreLikeThis 1)
  /\ Z.of_nat (List.length
                 (flat_map (tokensRead (setMinTermFreq exMoreLikeThis 1)
                              whitespaceAnalyzer "body")
                    ["the x y"; "y the"]%string))
     <= INT32_MAX
  /\ exists query,
       like_readers 1024 (setMinTermFreq exMoreLikeThis 1) "body"%string
         ["the x y"; "y the"]%string
       = (Ok query, setMinTermFreq exMoreLikeThis 1)
       /\ Z.of_nat (List.length (clauses query)) <= 25.
Proof.
  assert (H1 : analyzer (setMinTermFreq exMoreLikeThis 1) = Some whitespaceAnalyzer)
    by reflexivity.
  assert (H2 : 0 < maxQueryTerms (setMinTermFreq exMoreLikeThis 1))
    by (vm_compute; reflexivity).
  assert (H3 : Z.of_nat (List.length
                           (flat_map (tokensRead (setMinTermFreq exMoreLikeThis 1)
                                        whitespaceAnalyzer "body")
                              ["the x y"; "y the"]%string))
               <= INT32_MAX)
    by (vm_compute; discriminate).
  split; [exact H1|]. split; [exact H2|]. split; [exact H3|].
  destruct (like_readers_query 1024 _ _ "body"%string ["the x y"; "y the"]%string
              H1 H2 H3)
    as (query & Hq & Hlen & _).
  exists query. split; [exact Hq|exact Hlen].
Defined.

(** The frequencies of the table are counts that an [int32_t] holds. *)
Definition frequenciesFit (table : FrequencyTable) : Prop :=
  tableForall (fun _ => True) (fun wt => 0 <= snd wt <= INT32_MAX) table.

(** X21.  A query that [like(docNum)] returns has at most [maxQueryTerms]
    clauses (none when that is not positive), and no more than the clause
    limit; no term occurs in two clauses; every clause is optional, on one
    of the field names the object holds after the call and on a term that
    is no noise word and that passed the four frequency tests of
    [createQueue] with the frequency collected for it under its field.
    This as long as the frequencies collected are counts that an
    [int32_t] holds, those of the term vectors not being negative. *)
Theorem like_docNum_query (maxClauseCount : Z) (mlt : MoreLikeThis) (docNum : Z)
  (query : BooleanQuery) :
  fst (like_docNum maxClauseCount mlt docNum) = Ok query ->
  (forall f v, getTermFreqVector (reader mlt) docNum f = Some v ->
               Forall (fun n => 0 <= n) (getTermFrequencies v)) ->
  frequenciesFit
    (snd (accumulate_docNum (snd (like_docNum maxClauseCount mlt docNum)) docNum)) ->
  let mlt' := snd (like_docNum maxClauseCount mlt docNum) in
  let table := snd (accumulate_docNum mlt' docNum) in
  Z.of_nat (List.length (clauses query))
  <= Z.min (Z.max 0 (maxQueryTerms mlt)) (Z.max 0 maxClauseCount)
  /\ NoDup (map (fun c => queryTerm (clauseQuery c)) (clauses query))
  /\ (forall c, In c (clauses query) ->
        let t := queryTerm (clauseQuery c) in
        let tf := freqOf (fieldMap table (_field t)) (_text t) in
        occur c = SHOULD
        /\ In (_field t) (fieldNames mlt')
        /\ isNoiseWord mlt (_text t) = false
        /\ (exists m, In (_field t, m) table /\ In (_text t, tf) m)
        /\ 0 <= tf <= INT32_MAX
        /\ excluded mlt (_field t) (_text t) tf = false).
Proof.
  unfold like_docNum. cbn [fst snd].
  set (mlt' := if HashSet_empty (fieldNames mlt)
               then setFieldNames mlt (getFieldNames (reader mlt)) else mlt).
  assert (Hsame : maxQueryTerms mlt' = maxQueryTerms mlt
                  /\ (forall w, isNoiseWord mlt' w = isNoiseWord mlt w)
                  /\ (forall f w tf, excluded mlt' f w tf = excluded mlt f w tf)).
  { unfold mlt'. destruct (HashSet_empty (fieldNames mlt)); repeat split. }
  destruct Hsame as (Hmax & Hnoise & Hexcl).
  unfold retrieveTerms_docNum, thenCreateQueue.
  pose proof (accumulate_docNum_uniqueKeys mlt' docNum) as Hu.
  pose proof (accumulate_docNum_clean mlt' docNum) as Hc.
  destruct (accumulate_docNum mlt' docNum) as [[u|e] table];
    cbn [fst snd] in *; [|discriminate].
  destruct (createQueue mlt' table) as [q|e] eqn:Hq; simpl; [|discriminate].
  destruct (clauses_of_table maxClauseCount mlt' table q Hu Hq)
    as (query' & Hcq & Hlen & Hnd & Hcl).
  rewrite Hcq. intros [= <-] _ Hfit. cbv zeta.
  split; [rewrite <- Hmax; exact Hlen|].
  split; [exact Hnd|].
  intros c Hin. destruct (Hcl c Hin) as (Ho & f & m & w & tf & Hfm & Hw & Hx & Ht).
  destruct (tableForall_In _ _ _ f m w tf Hc Hfm Hw) as [HR [HQ _]].
  destruct (tableForall_In _ _ _ f m w tf Hfit Hfm Hw) as [_ Hb].
  rewrite Ht. simpl in *. rewrite <- Hnoise.
  rewrite (uniqueKeys_freqOf table f m w tf Hu Hfm Hw).
  repeat split; auto; try lia.
  - exists m. auto.
  - rewrite <- Hexcl. exact Hx.
Qed.

(** The query of the six words of the example document, all of score 2. *)
Definition exLikeQuery : BooleanQuery :=
  {| clauses :=
       map (fun w => {| clauseQuery := newTermQuery (newTerm "body" w);
                        occur := SHOULD |})
         ["u"; "v"; "w"; "x"; "y"; "z"]%string |}.

Lemma like_docNum_query_witness :
  fst (like_docNum 1024 (setMinTermFreq exMoreLikeThis 1) 7) = Ok exLikeQuery
  /\ frequenciesFit
       (snd (accumulate_docNum
               (snd (like_docNum 1024 (setMinTermFreq exMoreLikeThis 1) 7)) 7))
  /\ NoDup (map (fun c => queryTerm (clauseQuery c)) (clauses exLikeQuery)).
Proof.
  assert (H1 : fst (like_docNum 1024 (setMinTermFreq exMoreLikeThis 1) 7)
               = Ok exLikeQuery)
    by evaluate.
  assert (H2 : forall f v,
             getTermFreqVector (reader (setMinTermFreq exMoreLikeThis 1)) 7 f = Some v ->
             Forall (fun n => 0 <= n) (getTermFrequencies v))
    by (intros f v H; discriminate H).
  assert (H3 : frequenciesFit
                 (snd (accumulate_docNum
                         (snd (like_docNum 1024 (setMinTermFreq exMoreLikeThis 1) 7))
                         7))).
  { assert (E : snd (accumulate_docNum
                       (snd (like_docNum 1024 (setMinTermFreq exMoreLikeThis 1) 7)) 7)
                = [("body", [("x", 1); ("y", 1); ("z", 1);
                             ("u", 1); ("v", 1); ("w", 1)])]%string)
      by evaluate.
    rewrite E. unfold frequenciesFit, tableForall.
    repeat constructor; vm_compute; discriminate. }
  split; [exact H1|]. split; [exact H3|].
  exact (proj1 (proj2 (like_docNum_query 1024 _ 7 _ H1 H2 H3))).
Defined.

(** ** The frequencies of the words of several readers *)

(** X22.  With an analyzer set, the frequency that
    [retrieveTerms(fieldName, readers)] has collected for a word that is
    no noise word, and that [createQueue] then scores, is the number of
    its occurrences among the first [maxNumTokensParsed] tokens of every
    reader, summed over the readers, as long as that number is an
    [int32_t] value; a noise word has none.  One reader is treated by
    [retrieveTerms(r, fieldName)] as a collection of one. *)
Theorem accumulate_readers_frequencies (mlt : MoreLikeThis) (azr : Analyzer)
  (fieldName k : string) (readers : list Reader) (r : Reader) :
  analyzer mlt = Some azr ->
  countOf k (flat_map (tokensRead mlt azr fieldName) readers) <= INT32_MAX ->
  freqOf (fieldMap (snd (accumulate_readers mlt fieldName readers)) fieldName) k
  = (if isNoiseWord mlt k then 0
     else countOf k (flat_map (tokensRead mlt azr fieldName) readers))
  /\ 0 <= freqOf (fieldMap (snd (accumulate_readers mlt fieldName readers)) fieldName) k
          <= INT32_MAX
  /\ retrieveTerms_reader mlt r fieldName = retrieveTerms_readers mlt fieldName [r].
Proof.
  intros Ha Hfit.
  assert (Hsum : freqOf (fieldMap (snd (accumulate_readers mlt fieldName readers))
                           fieldName) k
                 = (if isNoiseWord mlt k then 0
                    else countOf k (flat_map (tokensRead mlt azr fieldName) readers))).
  { unfold accumulate_readers.
    rewrite (forEachAcc_readers_frequencies mlt azr fieldName k readers Ha []).
    reflexivity. }
  split; [exact Hsum|]. split.
  - rewrite Hsum.
    pose proof (countOf_bounds k (flat_map (tokensRead mlt azr fieldName) readers)).
    unfold INT32_MAX in *. destruct (isNoiseWord mlt k); lia.
  - unfold retrieveTerms_reader, retrieveTerms_readers, accumulate_readers. simpl.
    destruct (addTermFrequencies_reader mlt r [] fieldName) as [[[]|e] table];
      reflexivity.
Qed.

Lemma accumulate_readers_frequencies_witness :
  analyzer (setMaxNumTokensParsed exMoreLikeThis 3) = Some whitespaceAnalyzer
  /\ countOf "y"
       (flat_map (tokensRead (setMaxNumTokensParsed exMoreLikeThis 3)
                    whitespaceAnalyzer "body")
          ["y x y y"; "the y"]%string)
     <= INT32_MAX
  /\ freqOf (fieldMap
              (snd (accumulate_readers (setMaxNumTokensParsed exMoreLikeThis 3)
                      "body"%string ["y x y y"; "the y"]%string)) "body"%string)
       "y"%string
     = 3.
Proof.
  assert (H1 : analyzer (setMaxNumTokensParsed exMoreLikeThis 3)
               = Some whitespaceAnalyzer) by reflexivity.
  assert (H2 : countOf "y"
                 (flat_map (tokensRead (setMaxNumTokensParsed exMoreLikeThis 3)
                              whitespaceAnalyzer "body")
                    ["y x y y"; "the y"]%string)
               <= INT32_MAX) by (vm_compute; discriminate).
  split; [exact H1|]. split; [exact H2|].
  exact (eq_trans
           (proj1 (accumulate_readers_frequencies _ _ "body"%string "y"%string
                     ["y x y y"; "the y"]%string ""%string H1 H2))
           ltac:(evaluate)).
Defined.

(** ** The description of the parameters *)

Lemma append_assoc (s1 s2 s3 : string) :
  ((s1 ++ s2) ++ s3)%string = (s1 ++ (s2 ++ s3))%string.
Proof. induction s1 as [|c s1 IH]; simpl; [reflexivity|]. rewrite IH. reflexivity. Qed.

Lemma append_empty_r (s : string) : (s ++ "")%string = s.
Proof. induction s as [|c s IH]; simpl; [reflexivity|]. rewrite IH. reflexivity. Qed.

(** What the loop appends after the first name. *)
Fixpoint laterNames (names : list string) : string :=
  match names with
  | [] => ""
  | it :: names' => ", " ++ it ++ laterNames names'
  end.

Lemma describeParams_loop_later (names : list string) :
  forall ss : string,
  describeParams_loop names ss ", " = (ss ++ laterNames names)%string.
Proof.
  induction names as [|it names IH]; intros ss; simpl.
  - symmetry. apply append_empty_r.
  - rewrite IH. rewrite (append_assoc ss). reflexivity.
Qed.

Lemma concat_laterNames (names : list string) :
  forall it : string,
  String.concat ", " (it :: names) = (it ++ laterNames names)%string.
Proof.
  induction names as [|it' names IH]; intros it.
  - simpl. symmetry. apply append_empty_r.
  - change (String.concat ", " (it :: it' :: names))
      with (it ++ ", " ++ String.concat ", " (it' :: names))%string.
    rewrite IH. reflexivity.
Qed.

Lemma describeParams_loop_concat (names : list string) (ss : string) :
  describeParams_loop names ss "" = (ss ++ String.concat ", " names)%string.
Proof.
  destruct names as [|it names].
  - simpl. symmetry. apply append_empty_r.
  - rewrite concat_laterNames. simpl describeParams_loop.
    rewrite describeParams_loop_later. apply append_assoc.
Qed.

(** X23.  [describeParams] gives seven lines, each after a tab: the
    maximum number of query terms, the two word-length limits, the field
    names in the order of the iteration with a comma and a blank between
    two of them, the boost flag as 1 or 0, and the two minimum
    frequencies.  The other parameters are not described: setting the
    maximum document frequency, the stop words, the analyzer, the boost
    factor or the token limit leaves the description as it was. *)
Theorem describeParams_lines (mlt : MoreLikeThis) :
  describeParams mlt
  = (tab ++ "maxQueryTerms  : " ++ showInt (maxQueryTerms mlt) ++ endl
     ++ tab ++ "minWordLen     : " ++ showInt (minWordLen mlt) ++ endl
     ++ tab ++ "maxWordLen     : " ++ showInt (maxWordLen mlt) ++ endl
     ++ tab ++ "fieldNames     : " ++ String.concat ", " (fieldNames mlt) ++ endl
     ++ tab ++ "boost          : " ++ showBool (hasBoost mlt) ++ endl
     ++ tab ++ "minTermFreq    : " ++ showInt (minTermFreq mlt) ++ endl
     ++ tab ++ "minDocFreq     : " ++ showInt (minDocFreq mlt) ++ endl)%string
  /\ (forall (mdf : Z) (sw : HashSet) (azr : option Analyzer) (bf : float) (i : Z),
        describeParams (setMaxDocFreq mlt mdf) = describeParams mlt
        /\ describeParams (setStopWords mlt sw) = describeParams mlt
        /\ describeParams (setAnalyzer mlt azr) = describeParams mlt
        /\ describeParams (setBoostFactor mlt bf) = describeParams mlt
        /\ describeParams (setMaxNumTokensParsed mlt i) = describeParams mlt).
Proof.
  split.
  - unfold describeParams. cbv zeta. rewrite describeParams_loop_concat.
    change (append "" ?s) with s. rewrite !append_assoc. reflexivity.
  - intros mdf sw azr bf i. repeat split.
Qed.

(** ** The order of the iteration *)

(** No two of the candidates have equal scores. *)
Definition distinctScores (cs : list TermScore) : Prop :=
  NoDup cs
  /\ forall a b, In a cs -> In b cs -> (score a =? score b)%float = true -> a = b.

(** The entries of a table, in the order of the iteration. *)
Definition tableEntries (table : FrequencyTable) : list (string * string * Z) :=
  flat_map (fun it => map (fun wt => (fst it, fst wt, snd wt)) (snd it)) table.

Definition candidateOf (mlt : MoreLikeThis) (e : string * string * Z)
  : list TermScore :=
  match scoreTerm mlt (numDocs (reader mlt)) (fst (fst e)) (snd (fst e)) (snd e) with
  | Some cand => [cand]
  | None => []
  end.

Lemma candidates_tableEntries (mlt : MoreLikeThis) (table : FrequencyTable) :
  candidates mlt table = flat_map (candidateOf mlt) (tableEntries table).
Proof.
  unfold candidates, tableEntries.
  induction table as [|[f m] table IH]; simpl; [reflexivity|].
  rewrite flat_map_app, IH. f_equal.
  unfold candidates_field; simpl.
  induction m as [|[w tf] m IHm]; simpl; [reflexivity|].
  rewrite IHm. reflexivity.
Qed.

Lemma getTermsCount_tableEntries (table : FrequencyTable) :
  getTermsCount table = Z.of_nat (List.length (tableEntries table)).
Proof.
  rewrite getTermsCount_termPairs. f_equal. unfold termPairs, tableEntries.
  induction table as [|it table IH]; simpl; [reflexivity|].
  rewrite !length_app, !length_map, IH. reflexivity.
Qed.

Lemma leb_both_eqb (x y : float) : Double.valid x -> Double.valid y ->
  (x <=? y)%float = true -> (y <=? x)%float = true -> (x =? y)%float = true.
Proof.
  intros vx vy. rewrite !DoubleFacts.leb_cmp, DoubleFacts.eqb_cmp by assumption.
  rewrite (DoubleFacts.cmp_is_antisym x y vx vy).
  destruct (Double.cmp x y); simpl; congruence.
Qed.

Lemma unordered_same_score (a b : TermScore) : numeric a -> numeric b ->
  notAbove a b -> notAbove b a -> (score a =? score b)%float = true.
Proof.
  intros va vb. unfold notAbove. rewrite !lessThan_cmp by assumption.
  rewrite (TermScore_cmp_antisym a b va vb).
  destruct (TermScore_cmp a b) eqn:E; simpl; try discriminate.
  intros _ _. unfold TermScore_cmp, lex in E.
  rewrite (DoubleFacts.eqb_cmp _ _ va vb).
  destruct (Double.cmp (score a) (score b)); try discriminate. reflexivity.
Qed.

Lemma sorted_unique {A : Type} (R : A -> A -> Prop) (l : list A) :
  forall l' : list A,
  StronglySorted R l -> StronglySorted R l' -> Permutation l l' ->
  (forall a b, In a l -> In b l -> R a b -> R b a -> a = b) -> l = l'.
Proof.
  induction l as [|a l IH]; intros l' Hs Hs' Hp Ha.
  - symmetry. exact (Permutation_nil Hp).
  - destruct l' as [|a' l'].
    { symmetry in Hp. apply Permutation_nil in Hp. discriminate Hp. }
    inversion Hs as [|? ? Hst Hfa]; subst. inversion Hs' as [|? ? Hst' Hfa']; subst.
    assert (E : a = a').
    { assert (H1 : In a (a' :: l'))
        by (apply (Permutation_in _ Hp); left; reflexivity).
      assert (H2 : In a' (a :: l))
        by (apply (Permutation_in _ (Permutation_sym Hp)); left; reflexivity).
      destruct H1 as [H1|H1]; [congruence|]. destruct H2 as [H2|H2]; [congruence|].
      rewrite Forall_forall in Hfa, Hfa'.
      apply Ha; [left; reflexivity|right; exact H2|auto|auto]. }
    subst a'. f_equal. apply IH; [assumption|assumption| |].
    + exact (Permutation_cons_inv Hp).
    + intros x y Hx Hy. apply Ha; right; assumption.
Qed.

Lemma NoDup_app_disjoint {A : Type} (l1 l2 : list A) (x : A) :
  NoDup (l1 ++ l2) -> In x l1 -> In x l2 -> False.
Proof.
  induction l1 as [|a l1 IH]; simpl; intros Hn H1 H2; [exact H1|].
  inversion Hn as [|? ? Ha Hn']; subst. destruct H1 as [->|H1].
  - apply Ha. apply in_or_app. right. exact H2.
  - exact (IH Hn' H1 H2).
Qed.

Lemma distinctScores_Permutation (cs cs' : list TermScore) :
  Permutation cs cs' -> distinctScores cs -> distinctScores cs'.
Proof.
  intros Hp [Hn Hd]. split; [exact (Permutation_NoDup Hp Hn)|].
  intros a b Ha Hb. apply Hd; apply (Permutation_in _ (Permutation_sym Hp)); assumption.
Qed.

(** An entry that one order of the candidates retains is retained in every
    other order. *)
Lemma retained_in_every_order (limit : Z) (cs cs' : list TermScore)
  (q q' : TermScoreQueue) (dropped dropped' : list TermScore) :
  Permutation cs cs' -> Forall numeric cs -> distinctScores cs ->
  keepsHighest limit q cs dropped -> keepsHighest limit q' cs' dropped' ->
  size q <= Z.max 0 limit ->
  forall x, In x (heap q) -> In x (heap q').
Proof.
  intros Hp vcs [Hnd Hds] (P & _ & D & _) (P' & _ & D' & E') Hsz x Hx.
  rewrite Forall_forall in vcs.
  assert (Hcs : forall y, In y (heap q ++ dropped) -> In y cs).
  { intros y. apply (Permutation_in _ (Permutation_sym P)). }
  assert (Hcs' : forall y, In y (heap q' ++ dropped') -> In y cs).
  { intros y Hy. apply (Permutation_in _ (Permutation_sym Hp)).
    exact (Permutation_in _ (Permutation_sym P') Hy). }
  assert (Hn' : NoDup (heap q' ++ dropped')).
  { apply (Permutation_NoDup P'). exact (Permutation_NoDup Hp Hnd). }
  assert (Hxcs : In x cs) by (apply Hcs, in_or_app; left; exact Hx).
  assert (Hx' : In x (heap q' ++ dropped')).
  { apply (Permutation_in _ P'). exact (Permutation_in _ Hp Hxcs). }
  apply in_app_or in Hx'. destruct Hx' as [Hx'|Hxd]; [exact Hx'|]. exfalso.
  assert (Hnot : ~ In x (heap q')).
  { intros Hin. exact (NoDup_app_disjoint _ _ x Hn' Hin Hxd). }
  assert (Hincl : incl (x :: heap q') (heap q)).
  { intros y [<-|Hy]; [exact Hx|].
    assert (Hycs : In y cs) by (apply Hcs', in_or_app; left; exact Hy).
    pose proof (Permutation_in _ P Hycs) as Hy'.
    apply in_app_or in Hy'. destruct Hy' as [Hy'|Hyd]; [exact Hy'|]. exfalso.
    assert (Exy : y = x).
    { apply Hds; [exact Hycs|exact Hxcs|].
      apply leb_both_eqb; [exact (vcs _ Hycs)|exact (vcs _ Hxcs)| |].
      - exact (D x y Hx Hyd).
      - exact (D' y x Hy Hxd). }
    subst y. exact (Hnot Hy). }
  assert (Hlen : (List.length (x :: heap q') <= List.length (heap q))%nat).
  { apply NoDup_incl_length; [|exact Hincl].
    constructor; [exact Hnot|exact (NoDup_app_remove_r _ _ Hn')]. }
  assert (Hfull : ~ size q' < limit).
  { intros Hlt. rewrite (E' Hlt) in Hxd. destruct Hxd. }
  unfold size in *. simpl in Hlen. lia.
Qed.

Lemma offer_maxSize (limit : Z) (q q' : TermScoreQueue) (cand : TermScore) :
  offer limit q cand = Ok q' -> maxSize q' = maxSize q.
Proof.
  unfold offer. destruct (size q <? limit); [intros [= <-]; reflexivity|].
  destruct (top q) as [st|]; [|discriminate].
  destruct (score st <? score cand)%float; intros [= <-]; reflexivity.
Qed.

Lemma forEach_offer_maxSize (limit : Z) (cs : list TermScore) :
  forall q q' : TermScoreQueue,
  forEach (offer limit) cs q = Ok q' -> maxSize q' = maxSize q.
Proof.
  induction cs as [|c cs IH]; simpl; intros q q'.
  - intros [= <-]; reflexivity.
  - destruct (offer limit q c) as [q1|] eqn:E; simpl; [|discriminate].
    intros H. rewrite (IH q1 q' H). exact (offer_maxSize _ _ _ _ E).
Qed.

Lemma forEach_offer_order_independent (limit : Z) (cs cs' : list TermScore)
  (q q' : TermScoreQueue) :
  Permutation cs cs' -> Forall numeric cs -> distinctScores cs ->
  forEach (offer limit) cs (newTermScoreQueue limit) = Ok q ->
  forEach (offer limit) cs' (newTermScoreQueue limit) = Ok q' ->
  q = q'.
Proof.
  intros Hp vcs Hds Hq Hq'.
  assert (vcs' : Forall numeric cs').
  { rewrite Forall_forall in *. intros x Hx. apply vcs.
    exact (Permutation_in _ (Permutation_sym Hp) Hx). }
  pose proof (distinctScores_Permutation cs cs' Hp Hds) as Hds'.
  assert (Hk0 : keepsHighest limit (newTermScoreQueue limit) [] []).
  { unfold keepsHighest; simpl. repeat split; auto; try constructor. }
  destruct (forEach_offer_keepsHighest limit cs _ q [] [] vcs (Forall_nil _) Hk0 Hq)
    as [d Hk].
  destruct (forEach_offer_keepsHighest limit cs' _ q' [] [] vcs' (Forall_nil _) Hk0 Hq')
    as [d' Hk'].
  simpl in Hk, Hk'.
  assert (Hs : size q <= Z.max 0 limit).
  { apply (forEach_offer_size _ _ _ _ Hq). unfold size; simpl; lia. }
  assert (Hs' : size q' <= Z.max 0 limit).
  { apply (forEach_offer_size _ _ _ _ Hq'). unfold size; simpl; lia. }
  pose proof (retained_in_every_order limit cs cs' q q' d d' Hp vcs Hds Hk Hk' Hs)
    as H1.
  pose proof (retained_in_every_order limit cs' cs q' q d' d (Permutation_sym Hp)
                vcs' Hds' Hk' Hk Hs') as H2.
  destruct (keepsHighest_numeric _ _ _ _ Hk vcs) as [vh _].
  destruct Hk as (P & O & _). destruct Hk' as (P' & O' & _).
  destruct Hds as [Hnd Hd]. destruct Hds' as [Hnd' _].
  assert (Hperm : Permutation (heap q) (heap q')).
  { apply NoDup_Permutation.
    - exact (NoDup_app_remove_r _ _ (Permutation_NoDup P Hnd)).
    - exact (NoDup_app_remove_r _ _ (Permutation_NoDup P' Hnd')).
    - intros x. split; [apply H1|apply H2]. }
  assert (Hheap : heap q = heap q').
  { apply (sorted_unique notAbove); [exact O|exact O'|exact Hperm|].
    rewrite Forall_forall in vh.
    intros a b Ha Hb Hab Hba.
    apply Hd.
    - apply (Permutation_in _ (Permutation_sym P)), in_or_app. left. exact Ha.
    - apply (Permutation_in _ (Permutation_sym P)), in_or_app. left. exact Hb.
    - exact (unordered_same_score a b (vh _ Ha) (vh _ Hb) Hab Hba). }
  pose proof (forEach_offer_maxSize _ _ _ _ Hq) as Hm.
  pose proof (forEach_offer_maxSize _ _ _ _ Hq') as Hm'.
  destruct q as [ms h], q' as [ms' h']. simpl in *. congruence.
Qed.

(** X24.  When the scores of the terms that pass the thresholds are
    numbers and no two of them are equal, the queue [createQueue] returns
    does not depend on the order in which the hash maps are iterated: two
    tables that hold the same entries in different orders give the same
    queue. *)
Theorem createQueue_order_independent (mlt : MoreLikeThis)
  (table table' : FrequencyTable) (q q' : TermScoreQueue) :
  Permutation (tableEntries table) (tableEntries table') ->
  Forall numeric (candidates mlt table) ->
  distinctScores (candidates mlt table) ->
  createQueue mlt table = Ok q ->
  createQueue mlt table' = Ok q' ->
  q = q'.
Proof.
  intros Hp vcs Hds. rewrite !createQueue_candidates.
  assert (Hl : limitOf mlt table' = limitOf mlt table).
  { unfold limitOf. rewrite !getTermsCount_tableEntries.
    rewrite (Permutation_length Hp). reflexivity. }
  rewrite Hl. apply forEach_offer_order_independent; [|exact vcs|exact Hds].
  rewrite !candidates_tableEntries. apply Permutation_flat_map. exact Hp.
Qed.

(** The entries of [exTable] in another order. *)
Definition exTable' : FrequencyTable :=
  [("body"%string, [("c"%string, 7); ("a"%string, 5); ("b"%string, 3)])].

Lemma createQueue_order_independent_witness :
  Permutation (tableEntries exTable) (tableEntries exTable')
  /\ createQueue (setMaxQueryTerms exMoreLikeThis 2) exTable = Ok exQueue
  /\ createQueue (setMaxQueryTerms exMoreLikeThis 2) exTable' = Ok exQueue.
Proof.
  assert (H1 : Permutation (tableEntries exTable) (tableEntries exTable')).
  { simpl. apply Permutation_sym. apply (Permutation_cons_app [_; _] []).
    reflexivity. }
  assert (H2 : Forall numeric (candidates (setMaxQueryTerms exMoreLikeThis 2) exTable))
    by (repeat constructor).
  assert (H3 : distinctScores (candidates (setMaxQueryTerms exMoreLikeThis 2) exTable)).
  { split.
    - repeat constructor; simpl; intros H;
        repeat destruct H as [H|H]; try discriminate H; exact H.
    - intros a b Ha Hb. simpl in Ha, Hb.
      repeat destruct Ha as [Ha|Ha]; try contradiction;
        repeat destruct Hb as [Hb|Hb]; try contradiction;
        subst a b; intros E; try reflexivity; vm_compute in E; discriminate E. }
  assert (H4 : createQueue (setMaxQueryTerms exMoreLikeThis 2) exTable = Ok exQueue)
    by evaluate.
  assert (H5 : exists q',
             createQueue (setMaxQueryTerms exMoreLikeThis 2) exTable' = Ok q').
  { eexists. evaluate. }
  split; [exact H1|]. split; [exact H4|].
  destruct H5 as [q' H5]. rewrite H5. f_equal. symmetry.
  exact (createQueue_order_independent _ _ _ _ _ H1 H2 H3 H4 H5).
Defined.

(** ** The frequencies of the terms of a document *)

(** What the document gives for the term [k] under the field [f]: the
    frequencies of its term vector or, without one, the occurrences among
    the tokens read of its stored values. *)
Definition fieldOccurrences (mlt : MoreLikeThis) (azr : Analyzer) (docNum : Z)
  (f k : string) : Z :=
  match getTermFreqVector (reader mlt) docNum f with
  | Some v => occurrences k (combine (getTerms v) (getTermFrequencies v))
  | None =>
      countOf k (flat_map (tokensRead mlt azr f)
                   (getValues (document (reader mlt) docNum) f))
  end.

Lemma forEachAcc_readers_other (mlt : MoreLikeThis) (fieldName f' : string)
  (rs : list Reader) :
  String.eqb f' fieldName = false ->
  forall table,
  fieldMap (snd (forEachAcc (fun it t => addTermFrequencies_reader mlt it t fieldName)
                   rs table)) f'
  = fieldMap table f'.
Proof.
  intros Hf. induction rs as [|r rs IH]; intros table; simpl; [reflexivity|].
  destruct (analyzer mlt) as [azr|] eqn:Ea.
  - rewrite (token_mode_is_vector_mode_aux mlt azr r table fieldName Ea), IH.
    unfold addTermFrequencies_vector.
    rewrite fieldMap_put_other, fieldMap_ensureField_other by exact Hf.
    reflexivity.
  - unfold addTermFrequencies_reader. rewrite Ea. reflexivity.
Qed.

Lemma retrieveTerms_field_frequencies (mlt : MoreLikeThis) (azr : Analyzer)
  (docNum : Z) (f f' k : string) (table : FrequencyTable) :
  analyzer mlt = Some azr ->
  freqOf (fieldMap (snd (retrieveTerms_field mlt docNum f table)) f') k
  = freqOf (fieldMap table f') k
    + (if String.eqb f' f
       then if isNoiseWord mlt k then 0 else fieldOccurrences mlt azr docNum f k
       else 0).
Proof.
  intros Ha. unfold retrieveTerms_field, fieldOccurrences. cbv zeta.
  destruct (String.eqb f' f) eqn:Ef.
  - apply String.eqb_eq in Ef. subst f'.
    destruct (getTermFreqVector (reader mlt) docNum f) as [v|].
    + cbn [snd]. unfold addTermFrequencies_vector.
      rewrite fieldMap_put, freqOf_vectorLoop, fieldMap_ensureField. reflexivity.
    + apply (forEachAcc_readers_frequencies mlt azr f k _ Ha).
  - destruct (getTermFreqVector (reader mlt) docNum f) as [v|].
    + cbn [snd]. unfold addTermFrequencies_vector.
      rewrite fieldMap_put_other, fieldMap_ensureField_other by exact Ef. lia.
    + rewrite (forEachAcc_readers_other mlt f f' _ Ef). lia.
Qed.

Lemma forEachAcc_fields_frequencies (mlt : MoreLikeThis) (azr : Analyzer)
  (docNum : Z) (f k : string) (names : list string) :
  analyzer mlt = Some azr ->
  forall table,
  freqOf (fieldMap (snd (forEachAcc (retrieveTerms_field mlt docNum) names table)) f) k
  = freqOf (fieldMap table f) k
    + (if isNoiseWord mlt k then 0 else fieldOccurrences mlt azr docNum f k)
      * countOf f names.
Proof.
  intros Ha. induction names as [|a names IH]; intros table; simpl; [lia|].
  pose proof (retrieveTerms_field_outcome mlt docNum a table) as Ho.
  pose proof (retrieveTerms_field_frequencies mlt azr docNum a f k table Ha) as Hf.
  rewrite Ha in Ho.
  destruct (retrieveTerms_field mlt docNum a table) as [[u|e] table'];
    simpl in Ho, Hf; [|discriminate].
  rewrite IH, Hf. destruct (String.eqb f a) eqn:E.
  - apply String.eqb_eq in E. subst a. lia.
  - lia.
Qed.

Lemma countOf_once (k : string) (l : list string) :
  NoDup l -> In k l -> countOf k l = 1.
Proof.
  induction l as [|a l IH]; simpl; intros Hn Hin; [destruct Hin|].
  inversion Hn as [|? ? Ha Hn']; subst.
  assert (H0 : ~ In k l -> countOf k l = 0).
  { clear. induction l as [|b l IHl]; simpl; intros H; [reflexivity|].
    destruct (String.eqb k b) eqn:E.
    - apply String.eqb_eq in E. subst b. exfalso. apply H. left. reflexivity.
    - rewrite IHl; [reflexivity|]. intros H'. apply H. right. exact H'. }
  destruct Hin as [->|Hin].
  - rewrite String.eqb_refl, (H0 Ha). reflexivity.
  - destruct (String.eqb k a) eqn:E.
    + apply String.eqb_eq in E. subst a. contradiction.
    + rewrite (IH Hn' Hin). reflexivity.
Qed.

(** X25.  With an analyzer set, the frequency that [retrieveTerms(docNum)]
    has collected under a configured field for a term that is no noise
    word is what the document gives for it under that field: the
    frequencies of the term vector of the field when it has one, and
    otherwise the occurrences of the term among the first
    [maxNumTokensParsed] tokens of each stored value of the field; this as
    long as the frequencies of the term vector are not negative and the
    sum is an [int32_t] value.  What the other fields hold has no part in
    it; a noise word has the frequency 0. *)
Theorem accumulate_docNum_frequencies (mlt : MoreLikeThis) (azr : Analyzer)
  (docNum : Z) (f k : string) :
  analyzer mlt = Some azr ->
  NoDup (fieldNames mlt) -> In f (fieldNames mlt) ->
  (forall v, getTermFreqVector (reader mlt) docNum f = Some v ->
             Forall (fun n => 0 <= n) (getTermFrequencies v)) ->
  fieldOccurrences mlt azr docNum f k <= INT32_MAX ->
  freqOf (fieldMap (snd (accumulate_docNum mlt docNum)) f) k
  = (if isNoiseWord mlt k then 0 else fieldOccurrences mlt azr docNum f k)
  /\ 0 <= freqOf (fieldMap (snd (accumulate_docNum mlt docNum)) f) k <= INT32_MAX.
Proof.
  intros Ha Hn Hin Hpos Hfit.
  assert (Hsum : freqOf (fieldMap (snd (accumulate_docNum mlt docNum)) f) k
                 = (if isNoiseWord mlt k then 0
                    else fieldOccurrences mlt azr docNum f k)).
  { unfold accumulate_docNum.
    rewrite (forEachAcc_fields_frequencies mlt azr docNum f k _ Ha []).
    rewrite (countOf_once f _ Hn Hin). unfold fieldMap, freqOf; simpl. lia. }
  split; [exact Hsum|]. rewrite Hsum.
  assert (H0 : 0 <= fieldOccurrences mlt azr docNum f k).
  { unfold fieldOccurrences.
    destruct (getTermFreqVector (reader mlt) docNum f) as [v|].
    - apply occurrences_nonneg. apply Forall_forall. intros [t n] Hi. simpl.
      specialize (Hpos v eq_refl). rewrite Forall_forall in Hpos. apply Hpos.
      exact (in_combine_r _ _ _ _ Hi).
    - apply countOf_bounds. }
  unfold INT32_MAX in *. destruct (isNoiseWord mlt k); lia.
Qed.

Lemma accumulate_docNum_frequencies_witness :
  analyzer (setFieldNames exMoreLikeThis ["body"%string]) = Some whitespaceAnalyzer
  /\ NoDup (fieldNames (setFieldNames exMoreLikeThis ["body"%string]))
  /\ In "body"%string (fieldNames (setFieldNames exMoreLikeThis ["body"%string]))
  /\ fieldOccurrences (setFieldNames exMoreLikeThis ["body"%string])
       whitespaceAnalyzer 7 "body" "v" <= INT32_MAX
  /\ freqOf (fieldMap
              (snd (accumulate_docNum (setFieldNames exMoreLikeThis ["body"%string]) 7))
              "body"%string) "v"%string
     = 1.
Proof.
  assert (H1 : analyzer (setFieldNames exMoreLikeThis ["body"%string])
               = Some whitespaceAnalyzer) by reflexivity.
  assert (H2 : NoDup (fieldNames (setFieldNames exMoreLikeThis ["body"%string])))
    by (repeat constructor; intros []).
  assert (H3 : In "body"%string
                 (fieldNames (setFieldNames exMoreLikeThis ["body"%string])))
    by (left; reflexivity).
  assert (H4 : forall v,
             getTermFreqVector (reader (setFieldNames exMoreLikeThis ["body"%string]))
               7 "body" = Some v ->
             Forall (fun n => 0 <= n) (getTermFrequencies v))
    by (intros v H; discriminate H).
  assert (H5 : fieldOccurrences (setFieldNames exMoreLikeThis ["body"%string])
                 whitespaceAnalyzer 7 "body" "v" <= INT32_MAX)
    by (vm_compute; discriminate).
  split; [exact H1|]. split; [exact H2|]. split; [exact H3|]. split; [exact H5|].
  exact (eq_trans
           (proj1 (accumulate_docNum_frequencies _ _ 7 _ "v"%string H1 H2 H3 H4 H5))
           ltac:(evaluate)).
Defined.
